(** * Sous: the voice audio pipeline of [components/VoiceInterface.tsx]
      and the identifier mapping of [hooks/useRecipes.ts].

    The development is a shallow embedding.  Pure helpers of the component
    ([createWavHeader], [isWavFile], the two sample conversions) become Rocq
    functions; the component's React state and refs become one record that
    every handler transforms; the socket is a record holding its
    [readyState] and the list of frames handed to [send].

    Conventions.
    - A JavaScript [number] that the code treats as an integer is a [Z]; a
      number that may be fractional is a [Q].  The sample conversions meet
      only values of fewer than 53 significant bits, on which double
      arithmetic is exact; the header encoder, whose arguments are not
      bounded, rounds its products as binary64 does ([JS.roundToDouble]).
    - An [ArrayBuffer] is a [list Z] of octets; typed-array stores reduce
      the stored number as ECMAScript prescribes ([ToUint8], [ToUint16],
      [ToUint32], [ToInt16]), written out with [mod].
    - A JavaScript string is the list of its UTF-16 code units.
    - An operation that throws returns [None] (or the error branch of the
      handler that catches it). *)

From Stdlib Require Import ZArith QArith Qround String Ascii Bool Lia Lqa List.
Import ListNotations.

Local Open Scope Z_scope.

(** ** ECMAScript number conversions and strings *)

Module JS.

(** [ToIntegerOrInfinity] on a finite number: truncation towards zero. *)
Definition truncate (q : Q) : Z := Z.quot (Qnum q) (Zpos (Qden q)).

Definition ToUint8 (q : Q) : Z := truncate q mod 2 ^ 8.
Definition ToUint16 (q : Q) : Z := truncate q mod 2 ^ 16.
Definition ToUint32 (q : Q) : Z := truncate q mod 2 ^ 32.

(** [ToInt16]: reduce modulo 2^16, then read the result as two's
    complement. *)
Definition ToInt16 (q : Q) : Z :=
  let m := truncate q mod 2 ^ 16 in
  if 2 ^ 15 <=? m then m - 2 ^ 16 else m.

(** A string as its code units; [charCodeAt] and [String.fromCharCode]. *)
Definition jsstring := list Z.

Fixpoint codeUnits (s : string) : jsstring :=
  match s with
  | EmptyString => []
  | String c rest => Z.of_nat (nat_of_ascii c) :: codeUnits rest
  end.

Definition fromCharCode (codes : list Z) : jsstring :=
  map (fun c => c mod 2 ^ 16) codes.

(** [a === b] on two strings. *)
Fixpoint str_eqb (a b : jsstring) : bool :=
  match a, b with
  | [], [] => true
  | x :: a', y :: b' => (x =? y) && str_eqb a' b'
  | _, _ => false
  end.

(** *** Arithmetic on the Number type (IEEE 754 binary64)

    A finite Number is the rational it denotes; [None] stands for NaN and
    for the two infinities.  The integer conversions of the typed-array
    and [DataView] stores send all three to zero, and the operands below
    never produce a finite result from a non-finite one, so the three need
    not be told apart. *)
Definition number := option Q.

(** [floor (log2 |q|)] for a non-zero [q]. *)
Definition ilog2 (q : Q) : Z :=
  let a := if Qle_bool 0 q then q else (- q)%Q in
  if Qle_bool 1 a then Z.log2 (Qfloor a)
  else - Z.log2_up (Qceiling (/ a)).

(** [q * 2^e]. *)
Definition scale2 (q : Q) (e : Z) : Q :=
  if 0 <=? e then (q * inject_Z (2 ^ e))%Q
  else (q / inject_Z (2 ^ (- e)))%Q.

(** The nearest integer, a tie going to the even one. *)
Definition roundHalfEven (q : Q) : Z :=
  let f := Qfloor q in
  match Qcompare (q - inject_Z f) (1 # 2) with
  | Lt => f
  | Gt => f + 1
  | Eq => if Z.even f then f else f + 1
  end.

(** The Number nearest to a real (roundTiesToEven).  Around [q] the
    doubles are [2^(e - 52)] apart, [e] being the binary exponent of [q]
    and at least -1022; a result of magnitude [2^1024] or more is an
    infinity. *)
Definition roundToDouble (q : Q) : number :=
  if Qeq_bool q 0 then Some q
  else
    let e := Z.max (ilog2 q) (-1022) - 52 in
    let r := scale2 (inject_Z (roundHalfEven (scale2 q (- e)))) e in
    if Qle_bool (inject_Z (2 ^ 1024)) r || Qle_bool r (inject_Z (- 2 ^ 1024))
    then None
    else Some r.

(** An integer written in the source, as a Number. *)
Definition ofZ (n : Z) : number := roundToDouble (inject_Z n).

(** [x * y]. *)
Definition mul (x y : number) : number :=
  match x, y with
  | Some a, Some b => roundToDouble (a * b)
  | _, _ => None
  end.

(** [x / d] for a finite, non-zero constant [d]. *)
Definition div (x : number) (d : Q) : number :=
  match x with
  | Some a => roundToDouble (a / d)
  | None => None
  end.

(** What an integer conversion sees of a Number: NaN and the infinities
    convert as zero does. *)
Definition finitePart (x : number) : Q :=
  match x with
  | Some q => q
  | None => 0%Q
  end.

End JS.

(** ** An [ArrayBuffer] seen through a [DataView] *)

Module DataView.

Definition buffer := list Z.

(** [new ArrayBuffer(n)]: [n] zero octets. *)
Definition alloc (n : nat) : buffer := repeat 0 n.

Fixpoint write_at (i : nat) (v : Z) (b : buffer) : buffer :=
  match b, i with
  | [], _ => []
  | _ :: t, O => v :: t
  | h :: t, S j => h :: write_at j v t
  end.

(** The [k]-th octet of a non-negative integer, least significant first. *)
Definition octet (k : nat) (v : Z) : Z := (v / 2 ^ (8 * Z.of_nat k)) mod 256.

(** Setters throw a [RangeError] when the access leaves the buffer. *)
Definition setUint8 (off : nat) (v : Q) (b : buffer) : option buffer :=
  if (off + 1 <=? length b)%nat
  then Some (write_at off (JS.ToUint8 v) b)
  else None.

(** [view.setUint16(off, v, true)]: little-endian. *)
Definition setUint16 (off : nat) (v : Q) (b : buffer) : option buffer :=
  if (off + 2 <=? length b)%nat
  then let n := JS.ToUint16 v in
       Some (write_at (off + 1) (octet 1 n) (write_at off (octet 0 n) b))
  else None.

(** [view.setUint32(off, v, true)]: little-endian. *)
Definition setUint32 (off : nat) (v : Q) (b : buffer) : option buffer :=
  if (off + 4 <=? length b)%nat
  then let n := JS.ToUint32 v in
       Some (write_at (off + 3) (octet 3 n)
            (write_at (off + 2) (octet 2 n)
            (write_at (off + 1) (octet 1 n)
            (write_at off (octet 0 n) b))))
  else None.

Definition getUint8 (b : buffer) (off : nat) : option Z := nth_error b off.

Definition getUint16 (b : buffer) (off : nat) : option Z :=
  match nth_error b off, nth_error b (off + 1) with
  | Some b0, Some b1 => Some (b0 + 2 ^ 8 * b1)
  | _, _ => None
  end.

Definition getUint32 (b : buffer) (off : nat) : option Z :=
  match nth_error b off, nth_error b (off + 1),
        nth_error b (off + 2), nth_error b (off + 3) with
  | Some b0, Some b1, Some b2, Some b3 =>
      Some (b0 + 2 ^ 8 * b1 + 2 ^ 16 * b2 + 2 ^ 24 * b3)
  | _, _, _, _ => None
  end.

(** [len] octets starting at [off]. *)
Definition slice (b : buffer) (off len : nat) : list Z :=
  firstn len (skipn off b).

End DataView.

(** ** Frame codec: the stream header and the container test *)

Module FrameCodec.
Import JS DataView.

Notation "x <- c ;; k" :=
  (match c with Some x => k | None => None end)
  (at level 60, c at next level, right associativity).

(** [const numChannels = 1]. *)
Definition numChannels : Z := 1.

(** The inner helper [writeString]: one [setUint8] per code unit. *)
Fixpoint writeString (offset : nat) (s : jsstring) (b : buffer)
  : option buffer :=
  match s with
  | [] => Some b
  | c :: rest =>
      b' <- setUint8 offset (inject_Z c) b ;;
      writeString (S offset) rest b'
  end.

(** [createWavHeader(sampleRate, bitsPerSample)].  The arguments are
    integers, each taken as the Number nearest to it; the byte rate is
    [(sampleRate * numChannels) * (bitsPerSample / 8)], each operation
    rounded to a double. *)
Definition createWavHeader (sampleRate bitsPerSample : Z) : option buffer :=
  let sr := ofZ sampleRate in
  let bps := ofZ bitsPerSample in
  let ch := ofZ numChannels in
  b <- writeString 0 (codeUnits "RIFF") (alloc 44) ;;
  b <- setUint32 4 (inject_Z 0) b ;;
  b <- writeString 8 (codeUnits "WAVE") b ;;
  b <- writeString 12 (codeUnits "fmt ") b ;;
  b <- setUint32 16 (inject_Z 16) b ;;
  b <- setUint16 20 (inject_Z 1) b ;;
  b <- setUint16 22 (finitePart ch) b ;;
  b <- setUint32 24 (finitePart sr) b ;;
  b <- setUint32 28 (finitePart (mul (mul sr ch) (div bps (inject_Z 8)))) b ;;
  b <- setUint16 32 (finitePart (mul ch (div bps (inject_Z 8)))) b ;;
  b <- setUint16 34 (finitePart bps) b ;;
  b <- writeString 36 (codeUnits "data") b ;;
  setUint32 40 (inject_Z 0) b.

(** [isWavFile(data)]. *)
Definition isWavFile (data : buffer) : bool :=
  if (length data <? 12)%nat then false
  else
    match getUint8 data 0, getUint8 data 1, getUint8 data 2, getUint8 data 3,
          getUint8 data 8, getUint8 data 9, getUint8 data 10, getUint8 data 11
    with
    | Some r0, Some r1, Some r2, Some r3,
      Some w0, Some w1, Some w2, Some w3 =>
        let riff := fromCharCode [r0; r1; r2; r3] in
        let wave := fromCharCode [w0; w1; w2; w3] in
        str_eqb riff (codeUnits "RIFF") && str_eqb wave (codeUnits "WAVE")
    | _, _, _, _, _, _, _, _ => false
    end.

(** Every element of an [ArrayBuffer] is an octet. *)
Definition octets (b : buffer) : Prop := Forall (fun x => 0 <= x < 256) b.

Definition octetsb (b : buffer) : bool :=
  forallb (fun x => (0 <=? x) && (x <? 256)) b.

End FrameCodec.

(** ** Sample conversions of the playback and capture paths *)

Module Pcm.
Import JS DataView.

(** A finite [Float32] sample is a rational number.  The values the two
    loops produce are exact: [x / 32768] for a 16-bit [x] has at most 16
    significant bits, and a clamped sample times [0x7FFF] or [0x8000] has
    at most 39, so neither the [Float32Array] store nor the double
    multiplication rounds. *)
Definition sample := Q.

(** [new Int16Array(audioData)]: the octets read pairwise, little-endian,
    as two's complement; a [RangeError] when the length is odd. *)
Definition signed16 (u : Z) : Z := if 2 ^ 15 <=? u then u - 2 ^ 16 else u.

Fixpoint int16View (data : buffer) : option (list Z) :=
  match data with
  | [] => Some []
  | [_] => None
  | lo :: hi :: rest =>
      match int16View rest with
      | Some xs => Some (signed16 (lo + 2 ^ 8 * hi) :: xs)
      | None => None
      end
  end.

(** The body of the playback loop:
    [float32Array[i] = int16Array[i] / 32768.0]. *)
Definition int16ToFloat32 (x : Z) : sample :=
  (inject_Z x / inject_Z 32768)%Q.

(** [Math.min], [Math.max] and [<] on finite numbers. *)
Definition Math_min (a b : Q) : Q := if Qle_bool a b then a else b.
Definition Math_max (a b : Q) : Q := if Qle_bool a b then b else a.
Definition Qltb (a b : Q) : bool := negb (Qle_bool b a).

(** [Math.max(-1, Math.min(1, inputData[i]))]. *)
Definition clampSample (x : sample) : sample :=
  Math_max (inject_Z (-1)) (Math_min (inject_Z 1) x).

(** The body of the capture loop: clamp, scale by [0x8000] or [0x7FFF],
    and store into an [Int16Array] element. *)
Definition floatToPcm16 (x : sample) : Z :=
  let s := clampSample x in
  ToInt16 (if Qltb s (inject_Z 0)
           then s * inject_Z 32768
           else s * inject_Z 32767)%Q.

(** [pcm16Data.buffer]: the samples as octets, little-endian. *)
Definition int16Octets (x : Z) : list Z :=
  let u := x mod 2 ^ 16 in [octet 0 u; octet 1 u].

Definition pcm16Buffer (input : list sample) : buffer :=
  flat_map (fun x => int16Octets (floatToPcm16 x)) input.

(** The playback conversion of a whole payload. *)
Definition decodePcm (data : buffer) : option (list sample) :=
  option_map (map int16ToFloat32) (int16View data).

End Pcm.

(** ** [hooks/useRecipes.ts]: the integer identifier sent to the
    collaborator service *)

Module Ident.
Import JS.

(** [s.replace(/-/g, '')]: every hyphen (code unit 45) removed. *)
Definition removeHyphens (s : jsstring) : jsstring :=
  filter (fun c => negb (c =? 45)) s.

(** [s.substring(start, end)]: both indices are clamped to the length and
    swapped when out of order. *)
Definition substring (start stop : nat) (s : jsstring) : jsstring :=
  let a := Nat.min start (length s) in
  let b := Nat.min stop (length s) in
  firstn (Nat.max a b - Nat.min a b) (skipn (Nat.min a b) s).

(** The white space [parseInt] skips ([StrWhiteSpaceChar]). *)
Definition isWhiteSpace (c : Z) : bool :=
  existsb (Z.eqb c)
    [9; 10; 11; 12; 13; 32; 160; 5760; 8232; 8233; 8239; 8287; 12288; 65279]
  || ((8192 <=? c) && (c <=? 8202)).

Fixpoint skipWhiteSpace (s : jsstring) : jsstring :=
  match s with
  | c :: rest => if isWhiteSpace c then skipWhiteSpace rest else s
  | [] => []
  end.

(** The value of a hexadecimal digit, if [c] is one. *)
Definition hexDigit (c : Z) : option Z :=
  if (48 <=? c) && (c <=? 57) then Some (c - 48)
  else if (97 <=? c) && (c <=? 102) then Some (c - 87)
  else if (65 <=? c) && (c <=? 70) then Some (c - 55)
  else None.

(** The longest prefix of hexadecimal digits, read most significant digit
    first: [acc] is the value so far, [seen] whether a digit was read. *)
Fixpoint hexPrefix (s : jsstring) (acc : Z) (seen : bool) : option Z :=
  match s with
  | c :: rest =>
      match hexDigit c with
      | Some d => hexPrefix rest (16 * acc + d) true
      | None => if seen then Some acc else None
      end
  | [] => if seen then Some acc else None
  end.

(** [parseInt(s, 16)]; [None] is [NaN].  The result is exact up to 2^53,
    that is for up to 13 digits. *)
Definition parseInt16 (s : jsstring) : option Z :=
  let s1 := skipWhiteSpace s in
  let '(sign, s2) :=
    match s1 with
    | 45 :: rest => (-1, rest)
    | 43 :: rest => (1, rest)
    | _ => (1, s1)
    end in
  let s3 :=
    match s2 with
    | 48 :: 120 :: rest => rest
    | 48 :: 88 :: rest => rest
    | _ => s2
    end in
  option_map (Z.mul sign) (hexPrefix s3 0 false).

(** The expression every call site repeats (source comment: "Convert UUID
    to int"): [parseInt(id.replace(/-/g, '').substring(0, 8), 16)]. *)
Definition uuidToInt (id : jsstring) : option Z :=
  parseInt16 (substring 0 8 (removeHyphens id)).

(** The [recipe_id] and [user_id] fields of the three request bodies, each
    written as its call site writes it. *)
Definition addRecipe_ids (dataId userId : jsstring) : option Z * option Z :=
  (parseInt16 (substring 0 8 (removeHyphens dataId)),
   parseInt16 (substring 0 8 (removeHyphens userId))).

Definition updateRecipe_ids (id userId : jsstring) : option Z * option Z :=
  let recipeId := parseInt16 (substring 0 8 (removeHyphens id)) in
  let userIdInt := parseInt16 (substring 0 8 (removeHyphens userId)) in
  (recipeId, userIdInt).

Definition deleteRecipe_ids (id userId : jsstring) : option Z * option Z :=
  let recipeId := parseInt16 (substring 0 8 (removeHyphens id)) in
  let userIdInt := parseInt16 (substring 0 8 (removeHyphens userId)) in
  (recipeId, userIdInt).

(** A UUID in its canonical text form: 36 code units, hyphens at positions
    8, 13, 18 and 23, hexadecimal digits elsewhere. *)
Definition isHex (c : Z) : bool :=
  match hexDigit c with Some _ => true | None => false end.

Definition isUuid (s : jsstring) : bool :=
  match s with
  | [a0; a1; a2; a3; a4; a5; a6; a7; h1; b0; b1; b2; b3; h2; c0; c1; c2; c3;
     h3; d0; d1; d2; d3; h4; e0; e1; e2; e3; e4; e5; e6; e7; e8; e9; e10; e11]
    =>
      forallb (Z.eqb 45) [h1; h2; h3; h4]
      && forallb isHex
           [a0; a1; a2; a3; a4; a5; a6; a7; b0; b1; b2; b3; c0; c1; c2; c3;
            d0; d1; d2; d3; e0; e1; e2; e3; e4; e5; e6; e7; e8; e9; e10; e11]
  | _ => false
  end.

(** The 128-bit number a UUID denotes: its 32 hexadecimal digits. *)
Fixpoint hexValue (s : jsstring) (acc : Z) : Z :=
  match s with
  | c :: rest =>
      match hexDigit c with
      | Some d => hexValue rest (16 * acc + d)
      | None => acc
      end
  | [] => acc
  end.

Definition uuidValue (id : jsstring) : Z := hexValue (removeHyphens id) 0.

(** The reading the specification gives: a low-order substring, that is
    the last [n] hexadecimal digits, parsed as hexadecimal. *)
Definition spec_lowOrderId (n : nat) (id : jsstring) : option Z :=
  let digits := removeHyphens id in
  parseInt16 (skipn (length digits - n) digits).

End Ident.

(** ** [btoa] and the data URI of the native playback path *)

Module Base64.
Import JS.

(** The character of a 6-bit value in the base64 alphabet
    (A-Z, a-z, 0-9, plus, slash). *)
Definition b64char (n : Z) : Z :=
  if n <? 26 then 65 + n
  else if n <? 52 then 71 + n
  else if n <? 62 then n - 4
  else if n =? 62 then 43
  else 47.

(** Three octets give four characters; a final group of one or two octets
    is padded with [=] (code unit 61). *)
Fixpoint encodeGroups (s : list Z) : jsstring :=
  match s with
  | [] => []
  | [a] => [b64char (a / 4); b64char (a mod 4 * 16); 61; 61]
  | [a; b] =>
      [b64char (a / 4); b64char (a mod 4 * 16 + b / 16);
       b64char (b mod 16 * 4); 61]
  | a :: b :: c :: rest =>
      b64char (a / 4) :: b64char (a mod 4 * 16 + b / 16)
      :: b64char (b mod 16 * 4 + c / 64) :: b64char (c mod 64)
      :: encodeGroups rest
  end.

(** [btoa(s)]: an [InvalidCharacterError] when a code unit exceeds 255. *)
Definition btoa (s : jsstring) : option jsstring :=
  if forallb (fun c => (0 <=? c) && (c <=? 255)) s
  then Some (encodeGroups s)
  else None.

(** The inverse alphabet. *)
Definition b64value (c : Z) : option Z :=
  if (65 <=? c) && (c <=? 90) then Some (c - 65)
  else if (97 <=? c) && (c <=? 122) then Some (c - 71)
  else if (48 <=? c) && (c <=? 57) then Some (c + 4)
  else if c =? 43 then Some 62
  else if c =? 47 then Some 63
  else None.

(** The standard decoder (RFC 4648, section 4) for padded input: the
    reference against which the round trip is stated. *)
Fixpoint decode (s : jsstring) : option (list Z) :=
  match s with
  | [] => Some []
  | c0 :: c1 :: c2 :: c3 :: rest =>
      match b64value c0, b64value c1 with
      | Some v0, Some v1 =>
          if c3 =? 61 then
            match rest with
            | [] =>
                if c2 =? 61 then Some [v0 * 4 + v1 / 16]
                else
                  match b64value c2 with
                  | Some v2 => Some [v0 * 4 + v1 / 16; v1 mod 16 * 16 + v2 / 4]
                  | None => None
                  end
            | _ :: _ => None
            end
          else
            match b64value c2, b64value c3, decode rest with
            | Some v2, Some v3, Some tail =>
                Some (v0 * 4 + v1 / 16 :: v1 mod 16 * 16 + v2 / 4
                      :: v2 mod 4 * 64 + v3 :: tail)
            | _, _, _ => None
            end
      | _, _ => None
      end
  | _ => None
  end.

(** [`data:audio/wav;base64,${base64}`]. *)
Definition dataUriPrefix : jsstring := codeUnits "data:audio/wav;base64,".

Definition dataUri (base64 : jsstring) : jsstring := dataUriPrefix ++ base64.

(** What follows the prefix of a data URI, if the URI has that prefix. *)
Fixpoint stripPrefix (prefix s : jsstring) : option jsstring :=
  match prefix, s with
  | [], _ => Some s
  | p :: prefix', c :: s' => if p =? c then stripPrefix prefix' s' else None
  | _ :: _, [] => None
  end.

Definition decodeDataUri (uri : jsstring) : option (list Z) :=
  match stripPrefix dataUriPrefix uri with
  | Some payload => decode payload
  | None => None
  end.

End Base64.

(** ** The [VoiceInterface] component

    The component's [useState] cells and [useRef] cells are fields of one
    record.  A state setter changes its field at once; the effect that
    copies [isRecording] into [isRecordingRef] is a step of its own
    ([Effect]).  [startRecording] waits for the capture source before it
    sets the recording flag: the record button is an event that leaves the
    request pending, and the settling of a request is an event of its own,
    so that other handlers (a second press among them) can run in
    between; a press whose request settles at once is kept as one event.
    The other awaits ([decodeAudioData], [createAsync], the native branch
    of [stopRecording]) are modelled as finishing with no other handler in
    between, their outcome being a parameter of the event.

    Platform objects are modelled by what the handlers can observe of
    them: a socket by its [readyState] and the frames passed to [send]; the
    capture graph and the native stream by whether they still deliver
    buffers; the output device by the list of buffers it was told to start
    and the ones whose rendering has ended. *)

Module Voice.
Import JS DataView FrameCodec Pcm Base64.

Inductive Platform := Web | Native.

Inductive ReadyState := CONNECTING | OPEN | CLOSING | CLOSED.

(** An outbound message: what [send] was given. *)
Inductive Frame :=
| Binary (payload : buffer)
| Text (data : jsstring).

(** The four values [connectionStatus] takes. *)
Inductive Status :=
| StatusInitial        (* 'Disconnected', the initial value *)
| StatusConnected      (* green circle, 'Connected' *)
| StatusError          (* red circle, 'Error' *)
| StatusDisconnected.  (* red circle, 'Disconnected' *)

(** A decoded chunk of the playback queue: a [Float32Array]. *)
Definition chunk := list sample.

(** What the output device was asked to do, oldest first. *)
Inductive DeviceEvent :=
| Start (c : chunk)           (* [source.start(0)] of a queued chunk *)
| Ended (c : chunk)           (* that source finished rendering *)
| StartClip (wav : buffer)    (* a decoded container, played on its own *)
| LoadSound (uri : jsstring). (* [Audio.Sound.createAsync({ uri })] *)

(** What the native stream hands to its listener. *)
Inductive LiveData :=
| DataArrayBuffer (b : buffer)
| DataUint8Array (b : list Z)
| DataArray (xs : list Z)
| DataString (s : jsstring)
| DataOther (len : nat).

(** An entry of the message log: a note of the component (its text
    without the pictograph), or the text of a server message. *)
Inductive Msg :=
| Note (text : string)
| ServerText (data : jsstring).

(** The [useState] cells ([alerts] collects the calls of [Alert.alert]). *)
Record Ui := mkUi {
  isRecording : bool;
  isConnected : bool;
  messages : list Msg;
  connectionStatus : Status;
  isPlayingAudio : bool;
  dataSent : Z;
  chunksSent : Z;
  alerts : list string
}.

(** The socket behind [wsRef.current]: its state, and the value of
    [isRecording] in the render whose [connectWebSocket] installed the
    handlers (the [onclose] handler reads that binding). *)
Record Socket := mkSocket {
  readyState : ReadyState;
  closure_isRecording : bool
}.

(** The capture refs, then what the platform keeps alive behind them. *)
Record Capture := mkCapture {
  isRecordingRef : bool;
  audioChunkIntervalRef : bool;
  liveAudioStreamRef : bool;
  recordingRef : bool;
  streamRef : bool;
  audioContextRef : bool;
  scriptProcessorRef : bool;
  processorLive : bool;     (* the processor the refs hold is connected *)
  tracksLive : bool;        (* the microphone tracks are not stopped *)
  liveStreamRunning : bool  (* the native stream delivers data *)
}.

(** The playback refs, then the device: [pending] lists the queued sources
    that were started and have not ended, [device] is its history. *)
Record Playback := mkPlayback {
  soundRef : option jsstring;
  playbackAudioContextRef : bool;
  audioQueueRef : list chunk;
  isPlayingRef : bool;
  audioSourceRef : option chunk;
  pending : list chunk;
  device : list DeviceEvent
}.

(** What the engine and the platform hold outside the component's refs:
    the number of arguments the engine accepts in one call (a spread of
    more elements throws a [RangeError]); the calls of [startRecording]
    still waiting for the capture source; and the web capture graphs that
    are still connected although a later start has overwritten the refs
    that held them. *)
Record Host := mkHost {
  argumentLimit : Z;
  pendingStarts : nat;
  orphanedProcessors : nat
}.

(** [wire]: the frames given to [send] on the current socket, oldest
    first; a new socket starts with none. *)
Record State := mkState {
  platform : Platform;
  ui : Ui;
  wsRef : option Socket;
  wire : list Frame;
  capture : Capture;
  playback : Playback;
  host : Host
}.

(** The component as mounted, on an engine with the given argument limit.
    On the web the mount effect has logged one note; on the native
    platform it has asked for the microphone permission, taken here as
    granted (no alert). *)
Definition initial (p : Platform) (limit : Z) : State :=
  mkState p
    (mkUi false false
       match p with
       | Web =>
           [Note "Web platform detected. Mic permission will be requested on record."]
       | Native => []
       end
       StatusInitial false 0 0 [])
    None []
    (mkCapture false false false false false false false false false false)
    (mkPlayback None false [] false None [] [])
    (mkHost limit 0 0).

(** *** Field updates *)

Definition with_ui (f : Ui -> Ui) (st : State) : State :=
  mkState (platform st) (f (ui st)) (wsRef st) (wire st) (capture st)
          (playback st) (host st).

Definition with_capture (f : Capture -> Capture) (st : State) : State :=
  mkState (platform st) (ui st) (wsRef st) (wire st) (f (capture st))
          (playback st) (host st).

Definition with_playback (f : Playback -> Playback) (st : State) : State :=
  mkState (platform st) (ui st) (wsRef st) (wire st) (capture st)
          (f (playback st)) (host st).

Definition with_host (f : Host -> Host) (st : State) : State :=
  mkState (platform st) (ui st) (wsRef st) (wire st) (capture st)
          (playback st) (f (host st)).

Definition set_wsRef (w : option Socket) (st : State) : State :=
  mkState (platform st) (ui st) w (wire st) (capture st) (playback st)
          (host st).

Definition set_wire (fs : list Frame) (st : State) : State :=
  mkState (platform st) (ui st) (wsRef st) fs (capture st) (playback st)
          (host st).

Definition setIsRecording (b : bool) : State -> State :=
  with_ui (fun u => mkUi b (isConnected u) (messages u) (connectionStatus u)
                         (isPlayingAudio u) (dataSent u) (chunksSent u)
                         (alerts u)).

Definition setIsConnected (b : bool) : State -> State :=
  with_ui (fun u => mkUi (isRecording u) b (messages u) (connectionStatus u)
                         (isPlayingAudio u) (dataSent u) (chunksSent u)
                         (alerts u)).

(** [addMessage(m)]: the newest message first (the time prefix is left
    out). *)
Definition addMessage (m : Msg) : State -> State :=
  with_ui (fun u => mkUi (isRecording u) (isConnected u) (m :: messages u)
                         (connectionStatus u) (isPlayingAudio u) (dataSent u)
                         (chunksSent u) (alerts u)).

Definition setConnectionStatus (s : Status) : State -> State :=
  with_ui (fun u => mkUi (isRecording u) (isConnected u) (messages u) s
                         (isPlayingAudio u) (dataSent u) (chunksSent u)
                         (alerts u)).

Definition setIsPlayingAudio (b : bool) : State -> State :=
  with_ui (fun u => mkUi (isRecording u) (isConnected u) (messages u)
                         (connectionStatus u) b (dataSent u) (chunksSent u)
                         (alerts u)).

Definition setDataSent (f : Z -> Z) : State -> State :=
  with_ui (fun u => mkUi (isRecording u) (isConnected u) (messages u)
                         (connectionStatus u) (isPlayingAudio u)
                         (f (dataSent u)) (chunksSent u) (alerts u)).

Definition setChunksSent (f : Z -> Z) : State -> State :=
  with_ui (fun u => mkUi (isRecording u) (isConnected u) (messages u)
                         (connectionStatus u) (isPlayingAudio u) (dataSent u)
                         (f (chunksSent u)) (alerts u)).

Definition alert (m : string) : State -> State :=
  with_ui (fun u => mkUi (isRecording u) (isConnected u) (messages u)
                         (connectionStatus u) (isPlayingAudio u) (dataSent u)
                         (chunksSent u) (m :: alerts u)).

(** *** The socket *)

(** [wsRef.current?.readyState === WebSocket.OPEN]. *)
Definition socketOpen (st : State) : bool :=
  match wsRef st with
  | Some s => match readyState s with OPEN => true | _ => false end
  | None => false
  end.

(** [wsRef.current.send(f)] behind a successful [socketOpen] test. *)
Definition send (f : Frame) (st : State) : State :=
  set_wire (wire st ++ [f]) st.

Definition set_readyState (r : ReadyState) (st : State) : State :=
  match wsRef st with
  | Some s => set_wsRef (Some (mkSocket r (closure_isRecording s))) st
  | None => st
  end.

(** *** The engine *)

(** [f(...xs)] with [n] elements in [xs] throws a [RangeError] when [n]
    exceeds what the engine accepts as arguments of one call. *)
Definition spreadThrows (n : nat) (st : State) : bool :=
  argumentLimit (host st) <? Z.of_nat n.


(** *** Starting and stopping a recording turn *)

(** A handler that may throw: the state when it returned or threw. *)
Inductive outcome :=
| Returned (st : State)
| Threw (st : State).

(** [audioOptions]. *)
Definition sampleRate : Z := 16000.
Definition bitsPerSample : Z := 16.

(** [JSON.stringify({ event: 'stop' })], sixteen code units: an opening
    brace, the quoted word event, a colon, the quoted word stop, a closing
    brace. *)
Definition stopMessage : jsstring :=
  [123; 34; 101; 118; 101; 110; 116; 34; 58; 34; 115; 116; 111; 112; 34; 125].

(** [startWebRecording] up to its [await]. *)
Definition startWebRecording_begin (st : State) : State :=
  addMessage (Note "Starting web audio recording...") st.

(** [startWebRecording] once [getUserMedia] has settled; [granted] tells
    whether it resolved.  The three refs are overwritten: a processor they
    held that is still connected stays connected, with no ref left to
    reach it. *)
Definition startWebRecording_resume (granted : bool) (st : State) : outcome :=
  if granted then
    let st :=
      if processorLive (capture st) then
        with_host (fun h =>
          mkHost (argumentLimit h) (pendingStarts h)
                 (S (orphanedProcessors h))) st
      else st in
    let st :=
      with_capture (fun c =>
        mkCapture (isRecordingRef c) (audioChunkIntervalRef c)
                  (liveAudioStreamRef c) (recordingRef c)
                  true true true true true (liveStreamRunning c)) st in
    Returned (addMessage (Note "Web audio stream started successfully.") st)
  else Threw (addMessage (Note "Error getting user media") st).

Definition startWebRecording (granted : bool) (st : State) : outcome :=
  startWebRecording_resume granted (startWebRecording_begin st).

(** [startMobileRecording] up to its first [await]. *)
Definition startMobileRecording_begin (st : State) : State :=
  addMessage
    (Note "Starting mobile audio streaming with live audio stream...") st.

(** [startMobileRecording] once its awaits have settled; [granted] tells
    whether the audio mode and the native stream could be started.  The
    native stream is one object of the library, and its listener replaces
    the one of an earlier start. *)
Definition startMobileRecording_resume (granted : bool) (st : State)
  : outcome :=
  if granted then
    let st :=
      with_capture (fun c =>
        mkCapture (isRecordingRef c) (audioChunkIntervalRef c)
                  true (recordingRef c)
                  (streamRef c) (audioContextRef c) (scriptProcessorRef c)
                  (processorLive c) (tracksLive c) true) st in
    Returned
      (addMessage (Note "Mobile live audio streaming started successfully.") st)
  else Threw (addMessage (Note "Error starting mobile recording") st).

Definition startMobileRecording (granted : bool) (st : State) : outcome :=
  startMobileRecording_resume granted (startMobileRecording_begin st).

(** The [catch] of [startRecording]. *)
Definition startRecording_catch (st : State) : State :=
  alert "Error" (addMessage (Note "Error starting recording") st).

(** [startRecording] up to the [await] of the capture source; the flag
    tells whether the await was reached. *)
Definition startRecording_begin (st : State) : State * bool :=
  if negb (isConnected (ui st)) || negb (socketOpen st) then
    (alert "Not Connected" st, false)
  else
    let st := setChunksSent (fun _ => 0) (setDataSent (fun _ => 0) st) in
    match createWavHeader sampleRate bitsPerSample with
    | None => (startRecording_catch st, false)
    | Some header =>
        let st := send (Binary header) st in
        let st := addMessage (Note "WAV header sent (44 bytes)") st in
        (match platform st with
         | Web => startWebRecording_begin st
         | Native => startMobileRecording_begin st
         end, true)
    end.

(** [startRecording] from the [await] on. *)
Definition startRecording_resume (granted : bool) (st : State) : State :=
  match match platform st with
        | Web => startWebRecording_resume granted st
        | Native => startMobileRecording_resume granted st
        end
  with
  | Returned st => setIsRecording true st
  | Threw st => startRecording_catch st
  end.

(** [startRecording] when the capture source settles before any other
    event. *)
Definition startRecording (granted : bool) (st : State) : State :=
  match startRecording_begin st with
  | (st, true) => startRecording_resume granted st
  | (st, false) => st
  end.

(** The record button while not recording, the request left pending. *)
Definition requestRecording (st : State) : State :=
  match startRecording_begin st with
  | (st, true) =>
      with_host (fun h =>
        mkHost (argumentLimit h) (S (pendingStarts h))
               (orphanedProcessors h)) st
  | (st, false) => st
  end.

(** A pending request settles. *)
Definition settleRecording (granted : bool) (st : State) : State :=
  startRecording_resume granted
    (with_host (fun h =>
       mkHost (argumentLimit h) (Nat.pred (pendingStarts h))
              (orphanedProcessors h)) st).

(** [stopRecording] (the platform calls in it are taken to succeed). *)
Definition stopRecording (st : State) : State :=
  let st := addMessage (Note "Stopping recording...") st in
  let st := setIsRecording false st in
  let st :=
    if audioChunkIntervalRef (capture st) then
      with_capture (fun c =>
        mkCapture (isRecordingRef c) false (liveAudioStreamRef c)
                  (recordingRef c) (streamRef c) (audioContextRef c)
                  (scriptProcessorRef c) (processorLive c) (tracksLive c)
                  (liveStreamRunning c)) st
    else st in
  let st :=
    match platform st with
    | Web =>
        let st :=
          if scriptProcessorRef (capture st) then
            with_capture (fun c =>
              mkCapture (isRecordingRef c) (audioChunkIntervalRef c)
                        (liveAudioStreamRef c) (recordingRef c) (streamRef c)
                        (audioContextRef c) false false (tracksLive c)
                        (liveStreamRunning c)) st
          else st in
        let st :=
          if audioContextRef (capture st) then
            with_capture (fun c =>
              mkCapture (isRecordingRef c) (audioChunkIntervalRef c)
                        (liveAudioStreamRef c) (recordingRef c) (streamRef c)
                        false (scriptProcessorRef c) false (tracksLive c)
                        (liveStreamRunning c)) st
          else st in
        let st :=
          if streamRef (capture st) then
            with_capture (fun c =>
              mkCapture (isRecordingRef c) (audioChunkIntervalRef c)
                        (liveAudioStreamRef c) (recordingRef c) false
                        (audioContextRef c) (scriptProcessorRef c)
                        (processorLive c) false (liveStreamRunning c)) st
          else st in
        addMessage (Note "Web audio resources released.") st
    | Native =>
        let st :=
          if liveAudioStreamRef (capture st) then
            addMessage (Note "Mobile live audio stream stopped.")
              (with_capture (fun c =>
                 mkCapture (isRecordingRef c) (audioChunkIntervalRef c)
                           false (recordingRef c) (streamRef c)
                           (audioContextRef c) (scriptProcessorRef c)
                           (processorLive c) (tracksLive c) false) st)
          else st in
        if recordingRef (capture st) then
          addMessage (Note "Mobile recording stopped and unloaded.")
            (with_capture (fun c =>
               mkCapture (isRecordingRef c) (audioChunkIntervalRef c)
                         (liveAudioStreamRef c) false (streamRef c)
                         (audioContextRef c) (scriptProcessorRef c)
                         (processorLive c) (tracksLive c)
                         (liveStreamRunning c)) st)
        else st
    end in
  if socketOpen st then
    addMessage (Note "Sent end-of-stream message.") (send (Text stopMessage) st)
  else st.

(** *** The capture callbacks *)

(** An object reference converts to [true]: the guard of [onaudioprocess]
    negates the ref [isRecordingRef] itself, not [isRecordingRef.current]. *)
Definition truthyObject : bool := true.

(** [processor.onaudioprocess]. *)
Definition onaudioprocess (input : list sample) (st : State) : State :=
  if negb truthyObject || negb (socketOpen st) then st
  else
    let pcm16Data := pcm16Buffer input in
    let st := send (Binary pcm16Data) st in
    let st :=
      setDataSent (fun prev => prev + Z.of_nat (length pcm16Data)) st in
    setChunksSent (fun prev => prev + 1) st.

(** [convertAudioDataToBuffer]. *)
Definition convertAudioDataToBuffer (data : LiveData) : buffer :=
  match data with
  | DataArrayBuffer b => b
  | DataUint8Array b => b
  | DataArray xs => flat_map (fun x => int16Octets (ToInt16 (inject_Z x))) xs
  | DataString s =>
      match s with
      | [] => alloc 1024
      | _ :: _ => map (fun c => ToUint8 (inject_Z c)) s
      end
  | DataOther len =>
      alloc (match len with O => 1024 | S _ => len end)
  end.

(** The listener given to [LiveAudioStream.on('data', ...)]. *)
Definition onLiveData (data : LiveData) (st : State) : State :=
  if isRecordingRef (capture st) && socketOpen st then
    let audioBuffer := convertAudioDataToBuffer data in
    let st := send (Binary audioBuffer) st in
    let st :=
      setDataSent (fun prev => prev + Z.of_nat (length audioBuffer)) st in
    setChunksSent (fun prev => prev + 1) st
  else st.

(** The effect [isRecordingRef.current = isRecording]. *)
Definition syncRecordingRef (st : State) : State :=
  with_capture (fun c =>
    mkCapture (isRecording (ui st)) (audioChunkIntervalRef c)
              (liveAudioStreamRef c) (recordingRef c) (streamRef c)
              (audioContextRef c) (scriptProcessorRef c) (processorLive c)
              (tracksLive c) (liveStreamRunning c)) st.

(** *** The socket handlers *)

(** [connectWebSocket]: a new socket, whose handlers close over the
    current render's [isRecording]. *)
Definition connectWebSocket (st : State) : State :=
  set_wire [] (set_wsRef (Some (mkSocket CONNECTING (isRecording (ui st)))) st).

(** [disconnectWebSocket]: [close()] starts the closing handshake. *)
Definition disconnectWebSocket (st : State) : State :=
  match wsRef st with
  | Some s =>
      match readyState s with
      | CLOSED => st
      | _ => set_readyState CLOSING st
      end
  | None => st
  end.

Definition onopen (st : State) : State :=
  let st := setIsConnected true st in
  let st := setConnectionStatus StatusConnected st in
  addMessage (Note "Connected to voice server") st.

Definition onerror (st : State) : State :=
  let st := setConnectionStatus StatusError st in
  addMessage (Note "WebSocket connection error") st.

(** [onclose]: the test reads the [isRecording] the handler closed over. *)
Definition onclose (st : State) : State :=
  match wsRef st with
  | Some s =>
      let st := setIsConnected false st in
      let st := if closure_isRecording s then stopRecording st else st in
      let st := setConnectionStatus StatusDisconnected st in
      let st := addMessage (Note "Disconnected from voice server") st in
      set_wsRef None st
  | None => st
  end.

Definition handleTextResponse (data : jsstring) (st : State) : State :=
  addMessage (ServerText data) st.

(** *** Playback *)

Definition set_queue (q : list chunk) (playing : bool) : State -> State :=
  with_playback (fun p =>
    mkPlayback (soundRef p) (playbackAudioContextRef p) q playing
               (audioSourceRef p) (pending p) (device p)).

Definition deviceDo (e : DeviceEvent) : State -> State :=
  with_playback (fun p =>
    mkPlayback (soundRef p) (playbackAudioContextRef p) (audioQueueRef p)
               (isPlayingRef p) (audioSourceRef p) (pending p)
               (device p ++ [e])).

(** [playNextChunk].  [createBuffer(1, chunk.length, 16000)] throws a
    [NotSupportedError] when the length is zero (Web Audio API). *)
Definition playNextChunk (st : State) : outcome :=
  match audioQueueRef (playback st) with
  | [] =>
      let st := set_queue [] false st in
      let st := setIsPlayingAudio false st in
      Returned (addMessage (Note "Audio playback completed") st)
  | chunk :: rest =>
      let st := set_queue rest true st in
      match chunk with
      | [] => Threw st
      | _ :: _ =>
          let st :=
            with_playback (fun p =>
              mkPlayback (soundRef p) (playbackAudioContextRef p)
                         (audioQueueRef p) (isPlayingRef p) (Some chunk)
                         (pending p ++ [chunk]) (device p)) st in
          Returned (deviceDo (Start chunk) st)
      end
  end.

(** The [catch] of [playAudioOnWeb]. *)
Definition playAudioOnWeb_catch (st : State) : State :=
  setIsPlayingAudio false (addMessage (Note "Error processing audio") st).

(** [playAudioOnWeb]: [accepted] tells whether [decodeAudioData] resolved
    (it is consulted for a container only).  On the raw path the console
    output spreads the whole sample array into [Math.max] and [Math.min]
    (and again after the conversion, with as many elements): that throws
    when the samples outnumber the engine's argument limit, before the
    chunk is queued.  [playNextChunk] spreads the chunk once more; a chunk
    it takes from the queue has passed the spread here. *)
Definition playAudioOnWeb (audioData : buffer) (accepted : bool) (st : State)
  : State :=
  let st := setIsPlayingAudio true st in
  let st := addMessage (Note "Processing audio chunk...") st in
  let st :=
    with_playback (fun p =>
      mkPlayback (soundRef p) true (audioQueueRef p) (isPlayingRef p)
                 (audioSourceRef p) (pending p) (device p)) st in
  if isWavFile audioData then
    if accepted then deviceDo (StartClip audioData) st
    else playAudioOnWeb_catch st
  else
    match int16View audioData with
    | None => playAudioOnWeb_catch st
    | Some int16Array =>
        if spreadThrows (length int16Array) st then playAudioOnWeb_catch st
        else
        let float32Array := map int16ToFloat32 int16Array in
        let st :=
          set_queue (audioQueueRef (playback st) ++ [float32Array])
                    (isPlayingRef (playback st)) st in
        if negb (isPlayingRef (playback st)) then
          match playNextChunk st with
          | Returned st => st
          | Threw st => playAudioOnWeb_catch st
          end
        else st
    end.

(** [source.onended] of a queued chunk; a throw is not caught. *)
Definition onended (st : State) : State :=
  match playNextChunk st with
  | Returned st => st
  | Threw st => st
  end.

(** The completion callbacks of a one-shot clip and of a native sound. *)
Definition onPlaybackFinished (st : State) : State :=
  addMessage (Note "Audio playback completed") (setIsPlayingAudio false st).

(** [playAudioOnMobile]: [accepted] tells whether [createAsync] resolved.
    [String.fromCharCode(...uint8Array)] takes one argument per octet and
    throws when the payload is longer than the engine's argument limit. *)
Definition playAudioOnMobile (audioData : buffer) (accepted : bool)
  (st : State) : State :=
  let failed st :=
    setIsPlayingAudio false (addMessage (Note "Error playing audio") st) in
  let st := setIsPlayingAudio true st in
  let st := addMessage (Note "Playing audio response...") st in
  let uint8Array := audioData in
  if spreadThrows (length uint8Array) st then failed st
  else
  match btoa (fromCharCode uint8Array) with
  | None => failed st
  | Some base64 =>
      let audioUri := dataUri base64 in
      let st := deviceDo (LoadSound audioUri) st in
      if accepted then
        with_playback (fun p =>
          mkPlayback (Some audioUri) (playbackAudioContextRef p)
                     (audioQueueRef p) (isPlayingRef p) (audioSourceRef p)
                     (pending p) (device p)) st
      else failed st
  end.

(** [handleAudioResponse] ([isWavFile] is consulted for the console
    only). *)
Definition handleAudioResponse (audioData : buffer) (accepted : bool)
  (st : State) : State :=
  match platform st with
  | Web => playAudioOnWeb audioData accepted st
  | Native => playAudioOnMobile audioData accepted st
  end.

(** *** Events *)

Inductive Event :=
| PressConnect
| PressDisconnect
| PressRecord (granted : bool)   (* the request settles at once *)
| PressRecordAwait               (* the request stays pending *)
| CaptureSettled (granted : bool)
| WsOpen
| WsBinary (data : buffer) (accepted : bool)
| WsText (data : jsstring)
| WsError
| WsClose
| AudioProcess (input : list sample)
| LiveDataEvent (data : LiveData)
| Effect
| SourceEnded
| PlaybackFinished.

(** Whether the platform can deliver the event in this state. *)
Definition enabled (e : Event) (st : State) : bool :=
  match e with
  | PressConnect => negb (isConnected (ui st))
  | PressDisconnect => isConnected (ui st)
  | PressRecord _ | PressRecordAwait => isConnected (ui st)
  | CaptureSettled _ => (0 <? pendingStarts (host st))%nat
  | WsOpen =>
      match wsRef st with
      | Some s => match readyState s with CONNECTING => true | _ => false end
      | None => false
      end
  | WsBinary _ _ | WsText _ => socketOpen st
  | WsError | WsClose =>
      match wsRef st with Some _ => true | None => false end
  | AudioProcess _ =>
      match platform st with
      | Web =>
          processorLive (capture st)
          || (0 <? orphanedProcessors (host st))%nat
      | Native => false
      end
  | LiveDataEvent _ =>
      match platform st with
      | Web => false
      | Native => liveStreamRunning (capture st)
      end
  | Effect => true
  | SourceEnded =>
      match pending (playback st) with [] => false | _ :: _ => true end
  | PlaybackFinished => true
  end.

(** The oldest pending source finishes: the device records it and the
    platform calls its [onended]. *)
Definition sourceEnded (st : State) : State :=
  match pending (playback st) with
  | [] => st
  | c :: others =>
      let st :=
        with_playback (fun p =>
          mkPlayback (soundRef p) (playbackAudioContextRef p)
                     (audioQueueRef p) (isPlayingRef p) (audioSourceRef p)
                     others (device p)) st in
      onended (deviceDo (Ended c) st)
  end.

(** One event.  The record button calls [stopRecording] when [isRecording]
    is set and [startRecording] otherwise; every processor that is still
    connected runs the same [onaudioprocess].  A failed connection sets
    [readyState] to [CLOSED] before the error and close events are
    dispatched (WebSocket API). *)
Definition step (e : Event) (st : State) : State :=
  if negb (enabled e st) then st
  else
    match e with
    | PressConnect => connectWebSocket st
    | PressDisconnect => disconnectWebSocket st
    | PressRecord granted =>
        if isRecording (ui st) then stopRecording st
        else startRecording granted st
    | PressRecordAwait =>
        if isRecording (ui st) then stopRecording st
        else requestRecording st
    | CaptureSettled granted => settleRecording granted st
    | WsOpen => onopen (set_readyState OPEN st)
    | WsBinary data accepted => handleAudioResponse data accepted st
    | WsText data => handleTextResponse data st
    | WsError => onerror (set_readyState CLOSED st)
    | WsClose => onclose (set_readyState CLOSED st)
    | AudioProcess input => onaudioprocess input st
    | LiveDataEvent data => onLiveData data st
    | Effect => syncRecordingRef st
    | SourceEnded => sourceEnded st
    | PlaybackFinished => onPlaybackFinished st
    end.

Definition run (es : list Event) (st : State) : State :=
  fold_left (fun s e => step e s) es st.

(** *** Observations *)

Definition isStreamHeader (f : Frame) : bool :=
  match f, createWavHeader sampleRate bitsPerSample with
  | Binary b, Some h => str_eqb b h
  | _, _ => false
  end.

Definition isStopFrame (f : Frame) : bool :=
  match f with
  | Text t => str_eqb t stopMessage
  | Binary _ => false
  end.

Definition count (p : Frame -> bool) (fs : list Frame) : nat :=
  length (filter p fs).

(** The processor that the refs hold fires only while [scriptProcessorRef]
    holds it, and the native stream runs only while [liveAudioStreamRef]
    is set: true of every state the component reaches.  (A processor
    whose refs were overwritten is counted in [orphanedProcessors].) *)
Definition captureConsistent (st : State) : Prop :=
  (processorLive (capture st) = true ->
   scriptProcessorRef (capture st) = true) /\
  (liveStreamRunning (capture st) = true ->
   liveAudioStreamRef (capture st) = true).

(** Starts that do not overlap orphan nothing: at most one start waits
    for its capture source; while one waits the recording flag is clear;
    and while the flag is clear no processor is connected (none ever is
    on the native platform). *)
Definition startsInOrder (st : State) : Prop :=
  orphanedProcessors (host st) = 0%nat /\
  (pendingStarts (host st) <= 1)%nat /\
  (pendingStarts (host st) = 1%nat -> isRecording (ui st) = false) /\
  (isRecording (ui st) = false -> processorLive (capture st) = false) /\
  (platform st = Native -> processorLive (capture st) = false).

(** No capture ref holds anything: the component is not capturing. *)
Definition captureIdle (st : State) : Prop :=
  capture st =
  mkCapture (isRecordingRef (capture st)) false false false false false false
            false false false.

(** *** The playback scheduler, observed *)

(** The chunk a binary message carries on the raw path. *)
Definition chunkOf (e : Event) : option chunk :=
  match e with
  | WsBinary data _ => if isWavFile data then None else decodePcm data
  | _ => None
  end.

(** The events of a scheduler run on an engine with the given argument
    limit: a raw message carrying at least one sample and no more samples
    than the limit, or the completion of the source being rendered. *)
Definition schedulerEvent (limit : Z) (e : Event) : bool :=
  match e with
  | SourceEnded => true
  | WsBinary _ _ =>
      match chunkOf e with
      | Some (x :: c) => Z.of_nat (length (x :: c)) <=? limit
      | _ => false
      end
  | _ => false
  end.

(** The chunks pushed by a run, in push order. *)
Definition pushed (es : list Event) : list chunk :=
  flat_map (fun e => match chunkOf e with Some c => [c] | None => [] end) es.

(** What the device shows for chunks rendered to the end, one after the
    other: each started, then ended, the next started right after. *)
Definition renderedInOrder (cs : list chunk) : list DeviceEvent :=
  flat_map (fun c => [Start c; Ended c]) cs.

(** Nothing playing, nothing queued. *)
Definition idle (st : State) : Prop :=
  isPlayingRef (playback st) = false /\
  audioQueueRef (playback st) = [] /\
  pending (playback st) = [].

(** At most one queued source is being rendered, and the playing flag is
    set whenever one is. *)
Definition noOverlap (st : State) : Prop :=
  pending (playback st) = [] \/
  (isPlayingRef (playback st) = true /\
   exists c, pending (playback st) = [c]).

(** One raw message per payload (the flag is read for containers only). *)
Definition pushAll (datas : list buffer) : list Event :=
  map (fun d => WsBinary d false) datas.

(** The scheduler's invariant over a run that started with the device
    history [dev0] and has pushed [past]: the chunks pushed are those
    rendered to the end, then the one being rendered, then the queue; the
    device shows exactly that; at most one source is pending, and the
    playing flag says whether one is. *)
Definition schedulerInv (dev0 : list DeviceEvent) (past : list chunk)
  (st : State) : Prop :=
  platform st = Web /\ socketOpen st = true /\
  Forall (fun c : chunk => c <> []) (audioQueueRef (playback st)) /\
  (exists finished,
      past = finished ++ pending (playback st) ++ audioQueueRef (playback st)
      /\ device (playback st)
         = dev0 ++ renderedInOrder finished
                ++ map Start (pending (playback st))) /\
  ((isPlayingRef (playback st) = true /\
    exists c, pending (playback st) = [c]) \/ idle st).

(** The socket is closing, closed or gone: it will not open again. *)
Definition socketDown (st : State) : bool :=
  match wsRef st with
  | Some s =>
      match readyState s with
      | CLOSING | CLOSED => true
      | CONNECTING | OPEN => false
      end
  | None => true
  end.

Definition isPressConnect (e : Event) : bool :=
  match e with PressConnect => true | _ => false end.

(** No press of the record button falls into the wait of an earlier one
    for its capture source. *)
Fixpoint pressesOutsideAwait (es : list Event) (st : State) : bool :=
  match es with
  | [] => true
  | e :: rest =>
      match e with
      | PressRecord _ | PressRecordAwait =>
          (pendingStarts (host st) =? 0)%nat
      | _ => true
      end
      && pressesOutsideAwait rest (step e st)
  end.

(** Between recording turns of a session: connected, socket OPEN, not
    recording, nothing captured. *)
Definition readyForTurn (st : State) : Prop :=
  isConnected (ui st) = true /\ isRecording (ui st) = false /\
  socketOpen st = true /\ captureIdle st.

(** One recording turn: the record button, the effect, the buffers the
    capture source delivers, the record button again. *)
Definition webTurn (inputs : list (list sample)) : list Event :=
  PressRecord true :: Effect :: map AudioProcess inputs ++ [PressRecord true].

Definition nativeTurn (datas : list LiveData) : list Event :=
  PressRecord true :: Effect :: map LiveDataEvent datas ++ [PressRecord true].

(** A recording turn in full: the record button, the buffers delivered
    before the effect has copied the recording flag into its ref, the
    effect, the buffers delivered after it, the record button again. *)
Definition turn (early late : list Event) : list Event :=
  PressRecord true :: early ++ Effect :: late ++ [PressRecord true].

(** Sample states, on an engine that accepts 65536 arguments (the limit
    of JavaScriptCore): connected on either platform, and recording. *)
Definition sampleArgumentLimit : Z := 65536.

Definition connectedOn (p : Platform) : State :=
  run [PressConnect; WsOpen] (initial p sampleArgumentLimit).

Definition recordingOn (p : Platform) : State :=
  run [PressRecord true; Effect] (connectedOn p).

Definition recordingOnWeb : State := recordingOn Web.

(** A connected web client whose record button was pressed twice before
    [getUserMedia] answered the first press; both requests were then
    granted, and the effect has run. *)
Definition afterOverlappingStarts : State :=
  run [PressRecordAwait; PressRecordAwait; CaptureSettled true;
       CaptureSettled true; Effect] (connectedOn Web).

(** A connected web client that received an empty binary message and then
    two samples of raw PCM. *)
Definition afterEmptyMessage : State :=
  run [WsBinary [] false; WsBinary [1; 0; 2; 0] false] (connectedOn Web).

(** *** Unmounting *)

(** The value of [isRecording] in the first render, which is the one the
    mount effect (dependency list empty) and its cleanup close over. *)
Definition firstRender_isRecording : bool := false.

(** The cleanup returned by the mount effect.  It closes the socket, would
    call [stopRecording] if the [isRecording] it closed over were set,
    stops the native stream when [liveAudioStreamRef] is set, stops the
    current source and closes the playback context when there are any
    (neither ref is cleared), empties the queue and clears the playing
    flag. *)
Definition unmountCleanup (st : State) : State :=
  let st := disconnectWebSocket st in
  let st := if firstRender_isRecording then stopRecording st else st in
  let st :=
    if liveAudioStreamRef (capture st) then
      with_capture (fun c =>
        mkCapture (isRecordingRef c) (audioChunkIntervalRef c)
                  (liveAudioStreamRef c) (recordingRef c) (streamRef c)
                  (audioContextRef c) (scriptProcessorRef c)
                  (processorLive c) (tracksLive c) false) st
    else st in
  set_queue [] false st.

End Voice.

(** ** [hooks/useRecipes.ts]: the local list of recipes and the name given
    to a recipe parsed from a URL *)

Module Recipes.
Import JS.

(** A row of the recipes table, as far as the hook looks at it. *)
Record Recipe := mkRecipe {
  id : jsstring;
  name : jsstring;
  content : jsstring
}.

(** [setRecipes(prev => [data, ...prev])] of [addRecipe]. *)
Definition addLocal (data : Recipe) (prev : list Recipe) : list Recipe :=
  data :: prev.

(** [setRecipes(prev => prev.map(recipe => recipe.id === id ? data :
    recipe))] of [updateRecipe]. *)
Definition updateLocal (rid : jsstring) (data : Recipe) (prev : list Recipe)
  : list Recipe :=
  map (fun recipe => if str_eqb (id recipe) rid then data else recipe) prev.

(** [setRecipes(prev => prev.filter(recipe => recipe.id !== id))] of
    [deleteRecipe]. *)
Definition deleteLocal (rid : jsstring) (prev : list Recipe) : list Recipe :=
  filter (fun recipe => negb (str_eqb (id recipe) rid)) prev.

(** [s.split('/')]: the pieces between the separators, in order; [cur]
    collects the piece being read, last code unit first. *)
Fixpoint splitOn (sep : Z) (s cur : jsstring) : list jsstring :=
  match s with
  | [] => [rev cur]
  | c :: rest =>
      if c =? sep then rev cur :: splitOn sep rest []
      else splitOn sep rest (c :: cur)
  end.

Definition split (sep : Z) (s : jsstring) : list jsstring := splitOn sep s [].

(** [part.replace(/[-_]/g, ' ')]: hyphens (45) and underscores (95) become
    spaces (32). *)
Definition dashesToSpaces (s : jsstring) : jsstring :=
  map (fun c => if (c =? 45) || (c =? 95) then 32 else c) s.

(** The name [parseRecipeFromUrl] gives the recipe:
    [urlParts[urlParts.length - 1]?.replace(/[-_]/g, ' ')
     || 'Recipe from URL']. *)
Definition recipeNameFromUrl (url : jsstring) : jsstring :=
  let urlParts := split 47 url in
  match dashesToSpaces (last urlParts []) with
  | [] => codeUnits "Recipe from URL"
  | recipeName => recipeName
  end.

End Recipes.
(** * Lemmas and theorems *)

(** ** Number conversions, strings, little-endian fields *)

Section CodecFacts.
Import JS DataView FrameCodec.

Lemma str_eqb_eq a b : str_eqb a b = true <-> a = b.
Proof.
  revert b; induction a as [|x a IH]; intros [|y b]; simpl;
    try (split; [discriminate | congruence]); try tauto.
  rewrite andb_true_iff, Z.eqb_eq, IH. split.
  - intros [-> ->]; reflexivity.
  - intros E; injection E; auto.
Qed.

Lemma truncate_inject_Z n : truncate (inject_Z n) = n.
Proof. unfold truncate; simpl. apply Z.quot_1_r. Qed.

Lemma octets16 n :
  0 <= n < 2 ^ 16 -> octet 0 n + 2 ^ 8 * octet 1 n = n.
Proof.
  intros H. unfold octet.
  change (2 ^ (8 * Z.of_nat 0)) with 1.
  change (2 ^ (8 * Z.of_nat 1)) with 256.
  change (2 ^ 8) with 256. change (2 ^ 16) with 65536 in H.
  Z.to_euclidean_division_equations. lia.
Qed.

Lemma octets32 n :
  0 <= n < 2 ^ 32 ->
  octet 0 n + 2 ^ 8 * octet 1 n + 2 ^ 16 * octet 2 n + 2 ^ 24 * octet 3 n = n.
Proof.
  intros H. unfold octet.
  change (2 ^ (8 * Z.of_nat 0)) with 1.
  change (2 ^ (8 * Z.of_nat 1)) with 256.
  change (2 ^ (8 * Z.of_nat 2)) with 65536.
  change (2 ^ (8 * Z.of_nat 3)) with 16777216.
  change (2 ^ 8) with 256. change (2 ^ 16) with 65536.
  change (2 ^ 24) with 16777216.
  change (2 ^ 32) with 4294967296 in H.
  Z.to_euclidean_division_equations. lia.
Qed.

Lemma ToUint16_inject n : ToUint16 (inject_Z n) = n mod 2 ^ 16.
Proof. unfold ToUint16. now rewrite truncate_inject_Z. Qed.

Lemma ToUint32_inject n : ToUint32 (inject_Z n) = n mod 2 ^ 32.
Proof. unfold ToUint32. now rewrite truncate_inject_Z. Qed.

Lemma Qle_bool_true a b : Qle_bool a b = true <-> (a <= b)%Q.
Proof. apply Qle_bool_iff. Qed.

Lemma Qle_bool_false a b : Qle_bool a b = false <-> (b < a)%Q.
Proof.
  split; intros H.
  - apply Qnot_le_lt. intros Hle. apply Qle_bool_iff in Hle. congruence.
  - destruct (Qle_bool a b) eqn:E; [|reflexivity].
    apply Qle_bool_iff in E. exfalso. eapply Qlt_not_le; eauto.
Qed.

(** Truncation does not depend on the fraction chosen for a rational. *)
Lemma truncate_Qeq p q : (p == q)%Q -> truncate p = truncate q.
Proof.
  destruct p as [a b], q as [c d]. unfold Qeq, truncate. simpl. intros H.
  rewrite <- (Z.quot_mul_cancel_r a (Zpos b) (Zpos d)) by lia.
  rewrite H, (Z.mul_comm (Zpos b)).
  apply Z.quot_mul_cancel_r; lia.
Qed.

Lemma inject_Z_pos z : 0 < z -> (0 < inject_Z z)%Q.
Proof. intros H. change 0%Q with (inject_Z 0). now rewrite <- Zlt_Qlt. Qed.

Lemma inject_Z_nonzero z : 0 < z -> ~ (inject_Z z == 0)%Q.
Proof.
  intros H E. apply inject_Z_pos in H. rewrite E in H. discriminate H.
Qed.

(** Below [2^n] the binary exponent is below [n]. *)
Lemma ilog2_lt q n :
  0 < n -> (- inject_Z (2 ^ n) < q)%Q -> (q < inject_Z (2 ^ n))%Q ->
  ilog2 q < n.
Proof.
  intros Hn Hlo Hhi. unfold ilog2.
  set (a := if Qle_bool 0 q then q else (- q)%Q).
  assert (Ha : (a < inject_Z (2 ^ n))%Q).
  { subst a. destruct (Qle_bool 0 q); [exact Hhi|].
    apply Qopp_lt_compat in Hlo. rewrite Qopp_involutive in Hlo. exact Hlo. }
  destruct (Qle_bool 1 a) eqn:E1.
  - apply Qle_bool_iff in E1.
    assert (H1 : 1 <= Qfloor a).
    { change 1 with (Qfloor 1). apply Qfloor_resp_le. exact E1. }
    apply Z.log2_lt_pow2; [lia|].
    rewrite Zlt_Qlt. eapply Qle_lt_trans; [apply Qfloor_le | exact Ha].
  - pose proof (Z.log2_up_nonneg (Qceiling (/ a))). lia.
Qed.

(** A rational that is an integer rounds to that integer. *)
Lemma roundHalfEven_integer q n : (q == inject_Z n)%Q -> roundHalfEven q = n.
Proof.
  intros E. unfold roundHalfEven.
  assert (F : Qfloor q = n) by (rewrite E; apply Qfloor_Z).
  rewrite F.
  assert (L : (q - inject_Z n < 1 # 2)%Q).
  { rewrite E. setoid_replace (inject_Z n - inject_Z n)%Q with 0%Q by ring.
    reflexivity. }
  rewrite Qlt_alt in L. rewrite L. reflexivity.
Qed.

(** Numbers with fewer than 54 significant bits are doubles: rounding
    leaves [m / 2^k] as it is when [|m| < 2^53]. *)
Lemma roundToDouble_exact q m k :
  (q == inject_Z m / inject_Z (2 ^ k))%Q -> 0 <= k <= 52 ->
  - 2 ^ 53 < m < 2 ^ 53 ->
  exists r, roundToDouble q = Some r /\ (r == q)%Q.
Proof.
  intros Eq Hk Hm. unfold roundToDouble.
  destruct (Qeq_bool q 0) eqn:E0; [exists q; split; reflexivity|].
  assert (Hk0 : (0 < inject_Z (2 ^ k))%Q)
    by (apply inject_Z_pos, Z.pow_pos_nonneg; lia).
  assert (Hk1 : ~ (inject_Z (2 ^ k) == 0)%Q)
    by (apply inject_Z_nonzero, Z.pow_pos_nonneg; lia).
  assert (Hbound : (- inject_Z (2 ^ 53) < q)%Q /\ (q < inject_Z (2 ^ 53))%Q).
  { rewrite Eq. split.
    - apply Qlt_shift_div_l; [exact Hk0|].
      rewrite <- inject_Z_opp, <- inject_Z_mult, <- Zlt_Qlt.
      assert (0 < 2 ^ k) by (apply Z.pow_pos_nonneg; lia). nia.
    - apply Qlt_shift_div_r; [exact Hk0|].
      rewrite <- inject_Z_mult, <- Zlt_Qlt.
      assert (0 < 2 ^ k) by (apply Z.pow_pos_nonneg; lia). nia. }
  assert (HL : ilog2 q < 53 - k).
  { apply ilog2_lt; [lia| |].
    - rewrite Eq. apply Qlt_shift_div_l; [exact Hk0|].
      rewrite <- inject_Z_opp, <- inject_Z_mult, <- Zlt_Qlt.
      rewrite Z.mul_opp_l, <- Z.pow_add_r by lia.
      replace (53 - k + k) with 53 by lia. lia.
    - rewrite Eq. apply Qlt_shift_div_r; [exact Hk0|].
      rewrite <- inject_Z_mult, <- Zlt_Qlt.
      rewrite <- Z.pow_add_r by lia.
      replace (53 - k + k) with 53 by lia. lia. }
  set (e := Z.max (ilog2 q) (-1022) - 52).
  assert (He : e <= - k) by (subst e; lia).
  set (N := m * 2 ^ (- e - k)).
  assert (Hs : (scale2 q (- e) == inject_Z N)%Q).
  { unfold scale2. replace (0 <=? - e) with true by (symmetry; apply Z.leb_le; lia).
    rewrite Eq. subst N.
    replace (2 ^ (- e)) with (2 ^ k * 2 ^ (- e - k))
      by (rewrite <- Z.pow_add_r by lia; f_equal; lia).
    rewrite !inject_Z_mult. field. exact Hk1. }
  rewrite (roundHalfEven_integer _ _ Hs).
  assert (Hr : (scale2 (inject_Z N) e == q)%Q).
  { unfold scale2. rewrite Eq. subst N.
    assert (Hp : ~ (inject_Z (2 ^ (- e)) == 0)%Q)
      by (apply inject_Z_nonzero, Z.pow_pos_nonneg; lia).
    destruct (0 <=? e) eqn:Ee.
    - apply Z.leb_le in Ee. assert (e = 0) by lia. assert (k = 0) by lia.
      subst k. rewrite H. change (2 ^ (- 0 - 0)) with 1.
      change (2 ^ 0) with 1. rewrite Z.mul_1_r. field.
    - replace (2 ^ (- e)) with (2 ^ k * 2 ^ (- e - k))
        by (rewrite <- Z.pow_add_r by lia; f_equal; lia).
      assert (Hq : ~ (inject_Z (2 ^ (- e - k)) == 0)%Q)
        by (apply inject_Z_nonzero, Z.pow_pos_nonneg; lia).
      rewrite !inject_Z_mult. field. split; assumption. }
  exists (scale2 (inject_Z N) e). split; [|exact Hr].
  destruct Hbound as [Hlo Hhi].
  assert (B1 : Qle_bool (inject_Z (2 ^ 1024)) (scale2 (inject_Z N) e) = false).
  { apply Qle_bool_false. rewrite Hr. eapply Qlt_le_trans; [exact Hhi|].
    rewrite <- Zle_Qle. apply Z.pow_le_mono_r; lia. }
  assert (B2 : Qle_bool (scale2 (inject_Z N) e) (inject_Z (- 2 ^ 1024)) = false).
  { apply Qle_bool_false. rewrite Hr. eapply Qle_lt_trans; [|exact Hlo].
    rewrite <- inject_Z_opp, <- Zle_Qle.
    assert (2 ^ 53 <= 2 ^ 1024) by (apply Z.pow_le_mono_r; lia). lia. }
  rewrite B1, B2. reflexivity.
Qed.

(** An integer below [2^53] in magnitude is a Number as it stands. *)
Lemma ofZ_exact n :
  - 2 ^ 53 < n < 2 ^ 53 ->
  exists r, ofZ n = Some r /\ (r == inject_Z n)%Q.
Proof.
  intros H. apply (roundToDouble_exact (inject_Z n) n 0); [|lia|exact H].
  change (2 ^ 0) with 1. field.
Qed.

(** Products and quotients by [8] of such numbers are exact as long as
    the numerator stays below [2^53]. *)
Lemma div8_exact a x :
  (a == inject_Z x)%Q -> - 2 ^ 53 < x < 2 ^ 53 ->
  exists r, div (Some a) (inject_Z 8) = Some r /\
            (r == inject_Z x / inject_Z 8)%Q.
Proof.
  intros Ea Hx.
  destruct (roundToDouble_exact (a / inject_Z 8) x 3) as (r & E & H);
    [change (2 ^ 3) with 8; rewrite Ea; reflexivity | lia | exact Hx |].
  exists r. split; [exact E|]. rewrite H, Ea. reflexivity.
Qed.

Lemma mul_exact a b x y :
  (a == inject_Z x)%Q -> (b == inject_Z y / inject_Z 8)%Q ->
  - 2 ^ 53 < x * y < 2 ^ 53 ->
  exists r, mul (Some a) (Some b) = Some r /\
            (r == inject_Z (x * y) / inject_Z 8)%Q.
Proof.
  intros Ea Eb Hxy.
  assert (E8 : (a * b == inject_Z (x * y) / inject_Z 8)%Q)
    by (rewrite Ea, Eb, inject_Z_mult; field; discriminate).
  destruct (roundToDouble_exact (a * b) (x * y) 3) as (r & E & H);
    [exact E8 | lia | exact Hxy |].
  exists r. split; [exact E|]. rewrite H. exact E8.
Qed.

Lemma mul_one_exact a x :
  (a == inject_Z x)%Q -> - 2 ^ 53 < x < 2 ^ 53 ->
  exists r, mul (Some a) (ofZ 1) = Some r /\ (r == inject_Z x)%Q.
Proof.
  intros Ea Hx. destruct (ofZ_exact 1) as (one & E1 & H1); [lia|].
  rewrite E1. unfold mul.
  assert (E0 : (a * one == inject_Z x / inject_Z (2 ^ 0))%Q)
    by (change (2 ^ 0) with 1; rewrite Ea, H1; field).
  destruct (roundToDouble_exact (a * one) x 0) as (r & E & H);
    [exact E0 | lia | exact Hx |].
  exists r. split; [exact E|]. rewrite H, Ea, H1. ring.
Qed.

Lemma truncate_eighths q m :
  (q == inject_Z m / inject_Z 8)%Q -> 0 <= m -> truncate q = m / 8.
Proof.
  intros E Hm. rewrite (truncate_Qeq _ _ E). unfold truncate. cbn.
  rewrite Z.mul_1_r. apply Z.quot_div_nonneg; lia.
Qed.

(** The header, octet by octet: the fixed octets, and the four computed
    fields as the setters reduce them. *)
Lemma createWavHeader_octets sampleRate bitsPerSample :
  let sr := ToUint32 (finitePart (ofZ sampleRate)) in
  let br :=
    ToUint32
      (finitePart
         (mul (mul (ofZ sampleRate) (ofZ 1))
              (div (ofZ bitsPerSample) (inject_Z 8)))) in
  let ba :=
    ToUint16
      (finitePart (mul (ofZ 1) (div (ofZ bitsPerSample) (inject_Z 8)))) in
  let bps := ToUint16 (finitePart (ofZ bitsPerSample)) in
  createWavHeader sampleRate bitsPerSample =
  Some [82; 73; 70; 70; 0; 0; 0; 0; 87; 65; 86; 69; 102; 109; 116; 32;
        16; 0; 0; 0; 1; 0; 1; 0;
        octet 0 sr; octet 1 sr; octet 2 sr; octet 3 sr;
        octet 0 br; octet 1 br; octet 2 br; octet 3 br;
        octet 0 ba; octet 1 ba; octet 0 bps; octet 1 bps;
        100; 97; 116; 97; 0; 0; 0; 0].
Proof.
  intros sr br ba bps. subst sr br ba bps. unfold createWavHeader.
  change (ofZ numChannels) with (ofZ 1).
  generalize (finitePart
                (mul (mul (ofZ sampleRate) (ofZ 1))
                     (div (ofZ bitsPerSample) (inject_Z 8)))).
  generalize (finitePart
                (mul (ofZ 1) (div (ofZ bitsPerSample) (inject_Z 8)))).
  generalize (finitePart (ofZ sampleRate)).
  generalize (finitePart (ofZ bitsPerSample)).
  intros q1 q2 q3 q4.
  cbv -[octet ToUint32 ToUint16]. reflexivity.
Qed.

(** The four computed fields when the format fits them. *)
Lemma header_fields_in_range sampleRate bitsPerSample :
  0 <= sampleRate < 2 ^ 32 -> 0 <= bitsPerSample < 2 ^ 16 ->
  sampleRate * bitsPerSample / 8 < 2 ^ 32 ->
  ToUint32 (finitePart (ofZ sampleRate)) = sampleRate /\
  ToUint32
    (finitePart
       (mul (mul (ofZ sampleRate) (ofZ 1))
            (div (ofZ bitsPerSample) (inject_Z 8))))
  = sampleRate * bitsPerSample / 8 /\
  ToUint16 (finitePart (mul (ofZ 1) (div (ofZ bitsPerSample) (inject_Z 8))))
  = bitsPerSample / 8 /\
  ToUint16 (finitePart (ofZ bitsPerSample)) = bitsPerSample.
Proof.
  intros Hsr Hbps Hbr.
  change (2 ^ 32) with 4294967296 in *. change (2 ^ 16) with 65536 in *.
  assert (P53 : 2 ^ 53 = 9007199254740992) by reflexivity.
  destruct (ofZ_exact sampleRate) as (a & Ea & Ha); [lia|].
  destruct (ofZ_exact bitsPerSample) as (b & Eb & Hb); [lia|].
  destruct (ofZ_exact 1) as (one & E1 & H1); [lia|].
  destruct (mul_one_exact a sampleRate Ha) as (a1 & Ea1 & Ha1); [lia|].
  destruct (div8_exact b bitsPerSample Hb) as (b8 & Eb8 & Hb8); [lia|].
  destruct (mul_exact a1 b8 sampleRate bitsPerSample Ha1 Hb8)
    as (br & Ebr & Hbr'); [nia|].
  destruct (mul_exact one b8 1 bitsPerSample H1 Hb8) as (ba & Eba & Hba);
    [lia|].
  rewrite Z.mul_1_l in Hba.
  rewrite Ea, Eb, Ea1, Eb8, Ebr, E1, Eba.
  cbn [finitePart]. unfold ToUint32, ToUint16.
  rewrite (truncate_Qeq _ _ Ha), (truncate_Qeq _ _ Hb), !truncate_inject_Z.
  rewrite (truncate_eighths _ _ Hbr') by nia.
  rewrite (truncate_eighths _ _ Hba) by lia.
  change (2 ^ 32) with 4294967296. change (2 ^ 16) with 65536.
  repeat split; apply Z.mod_small; try lia.
  - split; [apply Z.div_pos; nia | lia].
  - Z.to_euclidean_division_equations. lia.
Qed.

Lemma isWavFile_true_iff data :
  octets data ->
  isWavFile data = true <->
  slice data 0 4 = codeUnits "RIFF" /\ slice data 8 4 = codeUnits "WAVE".
Proof.
  intros Hoct. unfold isWavFile, slice, getUint8.
  destruct data as [|r0 [|r1 [|r2 [|r3 [|x4 [|x5 [|x6 [|x7
                   [|w0 [|w1 [|w2 [|w3 rest]]]]]]]]]]]];
    try (cbn; split; [discriminate | intros [? ?]; discriminate]).
  assert (Hr : forall x, In x [r0; r1; r2; r3; w0; w1; w2; w3] ->
                         x mod 2 ^ 16 = x).
  { intros x Hx. apply Z.mod_small.
    unfold octets in Hoct. rewrite Forall_forall in Hoct.
    assert (0 <= x < 256) by (apply Hoct; cbn in Hx |- *; intuition).
    change (2 ^ 16) with 65536. lia. }
  cbn [length Nat.ltb Nat.leb nth_error skipn firstn fromCharCode map].
  rewrite !Hr by (cbn; intuition).
  rewrite andb_true_iff, !str_eqb_eq. reflexivity.
Qed.

Lemma octetsb_octets b : octetsb b = true -> octets b.
Proof.
  unfold octetsb, octets. rewrite forallb_forall, Forall_forall.
  intros H x Hx. specialize (H x Hx).
  apply andb_true_iff in H. destruct H as [H1 H2].
  apply Z.leb_le in H1. apply Z.ltb_lt in H2. lia.
Qed.

End CodecFacts.

(** ** Properties of the frame codec *)

(** C2 as stated fails: the fields are what the [DataView] setters
    store, not the numbers themselves.  A sample rate of [2^32] is stored
    as 0; with 12 bits per sample the block alignment [1 * 12 / 8], one
    and a half, is stored as 1 and the byte rate [16000 * 1.5] as 24000
    only because that product is whole; and with the sample rate
    [2^53 - 1] and 24 bits the product is rounded to a double before it is
    stored, so the low octet of the byte rate is 252 where the exact
    product [3 * (2^53 - 1)] would give 253. *)
Lemma createWavHeader_wraps_counterexample :
  (exists hdr,
      FrameCodec.createWavHeader (2 ^ 32) 16 = Some hdr /\
      DataView.getUint32 hdr 24 = Some 0 /\
      DataView.getUint32 hdr 28 = Some 0) /\
  (exists hdr,
      FrameCodec.createWavHeader 16000 12 = Some hdr /\
      DataView.getUint16 hdr 32 = Some 1 /\
      DataView.getUint16 hdr 34 = Some 12) /\
  (exists hdr,
      FrameCodec.createWavHeader 16000 65552 = Some hdr /\
      DataView.getUint16 hdr 34 = Some 16) /\
  (exists hdr,
      FrameCodec.createWavHeader (2 ^ 53 - 1) 24 = Some hdr /\
      DataView.getUint8 hdr 28 = Some 252 /\
      (3 * (2 ^ 53 - 1)) mod 256 = 253).
Proof.
  repeat split; eexists; repeat split; vm_compute; reflexivity.
Qed.

(** C2, amended.  For a sample rate in [0, 2^32), a number of bits per
    sample in [0, 2^16) and a byte rate below [2^32], the header encoder
    returns a buffer of exactly 44 octets: the tags RIFF, WAVE, "fmt " and
    data at offsets 0, 8, 12 and 36; zero little-endian length fields at
    offsets 4 and 40; the PCM tag 1 at offset 20; 1 channel at offset 22;
    the sample rate at offset 24; the byte rate
    [sampleRate * 1 * bitsPerSample / 8] at offset 28 and the block
    alignment [1 * bitsPerSample / 8] at offset 32, both rounded down to
    an integer (so exact when [bitsPerSample] is a multiple of 8); and
    [bitsPerSample] at offset 34. *)
Theorem createWavHeader_layout (sampleRate bitsPerSample : Z) :
  0 <= sampleRate < 2 ^ 32 -> 0 <= bitsPerSample < 2 ^ 16 ->
  sampleRate * bitsPerSample / 8 < 2 ^ 32 ->
  exists hdr,
    FrameCodec.createWavHeader sampleRate bitsPerSample = Some hdr /\
    length hdr = 44%nat /\
    FrameCodec.octets hdr /\
    DataView.slice hdr 0 4 = JS.codeUnits "RIFF" /\
    DataView.slice hdr 8 4 = JS.codeUnits "WAVE" /\
    DataView.slice hdr 12 4 = JS.codeUnits "fmt " /\
    DataView.slice hdr 36 4 = JS.codeUnits "data" /\
    DataView.getUint32 hdr 4 = Some 0 /\
    DataView.getUint32 hdr 40 = Some 0 /\
    DataView.getUint32 hdr 16 = Some 16 /\
    DataView.getUint16 hdr 20 = Some 1 /\
    DataView.getUint16 hdr 22 = Some 1 /\
    DataView.getUint32 hdr 24 = Some sampleRate /\
    DataView.getUint32 hdr 28 = Some (sampleRate * 1 * bitsPerSample / 8) /\
    DataView.getUint16 hdr 32 = Some (1 * bitsPerSample / 8) /\
    DataView.getUint16 hdr 34 = Some bitsPerSample /\
    (bitsPerSample mod 8 = 0 ->
     8 * (sampleRate * 1 * bitsPerSample / 8) = sampleRate * bitsPerSample /\
     8 * (1 * bitsPerSample / 8) = bitsPerSample).
Proof.
  intros Hsr Hbps Hbr.
  destruct (header_fields_in_range sampleRate bitsPerSample Hsr Hbps Hbr)
    as (F24 & F28 & F32 & F34).
  eexists. split; [apply createWavHeader_octets|]. cbv zeta.
  rewrite F24, F28, F32, F34. rewrite Z.mul_1_r, Z.mul_1_l.
  assert (Hoct : forall k v, 0 <= DataView.octet k v < 256)
    by (intros; unfold DataView.octet; apply Z.mod_pos_bound; lia).
  assert (R28 : 0 <= sampleRate * bitsPerSample / 8 < 2 ^ 32)
    by (split; [apply Z.div_pos; nia | exact Hbr]).
  assert (R32 : 0 <= bitsPerSample / 8 < 2 ^ 16).
  { change (2 ^ 16) with 65536 in *.
    Z.to_euclidean_division_equations. lia. }
  repeat split; try reflexivity.
  - unfold FrameCodec.octets. repeat constructor; try apply Hoct; lia.
  - unfold DataView.getUint32; cbn [nth_error Nat.add]. f_equal.
    apply octets32. exact Hsr.
  - unfold DataView.getUint32; cbn [nth_error Nat.add]. f_equal.
    apply octets32. exact R28.
  - unfold DataView.getUint16; cbn [nth_error Nat.add]. f_equal.
    apply octets16. exact R32.
  - unfold DataView.getUint16; cbn [nth_error Nat.add]. f_equal.
    apply octets16. exact Hbps.
  - Z.to_euclidean_division_equations. nia.
  - Z.to_euclidean_division_equations. lia.
Qed.

Lemma createWavHeader_layout_witness :
  exists hdr,
    FrameCodec.createWavHeader 16000 16 = Some hdr /\
    length hdr = 44%nat /\
    DataView.getUint16 hdr 22 = Some 1 /\
    DataView.getUint32 hdr 24 = Some 16000 /\
    DataView.getUint32 hdr 28 = Some 32000 /\
    DataView.getUint16 hdr 32 = Some 2 /\
    DataView.getUint16 hdr 34 = Some 16.
Proof.
  destruct (createWavHeader_layout 16000 16)
    as (hdr & E & L & _ & _ & _ & _ & _ & _ & _ & _ & _ & C & S & B & A & W
        & _); [lia | lia | reflexivity |].
  exists hdr. repeat split; assumption.
Defined.

Example createWavHeader_16000_16 :
  FrameCodec.createWavHeader 16000 16 =
  Some [82; 73; 70; 70; 0; 0; 0; 0; 87; 65; 86; 69; 102; 109; 116; 32;
        16; 0; 0; 0; 1; 0; 1; 0; 128; 62; 0; 0; 0; 125; 0; 0; 2; 0; 16; 0;
        100; 97; 116; 97; 0; 0; 0; 0].
Proof. reflexivity. Qed.

(** C3.  The container test answers [true] (container) for every buffer
    whose octets 0-3 spell RIFF and whose octets 8-11 spell WAVE, [false]
    (raw) for every buffer shorter than 12 octets, and [false] for every
    buffer in which the two groups do not both match. *)
Theorem isWavFile_classifies (data : DataView.buffer) :
  FrameCodec.octets data ->
  (DataView.slice data 0 4 = JS.codeUnits "RIFF" ->
   DataView.slice data 8 4 = JS.codeUnits "WAVE" ->
   FrameCodec.isWavFile data = true) /\
  ((length data < 12)%nat -> FrameCodec.isWavFile data = false) /\
  (~ (DataView.slice data 0 4 = JS.codeUnits "RIFF" /\
      DataView.slice data 8 4 = JS.codeUnits "WAVE") ->
   FrameCodec.isWavFile data = false).
Proof.
  intros Hoct. pose proof (isWavFile_true_iff data Hoct) as Hiff.
  repeat split.
  - intros H1 H2. apply Hiff. auto.
  - intros Hlen. unfold FrameCodec.isWavFile.
    apply Nat.ltb_lt in Hlen. now rewrite Hlen.
  - intros Hn. destruct (FrameCodec.isWavFile data); [|reflexivity].
    exfalso. apply Hn, Hiff. reflexivity.
Qed.

Lemma isWavFile_classifies_witness :
  FrameCodec.isWavFile [82; 73; 70; 70; 36; 0; 0; 0; 87; 65; 86; 69; 1; 2]
    = true /\
  FrameCodec.isWavFile [82; 73; 70; 70; 36; 0; 0; 0; 87; 65; 86] = false /\
  FrameCodec.isWavFile [1; 0; 255; 127; 0; 128; 3; 0; 87; 65; 86; 69; 9; 9]
    = false.
Proof.
  split; [|split].
  - refine (proj1 (isWavFile_classifies
              [82; 73; 70; 70; 36; 0; 0; 0; 87; 65; 86; 69; 1; 2] _) _ _).
    + apply octetsb_octets. reflexivity.
    + reflexivity.
    + reflexivity.
  - refine (proj1 (proj2 (isWavFile_classifies
              [82; 73; 70; 70; 36; 0; 0; 0; 87; 65; 86] _)) _).
    + apply octetsb_octets. reflexivity.
    + simpl. lia.
  - refine (proj2 (proj2 (isWavFile_classifies
              [1; 0; 255; 127; 0; 128; 3; 0; 87; 65; 86; 69; 9; 9] _)) _).
    + apply octetsb_octets. reflexivity.
    + intros [H _]. discriminate H.
Defined.

(** ** Sample conversions *)

Section PcmFacts.
Import JS Pcm.

(** The clamp returns its argument inside [-1, 1] and the nearer bound
    outside. *)
Lemma clampSample_high x : (1 <= x)%Q -> (clampSample x == 1)%Q.
Proof.
  intros H. unfold clampSample, Math_min, Math_max.
  destruct (Qle_bool (inject_Z 1) x) eqn:E1.
  - reflexivity.
  - apply Qle_bool_false in E1. exfalso. eapply Qlt_not_le; eauto.
Qed.

Lemma clampSample_low x : (x <= -1)%Q -> (clampSample x == -1)%Q.
Proof.
  intros H. unfold clampSample, Math_min, Math_max.
  assert (Hlt : (x < 1)%Q) by (eapply Qle_lt_trans; [exact H | reflexivity]).
  destruct (Qle_bool (inject_Z 1) x) eqn:E1.
  - apply Qle_bool_true in E1. exfalso. eapply Qlt_not_le; eauto.
  - destruct (Qle_bool (inject_Z (-1)) x) eqn:E2.
    + apply Qle_bool_true in E2. apply Qle_antisym; assumption.
    + reflexivity.
Qed.

Lemma clampSample_mid x : (-1 <= x)%Q -> (x <= 1)%Q -> (clampSample x == x)%Q.
Proof.
  intros Hlo Hhi. unfold clampSample, Math_min, Math_max.
  destruct (Qle_bool (inject_Z 1) x) eqn:E1.
  - apply Qle_bool_true in E1. simpl. apply Qle_antisym; assumption.
  - destruct (Qle_bool (inject_Z (-1)) x) eqn:E2; [reflexivity|].
    apply Qle_bool_false in E2. exfalso. eapply Qlt_not_le; eauto.
Qed.

Lemma clampSample_range x : (-1 <= clampSample x)%Q /\ (clampSample x <= 1)%Q.
Proof.
  destruct (Qlt_le_dec x (-1)) as [Hlo|Hlo].
  - rewrite (clampSample_low x) by (apply Qlt_le_weak; exact Hlo).
    split; [apply Qle_refl | discriminate].
  - destruct (Qlt_le_dec 1 x) as [Hhi|Hhi].
    + rewrite (clampSample_high x) by (apply Qlt_le_weak; exact Hhi).
      split; [discriminate | apply Qle_refl].
    + rewrite (clampSample_mid x) by assumption. split; assumption.
Qed.

(** Truncation stays between integer bounds that enclose zero. *)
Lemma truncate_bounds q lo hi :
  lo <= 0 <= hi -> (inject_Z lo <= q)%Q -> (q <= inject_Z hi)%Q ->
  lo <= truncate q <= hi.
Proof.
  destruct q as [a b]. unfold Qle, truncate. simpl. intros H0 Hlo Hhi.
  rewrite Z.mul_1_r in Hlo, Hhi.
  assert (Hb : 0 < Zpos b) by lia. revert Hlo Hhi Hb.
  generalize (Zpos b). intros d Hlo Hhi Hd.
  Z.to_euclidean_division_equations. nia.
Qed.

Lemma ToInt16_in_range q :
  - 2 ^ 15 <= truncate q < 2 ^ 15 -> ToInt16 q = truncate q.
Proof.
  unfold ToInt16. generalize (truncate q). intros t Ht.
  change (2 ^ 15) with 32768 in *. change (2 ^ 16) with 65536.
  cbv zeta. destruct (32768 <=? t mod 65536) eqn:E;
    [apply Z.leb_le in E | apply Z.leb_gt in E];
    Z.to_euclidean_division_equations; lia.
Qed.

Lemma Qltb_true a b : Qltb a b = true <-> (a < b)%Q.
Proof.
  unfold Qltb. rewrite negb_true_iff. apply Qle_bool_false.
Qed.

Lemma Qltb_false a b : Qltb a b = false <-> (b <= a)%Q.
Proof.
  unfold Qltb. rewrite negb_false_iff. apply Qle_bool_true.
Qed.

(** The capture conversion, by the sign of the clamped sample. *)
Lemma floatToPcm16_negative x :
  (clampSample x < 0)%Q ->
  floatToPcm16 x = truncate (clampSample x * inject_Z 32768)%Q /\
  - 32768 <= floatToPcm16 x <= 0.
Proof.
  intros Hneg. unfold floatToPcm16. cbv zeta.
  assert (E : Qltb (clampSample x) (inject_Z 0) = true)
    by (apply Qltb_true; exact Hneg).
  rewrite E. destruct (clampSample_range x) as [Hlo _].
  assert (B : -32768 <= truncate (clampSample x * inject_Z 32768)%Q <= 0).
  { apply truncate_bounds; [lia | |].
    - setoid_replace (inject_Z (-32768)) with ((-1) * inject_Z 32768)%Q
        by reflexivity.
      apply Qmult_le_compat_r; [exact Hlo | discriminate].
    - setoid_replace (inject_Z 0) with (0 * inject_Z 32768)%Q by reflexivity.
      apply Qmult_le_compat_r; [apply Qlt_le_weak; exact Hneg | discriminate]. }
  rewrite ToInt16_in_range by (change (2 ^ 15) with 32768; lia).
  split; [reflexivity | exact B].
Qed.

Lemma floatToPcm16_nonnegative x :
  (0 <= clampSample x)%Q ->
  floatToPcm16 x = truncate (clampSample x * inject_Z 32767)%Q /\
  0 <= floatToPcm16 x <= 32767.
Proof.
  intros Hpos. unfold floatToPcm16. cbv zeta.
  assert (E : Qltb (clampSample x) (inject_Z 0) = false)
    by (apply Qltb_false; exact Hpos).
  rewrite E. destruct (clampSample_range x) as [_ Hhi].
  assert (B : 0 <= truncate (clampSample x * inject_Z 32767)%Q <= 32767).
  { apply truncate_bounds; [lia | |].
    - setoid_replace (inject_Z 0) with (0 * inject_Z 32767)%Q by reflexivity.
      apply Qmult_le_compat_r; [exact Hpos | discriminate].
    - setoid_replace (inject_Z 32767) with (1 * inject_Z 32767)%Q
        by reflexivity.
      apply Qmult_le_compat_r; [exact Hhi | discriminate]. }
  rewrite ToInt16_in_range by (change (2 ^ 15) with 32768; lia).
  split; [reflexivity | exact B].
Qed.

Lemma floatToPcm16_saturates_high x : (1 <= x)%Q -> floatToPcm16 x = 32767.
Proof.
  intros H. pose proof (clampSample_high x H) as Hc.
  destruct (floatToPcm16_nonnegative x) as [E _].
  { rewrite Hc. discriminate. }
  rewrite E. rewrite (truncate_Qeq _ (inject_Z 32767)).
  - apply truncate_inject_Z.
  - rewrite Hc. reflexivity.
Qed.

Lemma floatToPcm16_saturates_low x : (x <= -1)%Q -> floatToPcm16 x = -32768.
Proof.
  intros H. pose proof (clampSample_low x H) as Hc.
  destruct (floatToPcm16_negative x) as [E _].
  { rewrite Hc. reflexivity. }
  rewrite E. rewrite (truncate_Qeq _ (inject_Z (-32768))).
  - apply truncate_inject_Z.
  - rewrite Hc. reflexivity.
Qed.

End PcmFacts.

(** C4.  The playback conversion divides each 16-bit sample by 32768, so
    32767 becomes 32767/32768 (0.99997 to five places), -32768 becomes -1
    and 0 becomes 0.  The capture conversion clamps its input to [-1, 1],
    scales a negative clamped sample by 32768 and a non-negative one by
    32767, and stores the integer part; so 1.5 becomes 32767 and -1.5
    becomes -32768. *)
Theorem sample_conversions :
  (forall x : Z, (Pcm.int16ToFloat32 x * inject_Z 32768 == inject_Z x)%Q) /\
  (Pcm.int16ToFloat32 32767 == 32767 # 32768)%Q /\
  (999965 # 1000000 < Pcm.int16ToFloat32 32767)%Q /\
  (Pcm.int16ToFloat32 32767 < 999975 # 1000000)%Q /\
  (Pcm.int16ToFloat32 (-32768) == -1)%Q /\
  (Pcm.int16ToFloat32 0 == 0)%Q /\
  (forall x : Pcm.sample,
      (-1 <= Pcm.clampSample x)%Q /\ (Pcm.clampSample x <= 1)%Q /\
      ((1 <= x)%Q -> (Pcm.clampSample x == 1)%Q) /\
      ((x <= -1)%Q -> (Pcm.clampSample x == -1)%Q) /\
      ((-1 <= x)%Q -> (x <= 1)%Q -> (Pcm.clampSample x == x)%Q)) /\
  (forall x : Pcm.sample,
      (Pcm.clampSample x < 0)%Q ->
      Pcm.floatToPcm16 x =
        JS.truncate (Pcm.clampSample x * inject_Z 32768)%Q) /\
  (forall x : Pcm.sample,
      (0 <= Pcm.clampSample x)%Q ->
      Pcm.floatToPcm16 x =
        JS.truncate (Pcm.clampSample x * inject_Z 32767)%Q) /\
  (forall x : Pcm.sample, - 32768 <= Pcm.floatToPcm16 x <= 32767) /\
  (forall x : Pcm.sample, (1 <= x)%Q -> Pcm.floatToPcm16 x = 32767) /\
  (forall x : Pcm.sample, (x <= -1)%Q -> Pcm.floatToPcm16 x = -32768) /\
  Pcm.floatToPcm16 (3 # 2) = 32767 /\
  Pcm.floatToPcm16 (- 3 # 2) = -32768.
Proof.
  repeat match goal with |- _ /\ _ => split end;
    try reflexivity.
  - intros x. unfold Pcm.int16ToFloat32. field.
  - intros x. destruct (clampSample_range x) as [Hlo Hhi].
    repeat split; try assumption.
    + apply clampSample_high.
    + apply clampSample_low.
    + apply clampSample_mid.
  - intros x H. apply floatToPcm16_negative; exact H.
  - intros x H. apply floatToPcm16_nonnegative; exact H.
  - intros x. destruct (Qlt_le_dec (Pcm.clampSample x) 0) as [H|H].
    + destruct (floatToPcm16_negative x H) as [_ B]. lia.
    + destruct (floatToPcm16_nonnegative x H) as [_ B]. lia.
  - apply floatToPcm16_saturates_high.
  - apply floatToPcm16_saturates_low.
Qed.

(** ** Frames of 16-bit samples *)

Section PcmFrames.
Import JS DataView FrameCodec Pcm.

(** Reading back what [Int16Array] stores: little-endian two's
    complement. *)
Lemma signed16_int16Octets x :
  - 2 ^ 15 <= x < 2 ^ 15 ->
  signed16 (octet 0 (x mod 2 ^ 16) + 2 ^ 8 * octet 1 (x mod 2 ^ 16)) = x.
Proof.
  intros H. rewrite octets16 by (apply Z.mod_pos_bound; lia).
  unfold signed16.
  change (2 ^ 15) with 32768 in *. change (2 ^ 16) with 65536.
  destruct (32768 <=? x mod 65536) eqn:E;
    [apply Z.leb_le in E | apply Z.leb_gt in E];
    Z.to_euclidean_division_equations; lia.
Qed.

Lemma int16View_int16Octets xs :
  Forall (fun x => - 2 ^ 15 <= x < 2 ^ 15) xs ->
  int16View (flat_map int16Octets xs) = Some xs.
Proof.
  induction 1 as [|x xs Hx _ IH]; [reflexivity|].
  cbn [flat_map int16Octets app int16View]. rewrite IH.
  rewrite signed16_int16Octets by exact Hx. reflexivity.
Qed.

Lemma ToInt16_range q : - 2 ^ 15 <= ToInt16 q < 2 ^ 15.
Proof.
  unfold ToInt16. cbv zeta.
  change (2 ^ 15) with 32768. change (2 ^ 16) with 65536.
  pose proof (Z.mod_pos_bound (truncate q) 65536 ltac:(lia)).
  destruct (32768 <=? truncate q mod 65536) eqn:E;
    [apply Z.leb_le in E | apply Z.leb_gt in E]; lia.
Qed.

Lemma floatToPcm16_range x : - 2 ^ 15 <= floatToPcm16 x < 2 ^ 15.
Proof. unfold floatToPcm16. apply ToInt16_range. Qed.

Lemma int16View_pcm16Buffer input :
  int16View (pcm16Buffer input) = Some (map floatToPcm16 input).
Proof.
  unfold pcm16Buffer.
  replace (flat_map (fun x => int16Octets (floatToPcm16 x)) input)
    with (flat_map int16Octets (map floatToPcm16 input))
    by (induction input as [|x l IH]; [reflexivity|];
        cbn [map flat_map]; now rewrite IH).
  apply int16View_int16Octets.
  apply Forall_forall. intros y Hy. apply in_map_iff in Hy.
  destruct Hy as (x & <- & _). apply floatToPcm16_range.
Qed.

Lemma length_pcm16Buffer input :
  length (pcm16Buffer input) = (2 * length input)%nat.
Proof.
  unfold pcm16Buffer. induction input as [|x l IH]; [reflexivity|].
  cbn [flat_map int16Octets app length]. rewrite IH. lia.
Qed.

End PcmFrames.

(** ** The identifier mapping *)

Section IdentFacts.
Import JS Ident.

Lemma isHex_cases c :
  isHex c = true ->
  In c [48; 49; 50; 51; 52; 53; 54; 55; 56; 57;
        65; 66; 67; 68; 69; 70; 97; 98; 99; 100; 101; 102].
Proof.
  unfold isHex, hexDigit. intros H.
  destruct ((48 <=? c) && (c <=? 57)) eqn:E1;
    [|destruct ((97 <=? c) && (c <=? 102)) eqn:E2;
      [|destruct ((65 <=? c) && (c <=? 70)) eqn:E3; [|discriminate]]];
    match goal with
    | E : _ && _ = true |- _ =>
        apply andb_true_iff in E; destruct E as [Ha Hb];
        apply Z.leb_le in Ha; apply Z.leb_le in Hb
    end;
    cbn [In]; lia.
Qed.

Lemma hexDigit_range c d : hexDigit c = Some d -> 0 <= d < 16.
Proof.
  unfold hexDigit.
  destruct ((48 <=? c) && (c <=? 57)) eqn:E1;
    [|destruct ((97 <=? c) && (c <=? 102)) eqn:E2;
      [|destruct ((65 <=? c) && (c <=? 70)) eqn:E3; [|discriminate]]];
    match goal with
    | E : _ && _ = true |- _ =>
        apply andb_true_iff in E; destruct E as [Ha Hb];
        apply Z.leb_le in Ha; apply Z.leb_le in Hb
    end;
    intros [= <-]; lia.
Qed.

Lemma isHex_not_hyphen c : isHex c = true -> (c =? 45) = false.
Proof.
  intros H. apply isHex_cases in H. cbn [In] in H.
  apply Z.eqb_neq. lia.
Qed.

(** On a run of hexadecimal digits the prefix reader reads all of it. *)
Lemma hexPrefix_all_hex s : forall acc seen,
  forallb isHex s = true ->
  hexPrefix s acc seen =
  if seen || negb (Nat.eqb (length s) 0) then Some (hexValue s acc) else None.
Proof.
  induction s as [|c s IH]; intros acc seen H.
  - cbn. destruct seen; reflexivity.
  - cbn [forallb] in H. apply andb_true_iff in H. destruct H as [Hc Hs].
    cbn [hexPrefix hexValue]. unfold isHex in Hc.
    destruct (hexDigit c) as [d|]; [|discriminate].
    rewrite (IH _ true Hs). cbn. rewrite orb_true_r. reflexivity.
Qed.

Lemma parseInt16_hex s :
  s <> [] -> forallb isHex s = true -> parseInt16 s = Some (hexValue s 0).
Proof.
  intros Hne H. destruct s as [|c s]; [congruence|].
  pose proof (hexPrefix_all_hex (c :: s) 0 false H) as HP.
  cbn [length Nat.eqb negb orb] in HP.
  cbn [forallb] in H. apply andb_true_iff in H. destruct H as [Hc Hs].
  assert (Hgen : parseInt16 (c :: s)
                 = option_map (Z.mul 1) (hexPrefix (c :: s) 0 false)).
  { apply isHex_cases in Hc. cbn [In] in Hc.
    destruct s as [|c' s'].
    - repeat (destruct Hc as [<- | Hc]; [reflexivity|]). contradiction.
    - cbn [forallb] in Hs. apply andb_true_iff in Hs. destruct Hs as [Hc' _].
      destruct Hc as [<- | Hc].
      + apply isHex_cases in Hc'. cbn [In] in Hc'.
        repeat (destruct Hc' as [<- | Hc']; [reflexivity|]). contradiction.
      + repeat (destruct Hc as [<- | Hc]; [reflexivity|]). contradiction. }
  rewrite Hgen, HP. cbn [option_map]. f_equal. lia.
Qed.

(** Reading digits most significant first: a later run of [n] digits
    shifts what was read before by [16 ^ n]. *)
Lemma hexValue_shift s : forall acc,
  forallb isHex s = true ->
  hexValue s acc = acc * 16 ^ Z.of_nat (length s) + hexValue s 0 /\
  0 <= hexValue s 0 < 16 ^ Z.of_nat (length s).
Proof.
  induction s as [|c s IH]; intros acc H.
  - cbn. lia.
  - cbn [forallb] in H. apply andb_true_iff in H. destruct H as [Hc Hs].
    cbn [hexValue]. unfold isHex in Hc.
    destruct (hexDigit c) as [d|] eqn:Ed; [|discriminate].
    apply hexDigit_range in Ed.
    destruct (IH (16 * acc + d) Hs) as [E1 _].
    destruct (IH (16 * 0 + d) Hs) as [E2 B].
    rewrite E1, E2.
    replace (Z.of_nat (length (c :: s))) with (Z.succ (Z.of_nat (length s)))
      by (cbn [length]; lia).
    rewrite Z.pow_succ_r by lia.
    set (p := 16 ^ Z.of_nat (length s)) in *.
    assert (0 < p) by (subst p; apply Z.pow_pos_nonneg; lia).
    split; nia.
Qed.

Lemma hexValue_app a b :
  forallb isHex a = true -> forallb isHex b = true ->
  hexValue (a ++ b) 0 = hexValue a 0 * 16 ^ Z.of_nat (length b) + hexValue b 0.
Proof.
  intros Ha Hb.
  assert (G : forall acc, hexValue (a ++ b) acc = hexValue b (hexValue a acc)).
  { clear Hb. induction a as [|c a IH]; intros acc; [reflexivity|].
    cbn [forallb] in Ha. apply andb_true_iff in Ha. destruct Ha as [Hc Ha].
    cbn [app hexValue]. unfold isHex in Hc.
    destruct (hexDigit c); [apply IH; exact Ha | discriminate]. }
  rewrite G. apply hexValue_shift. exact Hb.
Qed.

(** The digits of a canonical UUID. *)
Lemma isUuid_digits id :
  isUuid id = true ->
  exists hi lo,
    removeHyphens id = hi ++ lo /\
    length hi = 8%nat /\ length lo = 24%nat /\
    forallb isHex hi = true /\ forallb isHex lo = true.
Proof.
  intros H. unfold isUuid in H.
  do 36 (destruct id as [|? id]; [discriminate|]).
  destruct id; [|discriminate].
  apply andb_true_iff in H. destruct H as [Hh Hx].
  cbn [forallb] in Hh.
  repeat (apply andb_true_iff in Hh; let E := fresh "E" in
          destruct Hh as [E Hh]; apply Z.eqb_eq in E; subst).
  pose proof Hx as Hall. cbn [forallb] in Hx.
  repeat (apply andb_true_iff in Hx; let E := fresh "X" in
          destruct Hx as [E Hx]).
  assert (Rhex : forall c l, isHex c = true ->
                   removeHyphens (c :: l) = c :: removeHyphens l).
  { intros c l Hc. unfold removeHyphens. cbn [filter].
    now rewrite (isHex_not_hyphen c Hc). }
  assert (Rhyp : forall l, removeHyphens (45 :: l) = removeHyphens l)
    by reflexivity.
  assert (Rnil : removeHyphens [] = []) by reflexivity.
  repeat first [ rewrite Rhyp | rewrite Rhex by assumption ].
  rewrite Rnil.
  match goal with
  | |- exists hi lo, ?a0 :: ?a1 :: ?a2 :: ?a3 :: ?a4 :: ?a5 :: ?a6 :: ?a7
                       :: ?rest = _ /\ _ =>
      exists [a0; a1; a2; a3; a4; a5; a6; a7], rest
  end.
  split; [reflexivity|]. split; [reflexivity|]. split; [reflexivity|].
  cbn [forallb]. cbn [forallb] in Hall.
  repeat match goal with
         | X : isHex ?c = true |- context [isHex ?c] => rewrite X
         end.
  split; reflexivity.
Qed.

End IdentFacts.

(** C8 as stated fails: the digits taken are not low-order ones.  For the
    identifier below the code sends 1, the low-order 32 bits are 2, and no
    suffix of the digits parses to what the code sends. *)
Lemma uuidToInt_low_order_counterexample :
  Ident.isUuid (JS.codeUnits "00000001-0000-0000-0000-000000000002") = true /\
  Ident.uuidToInt (JS.codeUnits "00000001-0000-0000-0000-000000000002")
    = Some 1 /\
  Ident.uuidValue (JS.codeUnits "00000001-0000-0000-0000-000000000002")
    mod 2 ^ 32 = 2 /\
  (forall n : nat,
      Ident.spec_lowOrderId n
        (JS.codeUnits "00000001-0000-0000-0000-000000000002")
      <> Ident.uuidToInt
           (JS.codeUnits "00000001-0000-0000-0000-000000000002")).
Proof.
  split; [reflexivity|]. split; [reflexivity|]. split; [reflexivity|].
  intros n. do 33 (destruct n as [|n]; [vm_compute; discriminate|]).
  vm_compute. discriminate.
Qed.

(** C8, amended.  For canonical UUIDs the integer sent is the value of the
    first eight hexadecimal digits, that is the high-order 32 bits of the
    identifier; it lies in [0, 2^32); and the three request bodies carry
    the same mapping of the recipe and the user identifier. *)
Theorem uuidToInt_high_order (recipeId userId : JS.jsstring) :
  Ident.isUuid recipeId = true ->
  Ident.isUuid userId = true ->
  exists r u : Z,
    Ident.uuidToInt recipeId = Some r /\
    Ident.uuidToInt userId = Some u /\
    r = Ident.uuidValue recipeId / 2 ^ 96 /\
    u = Ident.uuidValue userId / 2 ^ 96 /\
    0 <= r < 2 ^ 32 /\ 0 <= u < 2 ^ 32 /\
    Ident.addRecipe_ids recipeId userId = (Some r, Some u) /\
    Ident.updateRecipe_ids recipeId userId = (Some r, Some u) /\
    Ident.deleteRecipe_ids recipeId userId = (Some r, Some u).
Proof.
  assert (K : forall id, Ident.isUuid id = true ->
              exists v, Ident.uuidToInt id = Some v /\
                        v = Ident.uuidValue id / 2 ^ 96 /\ 0 <= v < 2 ^ 32).
  { intros id H.
    destruct (isUuid_digits id H) as (hi & lo & E & Lhi & Llo & Hhi & Hlo).
    exists (Ident.hexValue hi 0).
    assert (Esub : Ident.substring 0 8 (Ident.removeHyphens id) = hi).
    { rewrite E. unfold Ident.substring.
      rewrite length_app, Lhi, Llo. cbn [Nat.min Nat.max Nat.add Nat.sub skipn].
      rewrite <- Lhi, firstn_app, Nat.sub_diag, firstn_all. cbn [firstn].
      apply app_nil_r. }
    destruct (hexValue_shift hi 0 Hhi) as [_ Bhi].
    destruct (hexValue_shift lo 0 Hlo) as [_ Blo].
    rewrite Lhi in Bhi. rewrite Llo in Blo.
    split; [|split].
    - unfold Ident.uuidToInt. rewrite Esub. apply parseInt16_hex; [|exact Hhi].
      intros ->. discriminate Lhi.
    - unfold Ident.uuidValue. rewrite E, hexValue_app, Llo by assumption.
      change (16 ^ Z.of_nat 24) with (2 ^ 96) in *.
      apply Z.div_unique with (r := Ident.hexValue lo 0); lia.
    - exact Bhi. }
  intros Hr Hu.
  destruct (K recipeId Hr) as (r & Er & Vr & Br).
  destruct (K userId Hu) as (u & Eu & Vu & Bu).
  exists r, u. unfold Ident.addRecipe_ids, Ident.updateRecipe_ids,
    Ident.deleteRecipe_ids. cbv zeta.
  unfold Ident.uuidToInt in Er, Eu |- *. rewrite Er, Eu.
  repeat split; try assumption; lia.
Qed.

Lemma uuidToInt_high_order_witness :
  exists r u : Z,
    Ident.uuidToInt (JS.codeUnits "3f2504e0-4f89-11d3-9a0c-0305e82c3301")
      = Some r /\
    Ident.uuidToInt (JS.codeUnits "00000001-0000-0000-0000-000000000002")
      = Some u /\
    r = Ident.uuidValue (JS.codeUnits "3f2504e0-4f89-11d3-9a0c-0305e82c3301")
        / 2 ^ 96 /\
    u = Ident.uuidValue (JS.codeUnits "00000001-0000-0000-0000-000000000002")
        / 2 ^ 96 /\
    0 <= r < 2 ^ 32 /\ 0 <= u < 2 ^ 32 /\
    Ident.addRecipe_ids
      (JS.codeUnits "3f2504e0-4f89-11d3-9a0c-0305e82c3301")
      (JS.codeUnits "00000001-0000-0000-0000-000000000002")
      = (Some r, Some u) /\
    Ident.updateRecipe_ids
      (JS.codeUnits "3f2504e0-4f89-11d3-9a0c-0305e82c3301")
      (JS.codeUnits "00000001-0000-0000-0000-000000000002")
      = (Some r, Some u) /\
    Ident.deleteRecipe_ids
      (JS.codeUnits "3f2504e0-4f89-11d3-9a0c-0305e82c3301")
      (JS.codeUnits "00000001-0000-0000-0000-000000000002")
      = (Some r, Some u).
Proof.
  apply (uuidToInt_high_order
           (JS.codeUnits "3f2504e0-4f89-11d3-9a0c-0305e82c3301")
           (JS.codeUnits "00000001-0000-0000-0000-000000000002"));
    reflexivity.
Defined.

Example uuidToInt_example :
  Ident.uuidToInt (JS.codeUnits "3f2504e0-4f89-11d3-9a0c-0305e82c3301")
  = Some 1059390688.
Proof. reflexivity. Qed.

(** ** Base64 round trip *)

Section Base64Facts.
Import JS Base64.

Lemma list_ind3 (A : Type) (P : list A -> Prop) :
  P [] -> (forall a, P [a]) -> (forall a b, P [a; b]) ->
  (forall a b c rest, P rest -> P (a :: b :: c :: rest)) ->
  forall l, P l.
Proof.
  intros H0 H1 H2 H3.
  assert (G : forall l, P l /\ (forall a, P (a :: l))
                        /\ (forall a b, P (a :: b :: l))).
  { induction l as [|x l (IH0 & IH1 & IH2)].
    - repeat split; auto.
    - repeat split; auto. }
  intros l. apply G.
Qed.

Lemma sextet_round_trip n :
  0 <= n < 64 ->
  b64value (b64char n) = Some n /\ (b64char n =? 61) = false.
Proof.
  intros H.
  assert (All : forallb (fun k =>
                  match b64value (b64char k) with
                  | Some m => (m =? k) && negb (b64char k =? 61)
                  | None => false
                  end) (map Z.of_nat (seq 0 64)) = true) by reflexivity.
  rewrite forallb_forall in All.
  assert (Hin : In n (map Z.of_nat (seq 0 64))).
  { apply in_map_iff. exists (Z.to_nat n). split; [lia|].
    apply in_seq. lia. }
  specialize (All n Hin).
  destruct (b64value (b64char n)) as [m|]; [|discriminate].
  apply andb_true_iff in All. destruct All as [E1 E2].
  apply Z.eqb_eq in E1. apply negb_true_iff in E2. subst. auto.
Qed.

Ltac sextet n :=
  let E := fresh "E" in let F := fresh "F" in
  destruct (sextet_round_trip n) as [E F];
  [Z.to_euclidean_division_equations; lia | rewrite ?E, ?F].

Lemma decode_encodeGroups s :
  Forall (fun x => 0 <= x < 256) s -> decode (encodeGroups s) = Some s.
Proof.
  induction s as [|a|a b|a b c rest IH] using list_ind3; intros H.
  - reflexivity.
  - inversion H as [|? ? Ha _]; subst.
    cbn [encodeGroups decode].
    sextet (a / 4). sextet (a mod 4 * 16).
    cbn. do 2 f_equal. Z.to_euclidean_division_equations. lia.
  - inversion H as [|? ? Ha H']; subst. inversion H' as [|? ? Hb _]; subst.
    cbn [encodeGroups decode].
    sextet (a / 4). sextet (a mod 4 * 16 + b / 16). sextet (b mod 16 * 4).
    cbn. f_equal. f_equal; [|f_equal];
      Z.to_euclidean_division_equations; lia.
  - inversion H as [|? ? Ha H']; subst. inversion H' as [|? ? Hb H'']; subst.
    inversion H'' as [|? ? Hc Hrest]; subst.
    cbn [encodeGroups decode].
    sextet (a / 4). sextet (a mod 4 * 16 + b / 16).
    sextet (b mod 16 * 4 + c / 64). sextet (c mod 64).
    rewrite (IH Hrest). f_equal. f_equal; [|f_equal; [|f_equal]];
      Z.to_euclidean_division_equations; lia.
Qed.

Lemma btoa_octets s :
  Forall (fun x => 0 <= x < 256) s -> btoa s = Some (encodeGroups s).
Proof.
  intros H. unfold btoa.
  replace (forallb (fun c => (0 <=? c) && (c <=? 255)) s) with true;
    [reflexivity|].
  symmetry. apply forallb_forall. intros x Hx.
  rewrite Forall_forall in H. specialize (H x Hx).
  apply andb_true_iff. split; apply Z.leb_le; lia.
Qed.

Lemma stripPrefix_app p s : stripPrefix p (p ++ s) = Some s.
Proof.
  induction p as [|c p IH]; [reflexivity|].
  cbn [app stripPrefix]. now rewrite Z.eqb_refl.
Qed.

Lemma decodeDataUri_round_trip s :
  Forall (fun x => 0 <= x < 256) s ->
  decodeDataUri (dataUri (encodeGroups s)) = Some s.
Proof.
  intros H. unfold decodeDataUri, dataUri.
  rewrite stripPrefix_app. apply decode_encodeGroups. exact H.
Qed.

End Base64Facts.

Example btoa_example :
  Base64.btoa (JS.codeUnits "RIFF") = Some (JS.codeUnits "UklGRg==").
Proof. reflexivity. Qed.

(** ** The capture callbacks and [stopRecording] *)

Section CaptureFacts.
Import Voice.

(** Setters of the interface state leave the socket alone. *)
Lemma socketOpen_with_ui f st : socketOpen (with_ui f st) = socketOpen st.
Proof. reflexivity. Qed.

Lemma socketOpen_with_capture f st :
  socketOpen (with_capture f st) = socketOpen st.
Proof. reflexivity. Qed.

Lemma socketOpen_with_playback f st :
  socketOpen (with_playback f st) = socketOpen st.
Proof. reflexivity. Qed.

Lemma socketOpen_send f st : socketOpen (send f st) = socketOpen st.
Proof. reflexivity. Qed.

(** [stopRecording] does not touch the socket, its frames apart. *)
Lemma stopRecording_wsRef st : wsRef (stopRecording st) = wsRef st.
Proof.
  destruct st as [p u w fs [r i l rr s a sp pl t lr] pb hst].
  destruct p, i, l, rr, s, a, sp, w as [[[] ?]|]; vm_compute; reflexivity.
Qed.

Lemma stopRecording_wire st :
  wire (stopRecording st) =
  if socketOpen st then wire st ++ [Text stopMessage] else wire st.
Proof.
  destruct st as [p u w fs [r i l rr s a sp pl t lr] pb hst].
  destruct p, i, l, rr, s, a, sp, w as [[[] ?]|]; vm_compute; reflexivity.
Qed.

Lemma stopRecording_flags st :
  isRecording (ui (stopRecording st)) = false /\
  isConnected (ui (stopRecording st)) = isConnected (ui st) /\
  connectionStatus (ui (stopRecording st)) = connectionStatus (ui st) /\
  platform (stopRecording st) = platform st /\
  playback (stopRecording st) = playback st.
Proof.
  destruct st as [p u w fs [r i l rr s a sp pl t lr] pb hst].
  destruct p, i, l, rr, s, a, sp, w as [[[] ?]|]; vm_compute; repeat split.
Qed.

(** After [stopRecording] no capture ref is set, and whatever was
    reachable through a ref has been shut down. *)
Lemma stopRecording_capture st :
  let c := capture (stopRecording st) in
  audioChunkIntervalRef c = false /\
  isRecordingRef c = isRecordingRef (capture st) /\
  match platform st with
  | Web =>
      scriptProcessorRef c = false /\ audioContextRef c = false /\
      streamRef c = false /\
      (scriptProcessorRef (capture st) = true -> processorLive c = false) /\
      (audioContextRef (capture st) = true -> processorLive c = false) /\
      (streamRef (capture st) = true -> tracksLive c = false)
  | Native =>
      liveAudioStreamRef c = false /\ recordingRef c = false /\
      (liveAudioStreamRef (capture st) = true -> liveStreamRunning c = false)
  end.
Proof.
  destruct st as [p u w fs [r i l rr s a sp pl t lr] pb hst].
  destruct p, i, l, rr, s, a, sp, w as [[[] ?]|]; vm_compute; repeat split;
    intros; congruence.
Qed.

(** The web callback: open socket, one frame; otherwise nothing. *)
Lemma onaudioprocess_open input st :
  socketOpen st = true ->
  onaudioprocess input st =
  setChunksSent (fun prev => prev + 1)
    (setDataSent (fun prev => prev + Z.of_nat (length (Pcm.pcm16Buffer input)))
       (send (Binary (Pcm.pcm16Buffer input)) st)).
Proof. intros H. unfold onaudioprocess. rewrite H. reflexivity. Qed.

Lemma onaudioprocess_not_open input st :
  socketOpen st = false -> onaudioprocess input st = st.
Proof. intros H. unfold onaudioprocess. rewrite H. reflexivity. Qed.

(** The native callback: both the flag and the socket are tested. *)
Lemma onLiveData_wire data st :
  wire (onLiveData data st) =
  if isRecordingRef (capture st) && socketOpen st
  then wire st ++ [Binary (convertAudioDataToBuffer data)]
  else wire st.
Proof.
  unfold onLiveData.
  destruct (isRecordingRef (capture st) && socketOpen st); reflexivity.
Qed.

End CaptureFacts.

Example pcm16Buffer_example :
  Pcm.pcm16Buffer [1 # 2; - 3 # 2] = [255; 63; 0; 128].
Proof. reflexivity. Qed.

(** ** [stopRecording] outside a recording turn *)

(** C7 as stated fails: with the socket OPEN, [stopRecording] called while
    connected and not recording sends the stop message (and logs). *)
Lemma stopRecording_idle_counterexample :
  Voice.isConnected (Voice.ui (Voice.connectedOn Voice.Web)) = true /\
  Voice.isRecording (Voice.ui (Voice.connectedOn Voice.Web)) = false /\
  Voice.wire (Voice.connectedOn Voice.Web) = [] /\
  Voice.wire (Voice.stopRecording (Voice.connectedOn Voice.Web))
    = [Voice.Text Voice.stopMessage] /\
  Voice.messages (Voice.ui (Voice.stopRecording (Voice.connectedOn Voice.Web)))
    = Voice.Note "Sent end-of-stream message."
      :: Voice.Note "Web audio resources released."
      :: Voice.Note "Stopping recording..."
      :: Voice.messages (Voice.ui (Voice.connectedOn Voice.Web)).
Proof. repeat split. Qed.

(** C7, amended.  Called while connected, not recording and with nothing
    captured, [stopRecording] leaves the connected flag, the recording
    flag, the socket and the capture and playback resources unchanged; it
    appends log messages (that it is stopping; on the web that the audio
    resources are released; with the socket OPEN that the end-of-stream
    message is sent) and it does send one stop message (the JSON text of
    an object whose one field, event, holds the word stop; given here by
    its code units) when the socket is OPEN (none otherwise).  The record button does not call it in that
    state: it calls [startRecording]. *)
Theorem stopRecording_when_idle (st : Voice.State) :
  Voice.isConnected (Voice.ui st) = true ->
  Voice.isRecording (Voice.ui st) = false ->
  Voice.captureIdle st ->
  Voice.isConnected (Voice.ui (Voice.stopRecording st)) = true /\
  Voice.isRecording (Voice.ui (Voice.stopRecording st)) = false /\
  Voice.wsRef (Voice.stopRecording st) = Voice.wsRef st /\
  Voice.capture (Voice.stopRecording st) = Voice.capture st /\
  Voice.playback (Voice.stopRecording st) = Voice.playback st /\
  Voice.wire (Voice.stopRecording st) =
    (if Voice.socketOpen st
     then Voice.wire st ++ [Voice.Text Voice.stopMessage]
     else Voice.wire st) /\
  Voice.messages (Voice.ui (Voice.stopRecording st)) =
    (if Voice.socketOpen st
     then [Voice.Note "Sent end-of-stream message."] else [])
    ++ match Voice.platform st with
       | Voice.Web => [Voice.Note "Web audio resources released."]
       | Voice.Native => []
       end
    ++ Voice.Note "Stopping recording..." :: Voice.messages (Voice.ui st) /\
  (forall granted,
      Voice.step (Voice.PressRecord granted) st
      = Voice.startRecording granted st) /\
  Voice.step Voice.PressRecordAwait st = Voice.requestRecording st /\
  Voice.stopMessage
  = [123; 34; 101; 118; 101; 110; 116; 34; 58; 34; 115; 116; 111; 112; 34;
     125].
Proof.
  intros Hc Hr Hidle.
  destruct (stopRecording_flags st) as (F1 & F2 & _ & _ & F5).
  repeat split; try assumption.
  - congruence.
  - apply stopRecording_wsRef.
  - unfold Voice.captureIdle in Hidle. unfold Voice.stopRecording.
    destruct st as [p u w fs c pb hst]. cbn in Hidle. rewrite Hidle.
    unfold Voice.socketOpen.
    destruct p, w as [[[] ?]|]; reflexivity.
  - apply stopRecording_wire.
  - unfold Voice.captureIdle in Hidle. unfold Voice.stopRecording.
    destruct st as [p u w fs c pb hst]. cbn in Hidle. rewrite Hidle.
    unfold Voice.socketOpen.
    destruct p, w as [[[] ?]|]; reflexivity.
  - intros granted. unfold Voice.step, Voice.enabled. rewrite Hc, Hr.
    reflexivity.
  - unfold Voice.step, Voice.enabled. rewrite Hc, Hr. reflexivity.
Qed.

Lemma stopRecording_when_idle_witness :
  Voice.isConnected
    (Voice.ui (Voice.stopRecording (Voice.connectedOn Voice.Native))) = true /\
  Voice.isRecording
    (Voice.ui (Voice.stopRecording (Voice.connectedOn Voice.Native))) = false /\
  Voice.wire (Voice.stopRecording (Voice.connectedOn Voice.Native))
    = [Voice.Text
         [123; 34; 101; 118; 101; 110; 116; 34; 58; 34; 115; 116; 111; 112;
          34; 125]] /\
  Voice.messages
    (Voice.ui (Voice.stopRecording (Voice.connectedOn Voice.Native)))
    = [Voice.Note "Sent end-of-stream message.";
       Voice.Note "Stopping recording...";
       Voice.Note "Connected to voice server"].
Proof.
  destruct (stopRecording_when_idle (Voice.connectedOn Voice.Native)
              eq_refl eq_refl eq_refl)
    as (H1 & H2 & _ & _ & _ & H6 & H7 & _).
  split; [exact H1|]. split; [exact H2|]. split; [exact H6|exact H7].
Defined.

(** ** Recording turns *)

Section TurnFacts.
Import Voice.

Lemma run_app es1 es2 st : run (es1 ++ es2) st = run es2 (run es1 st).
Proof. unfold run. apply fold_left_app. Qed.

Lemma run_cons e es st : run (e :: es) st = run es (step e st).
Proof. reflexivity. Qed.

Lemma streamHeader_length :
  exists header,
    FrameCodec.createWavHeader sampleRate bitsPerSample = Some header /\
    length header = 44%nat.
Proof. eexists. split; reflexivity. Qed.

(** While the web graph is live and the socket OPEN, every delivered
    buffer becomes one frame, and nothing else changes but the counters. *)
Lemma web_frames inputs : forall ms cs pa ds chs al cl fs r pb hst,
  exists ds' chs',
    run (map AudioProcess inputs)
      (mkState Web (mkUi true true ms cs pa ds chs al)
         (Some (mkSocket OPEN cl)) fs
         (mkCapture r false false false true true true true true false) pb
         hst)
    = mkState Web (mkUi true true ms cs pa ds' chs' al)
        (Some (mkSocket OPEN cl))
        (fs ++ map (fun i => Binary (Pcm.pcm16Buffer i)) inputs)
        (mkCapture r false false false true true true true true false) pb
        hst.
Proof.
  induction inputs as [|i inputs IH]; intros ms cs pa ds chs al cl fs r pb hst.
  - exists ds, chs. cbn. now rewrite app_nil_r.
  - cbn [map]. rewrite run_cons.
    destruct (IH ms cs pa
                (ds + Z.of_nat (length (Pcm.pcm16Buffer i))) (chs + 1) al cl
                (fs ++ [Binary (Pcm.pcm16Buffer i)]) r pb hst)
      as (ds' & chs' & E).
    exists ds', chs'. rewrite <- app_assoc in E. exact E.
Qed.

(** The native listener sends while the ref holds [true]. *)
Lemma native_frames datas : forall ms cs pa ds chs al cl fs pb hst,
  exists ds' chs',
    run (map LiveDataEvent datas)
      (mkState Native (mkUi true true ms cs pa ds chs al)
         (Some (mkSocket OPEN cl)) fs
         (mkCapture true false true false false false false false false true)
         pb hst)
    = mkState Native (mkUi true true ms cs pa ds' chs' al)
        (Some (mkSocket OPEN cl))
        (fs ++ map (fun d => Binary (convertAudioDataToBuffer d)) datas)
        (mkCapture true false true false false false false false false true)
        pb hst.
Proof.
  induction datas as [|d datas IH]; intros ms cs pa ds chs al cl fs pb hst.
  - exists ds, chs. cbn. now rewrite app_nil_r.
  - cbn [map]. rewrite run_cons.
    destruct (IH ms cs pa
                (ds + Z.of_nat (length (convertAudioDataToBuffer d)))
                (chs + 1) al cl
                (fs ++ [Binary (convertAudioDataToBuffer d)]) pb hst)
      as (ds' & chs' & E).
    exists ds', chs'. rewrite <- app_assoc in E. exact E.
Qed.

(** The native listener does nothing while the ref holds [false]. *)
Lemma native_frames_dropped datas : forall st,
  isRecordingRef (capture st) = false ->
  run (map LiveDataEvent datas) st = st.
Proof.
  induction datas as [|d datas IH]; intros st Hr; [reflexivity|].
  cbn [map]. rewrite run_cons.
  assert (E : step (LiveDataEvent d) st = st).
  { unfold step. destruct (negb (enabled (LiveDataEvent d) st));
      [reflexivity|]. unfold onLiveData. rewrite Hr. reflexivity. }
  rewrite E. apply IH. exact Hr.
Qed.

Lemma readyForTurn_shape st :
  readyForTurn st ->
  exists ms cs pa ds chs al cl r,
    st = mkState (platform st) (mkUi false true ms cs pa ds chs al)
           (Some (mkSocket OPEN cl)) (wire st)
           (mkCapture r false false false false false false false false false)
           (playback st) (host st).
Proof.
  intros (Hc & Hr & Ho & Hi).
  destruct st as [p [rec con ms cs pa ds chs al] w fs c pb hst].
  unfold socketOpen, captureIdle in *. cbn in *. subst.
  destruct w as [[[] cl]|]; try discriminate.
  rewrite Hi. exists ms, cs, pa, ds, chs, al, cl. eexists. reflexivity.
Qed.

(** [startRecording] from a ready state: the header goes out, the capture
    source is live, the recording flag is set; the ref still holds what
    it held. *)
Lemma press_record_web ms cs pa ds chs al cl fs r pb hst :
  exists header ms',
    FrameCodec.createWavHeader sampleRate bitsPerSample = Some header /\
    length header = 44%nat /\
    step (PressRecord true)
      (mkState Web (mkUi false true ms cs pa ds chs al)
         (Some (mkSocket OPEN cl)) fs
         (mkCapture r false false false false false false false false false)
         pb hst)
    = mkState Web (mkUi true true ms' cs pa 0 0 al)
        (Some (mkSocket OPEN cl)) (fs ++ [Binary header])
        (mkCapture r false false false true true true true true false) pb
        hst.
Proof. do 2 eexists. repeat split. Qed.

Lemma press_record_native ms cs pa ds chs al cl fs r pb hst :
  exists header ms',
    FrameCodec.createWavHeader sampleRate bitsPerSample = Some header /\
    length header = 44%nat /\
    step (PressRecord true)
      (mkState Native (mkUi false true ms cs pa ds chs al)
         (Some (mkSocket OPEN cl)) fs
         (mkCapture r false false false false false false false false false)
         pb hst)
    = mkState Native (mkUi true true ms' cs pa 0 0 al)
        (Some (mkSocket OPEN cl)) (fs ++ [Binary header])
        (mkCapture r false true false false false false false false true)
        pb hst.
Proof. do 2 eexists. repeat split. Qed.

(** The same with the effect right after. *)
Lemma start_turn_web ms cs pa ds chs al cl fs r pb hst :
  exists header ms',
    FrameCodec.createWavHeader sampleRate bitsPerSample = Some header /\
    length header = 44%nat /\
    run [PressRecord true; Effect]
      (mkState Web (mkUi false true ms cs pa ds chs al)
         (Some (mkSocket OPEN cl)) fs
         (mkCapture r false false false false false false false false false)
         pb hst)
    = mkState Web (mkUi true true ms' cs pa 0 0 al)
        (Some (mkSocket OPEN cl)) (fs ++ [Binary header])
        (mkCapture true false false false true true true true true false) pb
        hst.
Proof. do 2 eexists. repeat split. Qed.

Lemma start_turn_native ms cs pa ds chs al cl fs r pb hst :
  exists header ms',
    FrameCodec.createWavHeader sampleRate bitsPerSample = Some header /\
    length header = 44%nat /\
    run [PressRecord true; Effect]
      (mkState Native (mkUi false true ms cs pa ds chs al)
         (Some (mkSocket OPEN cl)) fs
         (mkCapture r false false false false false false false false false)
         pb hst)
    = mkState Native (mkUi true true ms' cs pa 0 0 al)
        (Some (mkSocket OPEN cl)) (fs ++ [Binary header])
        (mkCapture true false true false false false false false false true)
        pb hst.
Proof. do 2 eexists. repeat split. Qed.

Lemma press_record_stops granted st :
  isConnected (ui st) = true -> isRecording (ui st) = true ->
  step (PressRecord granted) st = stopRecording st.
Proof.
  intros Hc Hr. unfold step, enabled. rewrite Hc, Hr. reflexivity.
Qed.

Lemma socketOpen_stopRecording st :
  socketOpen (stopRecording st) = socketOpen st.
Proof. unfold socketOpen. now rewrite stopRecording_wsRef. Qed.

Lemma stopRecording_host st : host (stopRecording st) = host st.
Proof.
  destruct st as [p u w fs [r i l rr s a sp pl t lr] pb hst].
  destruct p, i, l, rr, s, a, sp, w as [[[] ?]|]; vm_compute; reflexivity.
Qed.

(** A press whose capture request settles before anything else happens
    is the press and the settling one after the other. *)
Lemma press_then_settle granted st :
  pendingStarts (host st) = 0%nat ->
  run [PressRecordAwait; CaptureSettled granted] st
  = step (PressRecord granted) st.
Proof.
  intros Hp. cbn [run fold_left]. unfold step at 2 3.
  cbn [enabled].
  destruct (isConnected (ui st)) eqn:Hc; cbn [negb].
  - destruct (isRecording (ui st)) eqn:Hr.
    + unfold step, enabled. rewrite stopRecording_host, Hp. reflexivity.
    + destruct st as [p [rec con ms cs pa ds chs al] w fs c pb [lim pend orph]].
      cbn in Hp, Hc, Hr. subst.
      destruct p, w as [[[] cl]|]; reflexivity.
  - unfold step, enabled. rewrite Hp. reflexivity.
Qed.

End TurnFacts.

(** C5 as stated fails: in one session with two recording turns the
    header is sent twice, the second time after audio and stop frames. *)
Lemma header_twice_counterexample :
  Voice.wire
    (Voice.run (Voice.webTurn [[1 # 2]] ++ Voice.webTurn [[- 3 # 2]])
       (Voice.connectedOn Voice.Web))
  = [Voice.Binary
       [82; 73; 70; 70; 0; 0; 0; 0; 87; 65; 86; 69; 102; 109; 116; 32;
        16; 0; 0; 0; 1; 0; 1; 0; 128; 62; 0; 0; 0; 125; 0; 0; 2; 0; 16; 0;
        100; 97; 116; 97; 0; 0; 0; 0];
     Voice.Binary [255; 63];
     Voice.Text Voice.stopMessage;
     Voice.Binary
       [82; 73; 70; 70; 0; 0; 0; 0; 87; 65; 86; 69; 102; 109; 116; 32;
        16; 0; 0; 0; 1; 0; 1; 0; 128; 62; 0; 0; 0; 125; 0; 0; 2; 0; 16; 0;
        100; 97; 116; 97; 0; 0; 0; 0];
     Voice.Binary [0; 128];
     Voice.Text Voice.stopMessage] /\
  Voice.count Voice.isStreamHeader
    (Voice.wire
       (Voice.run (Voice.webTurn [[1 # 2]] ++ Voice.webTurn [[- 3 # 2]])
          (Voice.connectedOn Voice.Web))) = 2%nat /\
  Voice.wsRef
    (Voice.run (Voice.webTurn [[1 # 2]] ++ Voice.webTurn [[- 3 # 2]])
       (Voice.connectedOn Voice.Web))
  = Voice.wsRef (Voice.connectedOn Voice.Web).
Proof. repeat split. Qed.

(** C5, amended.  Take a session between turns (connected, socket OPEN,
    not recording, no capture resource held) and one recording turn: the
    record button is pressed and the capture source granted; buffers are
    delivered; the effect copies the recording flag into its ref; further
    buffers are delivered; the record button is pressed again; nothing
    else happens in between (in particular no second press while the
    first waits for its capture source).  The turn sends the 44-byte
    header once, as its first frame; then, on the web, one frame per
    delivered buffer, before or after the effect; on the native platform
    one frame per buffer delivered after the effect, and for those
    delivered before it one frame each if the ref still held [true] and
    none if it held [false]; then exactly one stop message (given here
    by its code units), after the last audio frame.  The turn ends in a state from which the next turn
    starts.  The source the refs held no longer delivers; a web processor
    orphaned earlier by overlapping starts, if there is one, still
    does. *)
Theorem recording_turn_frames (st : Voice.State) :
  Voice.readyForTurn st ->
  exists header,
    FrameCodec.createWavHeader Voice.sampleRate Voice.bitsPerSample
      = Some header /\
    length header = 44%nat /\
    Voice.stopMessage
    = [123; 34; 101; 118; 101; 110; 116; 34; 58; 34; 115; 116; 111; 112; 34;
       125] /\
    (Voice.platform st = Voice.Web ->
     forall early late : list (list Pcm.sample),
       Voice.wire
         (Voice.run (Voice.turn (map Voice.AudioProcess early)
                                (map Voice.AudioProcess late)) st)
       = Voice.wire st
         ++ Voice.Binary header
            :: map (fun i => Voice.Binary (Pcm.pcm16Buffer i)) (early ++ late)
         ++ [Voice.Text Voice.stopMessage] /\
       Voice.readyForTurn
         (Voice.run (Voice.turn (map Voice.AudioProcess early)
                                (map Voice.AudioProcess late)) st) /\
       Voice.wsRef
         (Voice.run (Voice.turn (map Voice.AudioProcess early)
                                (map Voice.AudioProcess late)) st)
       = Voice.wsRef st /\
       Voice.host
         (Voice.run (Voice.turn (map Voice.AudioProcess early)
                                (map Voice.AudioProcess late)) st)
       = Voice.host st /\
       forall e,
         Voice.enabled (Voice.AudioProcess e)
           (Voice.run (Voice.turn (map Voice.AudioProcess early)
                                  (map Voice.AudioProcess late)) st)
         = (0 <? Voice.orphanedProcessors (Voice.host st))%nat) /\
    (Voice.platform st = Voice.Native ->
     forall early late : list Voice.LiveData,
       Voice.wire
         (Voice.run (Voice.turn (map Voice.LiveDataEvent early)
                                (map Voice.LiveDataEvent late)) st)
       = Voice.wire st
         ++ Voice.Binary header
            :: map (fun d => Voice.Binary (Voice.convertAudioDataToBuffer d))
                   ((if Voice.isRecordingRef (Voice.capture st)
                     then early else []) ++ late)
         ++ [Voice.Text Voice.stopMessage] /\
       Voice.readyForTurn
         (Voice.run (Voice.turn (map Voice.LiveDataEvent early)
                                (map Voice.LiveDataEvent late)) st) /\
       Voice.wsRef
         (Voice.run (Voice.turn (map Voice.LiveDataEvent early)
                                (map Voice.LiveDataEvent late)) st)
       = Voice.wsRef st /\
       Voice.host
         (Voice.run (Voice.turn (map Voice.LiveDataEvent early)
                                (map Voice.LiveDataEvent late)) st)
       = Voice.host st /\
       forall e,
         Voice.enabled (Voice.LiveDataEvent e)
           (Voice.run (Voice.turn (map Voice.LiveDataEvent early)
                                  (map Voice.LiveDataEvent late)) st)
         = false).
Proof.
  intros Hready.
  destruct (readyForTurn_shape st Hready)
    as (ms & cs & pa & ds & chs & al & cl & r & E).
  remember (Voice.wire st) as fs eqn:Efs.
  remember (Voice.playback st) as pb eqn:Epb.
  remember (Voice.host st) as hst eqn:Eh.
  remember (Voice.platform st) as p eqn:Ep.
  destruct (press_record_web ms cs pa ds chs al cl fs r pb hst)
    as (header & msw & Hh & Hlen & Ew).
  destruct (press_record_native ms cs pa ds chs al cl fs r pb hst)
    as (header' & msn & Hh' & _ & En).
  assert (header' = header) by congruence. subst header'.
  exists header. split; [exact Hh|]. split; [exact Hlen|].
  split; [reflexivity|].
  assert (Ews : Voice.wsRef st = Some (Voice.mkSocket Voice.OPEN cl))
    by (rewrite E; reflexivity).
  assert (Er : Voice.isRecordingRef (Voice.capture st) = r)
    by (rewrite E; reflexivity).
  split.
  - intros Hweb early late. subst p. rewrite Hweb in E. rewrite Ews.
    clear Er Ews Efs Epb Eh Hweb Hready En. subst st.
    unfold Voice.turn. rewrite run_cons, Ew. clear Ew.
    rewrite run_app.
    destruct (web_frames early msw cs pa 0 0 al cl
                (fs ++ [Voice.Binary header]) r pb hst)
      as (ds1 & chs1 & E1).
    rewrite E1. clear E1. rewrite run_cons.
    change (Voice.step Voice.Effect
              (Voice.mkState Voice.Web
                 (Voice.mkUi true true msw cs pa ds1 chs1 al)
                 (Some (Voice.mkSocket Voice.OPEN cl))
                 ((fs ++ [Voice.Binary header])
                  ++ map (fun i => Voice.Binary (Pcm.pcm16Buffer i)) early)
                 (Voice.mkCapture r false false false true true true true
                                  true false) pb hst))
      with (Voice.mkState Voice.Web
              (Voice.mkUi true true msw cs pa ds1 chs1 al)
              (Some (Voice.mkSocket Voice.OPEN cl))
              ((fs ++ [Voice.Binary header])
               ++ map (fun i => Voice.Binary (Pcm.pcm16Buffer i)) early)
              (Voice.mkCapture true false false false true true true true
                               true false) pb hst).
    rewrite run_app.
    destruct (web_frames late msw cs pa ds1 chs1 al cl
                ((fs ++ [Voice.Binary header])
                 ++ map (fun i => Voice.Binary (Pcm.pcm16Buffer i)) early)
                true pb hst)
      as (ds2 & chs2 & E2).
    rewrite E2. clear E2.
    cbn [Voice.run fold_left].
    rewrite press_record_stops by reflexivity.
    split; [|split; [|split; [|split]]].
    + rewrite stopRecording_wire. cbn [Voice.socketOpen Voice.wsRef
        Voice.readyState Voice.wire].
      rewrite map_app, <- !app_assoc. reflexivity.
    + unfold Voice.readyForTurn.
      match goal with
      | |- context [Voice.stopRecording ?s] =>
          destruct (stopRecording_flags s) as (F1 & F2 & _)
      end.
      split; [rewrite F2; reflexivity|]. split; [exact F1|].
      split; [rewrite socketOpen_stopRecording; reflexivity|].
      unfold Voice.captureIdle. vm_compute. reflexivity.
    + rewrite stopRecording_wsRef. reflexivity.
    + rewrite stopRecording_host. reflexivity.
    + intros e. unfold Voice.enabled.
      match goal with
      | |- context [Voice.stopRecording ?s] =>
          destruct (stopRecording_flags s) as (_ & _ & _ & F4 & _);
          rewrite F4, (stopRecording_host s)
      end.
      cbn [Voice.platform Voice.host].
      match goal with
      | |- (?b || _)%bool = _ => replace b with false by reflexivity
      end.
      reflexivity.
  - intros Hnat early late. subst p. rewrite Hnat in E. rewrite Ews, Er.
    clear Er Ews Efs Epb Eh Hnat Hready Ew. subst st.
    unfold Voice.turn. rewrite run_cons, En. clear En.
    rewrite run_app.
    assert (E1 :
      exists ds1 chs1,
        Voice.run (map Voice.LiveDataEvent early)
          (Voice.mkState Voice.Native
             (Voice.mkUi true true msn cs pa 0 0 al)
             (Some (Voice.mkSocket Voice.OPEN cl))
             (fs ++ [Voice.Binary header])
             (Voice.mkCapture r false true false false false false false
                              false true) pb hst)
        = Voice.mkState Voice.Native
            (Voice.mkUi true true msn cs pa ds1 chs1 al)
            (Some (Voice.mkSocket Voice.OPEN cl))
            ((fs ++ [Voice.Binary header])
             ++ map (fun d => Voice.Binary (Voice.convertAudioDataToBuffer d))
                    (if r then early else []))
            (Voice.mkCapture r false true false false false false false
                             false true) pb hst).
    { destruct r.
      - apply native_frames.
      - exists 0, 0. rewrite native_frames_dropped by reflexivity.
        cbn [map]. rewrite app_nil_r. reflexivity. }
    destruct E1 as (ds1 & chs1 & E1). rewrite E1. clear E1.
    rewrite run_cons.
    change (Voice.step Voice.Effect
              (Voice.mkState Voice.Native
                 (Voice.mkUi true true msn cs pa ds1 chs1 al)
                 (Some (Voice.mkSocket Voice.OPEN cl))
                 ((fs ++ [Voice.Binary header])
                  ++ map (fun d => Voice.Binary
                                     (Voice.convertAudioDataToBuffer d))
                         (if r then early else []))
                 (Voice.mkCapture r false true false false false false false
                                  false true) pb hst))
      with (Voice.mkState Voice.Native
              (Voice.mkUi true true msn cs pa ds1 chs1 al)
              (Some (Voice.mkSocket Voice.OPEN cl))
              ((fs ++ [Voice.Binary header])
               ++ map (fun d => Voice.Binary
                                  (Voice.convertAudioDataToBuffer d))
                      (if r then early else []))
              (Voice.mkCapture true false true false false false false false
                               false true) pb hst).
    rewrite run_app.
    destruct (native_frames late msn cs pa ds1 chs1 al cl
                ((fs ++ [Voice.Binary header])
                 ++ map (fun d => Voice.Binary
                                    (Voice.convertAudioDataToBuffer d))
                        (if r then early else []))
                pb hst)
      as (ds2 & chs2 & E2).
    rewrite E2. clear E2.
    cbn [Voice.run fold_left].
    rewrite press_record_stops by reflexivity.
    split; [|split; [|split; [|split]]].
    + rewrite stopRecording_wire. cbn [Voice.socketOpen Voice.wsRef
        Voice.readyState Voice.wire].
      rewrite map_app, <- !app_assoc. reflexivity.
    + unfold Voice.readyForTurn.
      match goal with
      | |- context [Voice.stopRecording ?s] =>
          destruct (stopRecording_flags s) as (F1 & F2 & _)
      end.
      split; [rewrite F2; reflexivity|]. split; [exact F1|].
      split; [rewrite socketOpen_stopRecording; reflexivity|].
      unfold Voice.captureIdle. vm_compute. reflexivity.
    + rewrite stopRecording_wsRef. reflexivity.
    + rewrite stopRecording_host. reflexivity.
    + intros e. vm_compute. reflexivity.
Qed.

Lemma recording_turn_frames_witness :
  exists header,
    FrameCodec.createWavHeader Voice.sampleRate Voice.bitsPerSample
      = Some header /\
    length header = 44%nat /\
    Voice.wire
      (Voice.run (Voice.turn (map Voice.AudioProcess [[1 # 2]])
                             (map Voice.AudioProcess [[- 3 # 2]]))
         (Voice.connectedOn Voice.Web))
    = [Voice.Binary header; Voice.Binary [255; 63]; Voice.Binary [0; 128];
       Voice.Text
         [123; 34; 101; 118; 101; 110; 116; 34; 58; 34; 115; 116; 111; 112;
          34; 125]] /\
    Voice.wire
      (Voice.run (Voice.turn (map Voice.LiveDataEvent [Voice.DataArray [7]])
                             (map Voice.LiveDataEvent
                                  [Voice.DataArray [1; -2]]))
         (Voice.connectedOn Voice.Native))
    = [Voice.Binary header; Voice.Binary [1; 0; 254; 255];
       Voice.Text Voice.stopMessage].
Proof.
  assert (Hw : Voice.readyForTurn (Voice.connectedOn Voice.Web))
    by (repeat split).
  assert (Hn : Voice.readyForTurn (Voice.connectedOn Voice.Native))
    by (repeat split).
  destruct (recording_turn_frames (Voice.connectedOn Voice.Web) Hw)
    as (h & H1 & H2 & _ & Hweb & _).
  destruct (recording_turn_frames (Voice.connectedOn Voice.Native) Hn)
    as (h' & H1' & _ & _ & _ & Hnat).
  assert (h' = h) by congruence. subst h'.
  exists h. split; [exact H1|]. split; [exact H2|]. split.
  - destruct (Hweb eq_refl [[1 # 2]] [[- 3 # 2]]) as (E & _). exact E.
  - destruct (Hnat eq_refl [Voice.DataArray [7]] [Voice.DataArray [1; -2]])
      as (E & _). exact E.
Defined.

(** ** Transport errors *)

Section TransportFacts.
Import Voice.

Lemma socketDown_not_open st : socketDown st = true -> socketOpen st = false.
Proof.
  unfold socketDown, socketOpen.
  destruct (wsRef st) as [[[] ?]|]; intros H; try reflexivity; discriminate H.
Qed.

Lemma startRecording_not_open granted st :
  socketOpen st = false ->
  startRecording granted st = alert "Not Connected" st.
Proof.
  intros H. unfold startRecording, startRecording_begin.
  rewrite H, orb_true_r. reflexivity.
Qed.

Lemma requestRecording_not_open st :
  socketOpen st = false -> requestRecording st = alert "Not Connected" st.
Proof.
  intros H. unfold requestRecording, startRecording_begin.
  rewrite H, orb_true_r. reflexivity.
Qed.

(** The settling of a capture request sends nothing. *)
Lemma settleRecording_socket granted st :
  wsRef (settleRecording granted st) = wsRef st /\
  wire (settleRecording granted st) = wire st.
Proof.
  destruct st as [p u w fs [r i l rr s a sp pl t lr] pb hst].
  destruct p, granted, pl; split; reflexivity.
Qed.

Lemma playNextChunk_socket st :
  match playNextChunk st with
  | Returned st' | Threw st' => wsRef st' = wsRef st /\ wire st' = wire st
  end.
Proof.
  unfold playNextChunk.
  destruct (audioQueueRef (playback st)) as [|[|x c] q]; cbn; auto.
Qed.

Lemma handleAudioResponse_socket data accepted st :
  wsRef (handleAudioResponse data accepted st) = wsRef st /\
  wire (handleAudioResponse data accepted st) = wire st.
Proof.
  unfold handleAudioResponse. destruct (platform st).
  - unfold playAudioOnWeb.
    destruct (FrameCodec.isWavFile data); [destruct accepted; cbn; auto|].
    destruct (Pcm.int16View data) as [xs|]; [|cbn; auto].
    destruct (spreadThrows (length xs) _); [cbn; auto|].
    match goal with
    | |- context [if ?b then _ else _] => destruct b
    end; [|cbn; auto].
    match goal with
    | |- context [playNextChunk ?s] =>
        pose proof (playNextChunk_socket s) as H;
        destruct (playNextChunk s)
    end; destruct H as [H1 H2]; cbn in *; auto.
  - unfold playAudioOnMobile.
    destruct (spreadThrows (length data) _); [cbn; auto|].
    destruct (Base64.btoa (JS.fromCharCode data)); [|cbn; auto].
    destruct accepted; cbn; auto.
Qed.

Lemma sourceEnded_socket st :
  wsRef (sourceEnded st) = wsRef st /\ wire (sourceEnded st) = wire st.
Proof.
  unfold sourceEnded. destruct (pending (playback st)) as [|c others]; auto.
  unfold onended.
  match goal with
  | |- context [playNextChunk ?s] =>
      pose proof (playNextChunk_socket s) as H; destruct (playNextChunk s)
  end; destruct H as [H1 H2]; cbn in *; auto.
Qed.

(** Once the socket is down, no event other than a new connect request
    sends a frame or brings the socket back. *)
Lemma step_socketDown e st :
  isPressConnect e = false -> socketDown st = true ->
  socketDown (step e st) = true /\ wire (step e st) = wire st.
Proof.
  intros He Hd. pose proof (socketDown_not_open st Hd) as Hno.
  unfold step. destruct (enabled e st) eqn:En; cbn [negb]; [|auto].
  destruct e; try discriminate He.
  - (* PressDisconnect *)
    unfold disconnectWebSocket, set_readyState, socketDown in *.
    destruct (wsRef st) as [[[] ?]|] eqn:W; cbn; rewrite ?W; cbn; auto;
      discriminate.
  - (* PressRecord *)
    destruct (isRecording (ui st)).
    + unfold socketDown. rewrite stopRecording_wsRef, stopRecording_wire, Hno.
      auto.
    + rewrite startRecording_not_open by exact Hno. auto.
  - (* PressRecordAwait *)
    destruct (isRecording (ui st)).
    + unfold socketDown. rewrite stopRecording_wsRef, stopRecording_wire, Hno.
      auto.
    + rewrite requestRecording_not_open by exact Hno. auto.
  - (* CaptureSettled *)
    unfold socketDown. destruct (settleRecording_socket granted st) as [-> ->].
    auto.
  - (* WsOpen *)
    unfold enabled, socketDown in *.
    destruct (wsRef st) as [[[] ?]|]; discriminate.
  - (* WsBinary *) cbn in En. congruence.
  - (* WsText *) cbn in En. congruence.
  - (* WsError *)
    unfold onerror, set_readyState, socketDown.
    destruct (wsRef st) as [[? ?]|] eqn:W; cbn; auto.
  - (* WsClose *)
    unfold onclose, set_readyState.
    destruct (wsRef st) as [[rs cl]|] eqn:W;
      [|unfold enabled in En; rewrite W in En; discriminate En].
    cbn [wsRef set_wsRef setIsConnected with_ui].
    destruct cl.
    + split; [reflexivity|].
      cbn [wire set_wsRef addMessage setConnectionStatus with_ui
           closure_isRecording].
      rewrite stopRecording_wire. reflexivity.
    + split; reflexivity.
  - (* AudioProcess *)
    rewrite onaudioprocess_not_open by exact Hno. auto.
  - (* LiveDataEvent *)
    unfold onLiveData. rewrite Hno, andb_false_r. auto.
  - (* Effect *) auto.
  - (* SourceEnded *)
    unfold socketDown. destruct (sourceEnded_socket st) as [-> ->]. auto.
  - (* PlaybackFinished *) auto.
Qed.

Lemma run_socketDown es : forall st,
  existsb isPressConnect es = false -> socketDown st = true ->
  socketDown (run es st) = true /\ wire (run es st) = wire st.
Proof.
  induction es as [|e es IH]; intros st Hes Hd; [auto|].
  cbn [existsb] in Hes. apply orb_false_iff in Hes. destruct Hes as [He Hes].
  rewrite run_cons.
  destruct (step_socketDown e st He Hd) as [Hd' Hw'].
  destruct (IH (step e st) Hes Hd') as [Hd'' Hw''].
  split; [exact Hd''|congruence].
Qed.

Lemma onclose_flags st s :
  wsRef st = Some s ->
  isConnected (ui (onclose st)) = false /\
  connectionStatus (ui (onclose st)) = StatusDisconnected /\
  wsRef (onclose st) = None.
Proof.
  intros W. unfold onclose. rewrite W.
  destruct (closure_isRecording s).
  - cbn [ui set_wsRef addMessage setConnectionStatus with_ui isConnected
         connectionStatus wsRef].
    destruct (stopRecording_flags (setIsConnected false st)) as (_ & F & _).
    rewrite F. repeat split.
  - repeat split.
Qed.

End TransportFacts.

(** C6.  The code does not stop the recording when the transport fails.
    Take a session that is recording, on a socket whose handlers were
    installed in a render that was not recording (as they are when the
    user connects and then records).  The error handler sets the status
    to Error and leaves the session connected; the close event that comes
    with the error makes it Disconnected and drops the socket; and no
    frame is sent once the error is observed, whatever follows short of a
    new connect request.  But [onclose] tests the [isRecording] it closed
    over, which is [false]: [stopRecording] is not called, the recording
    flag stays set, no capture resource is released, and the capture
    source keeps delivering buffers. *)
Theorem transport_error_leaves_recording
  (st : Voice.State) (s : Voice.Socket) :
  Voice.wsRef st = Some s ->
  Voice.closure_isRecording s = false ->
  Voice.isRecording (Voice.ui st) = true ->
  Voice.connectionStatus (Voice.ui (Voice.step Voice.WsError st))
    = Voice.StatusError /\
  Voice.isConnected (Voice.ui (Voice.step Voice.WsError st))
    = Voice.isConnected (Voice.ui st) /\
  (forall es : list Voice.Event,
      existsb Voice.isPressConnect es = false ->
      Voice.wire (Voice.run es (Voice.step Voice.WsError st))
      = Voice.wire st) /\
  Voice.isConnected
    (Voice.ui (Voice.run [Voice.WsError; Voice.WsClose] st)) = false /\
  Voice.connectionStatus
    (Voice.ui (Voice.run [Voice.WsError; Voice.WsClose] st))
    = Voice.StatusDisconnected /\
  Voice.wsRef (Voice.run [Voice.WsError; Voice.WsClose] st) = None /\
  Voice.isRecording
    (Voice.ui (Voice.run [Voice.WsError; Voice.WsClose] st)) = true /\
  Voice.capture (Voice.run [Voice.WsError; Voice.WsClose] st)
    = Voice.capture st /\
  (forall input,
      Voice.enabled (Voice.AudioProcess input)
        (Voice.run [Voice.WsError; Voice.WsClose] st)
      = Voice.enabled (Voice.AudioProcess input) st) /\
  (forall data,
      Voice.enabled (Voice.LiveDataEvent data)
        (Voice.run [Voice.WsError; Voice.WsClose] st)
      = Voice.enabled (Voice.LiveDataEvent data) st).
Proof.
  intros W Hcl Hrec.
  assert (E1 : Voice.step Voice.WsError st
               = Voice.onerror (Voice.set_readyState Voice.CLOSED st)).
  { unfold Voice.step, Voice.enabled. rewrite W. reflexivity. }
  assert (Hd : Voice.socketDown (Voice.step Voice.WsError st) = true).
  { rewrite E1. unfold Voice.onerror, Voice.set_readyState, Voice.socketDown.
    rewrite W. reflexivity. }
  assert (Hw : Voice.wire (Voice.step Voice.WsError st) = Voice.wire st).
  { rewrite E1. unfold Voice.onerror, Voice.set_readyState. rewrite W.
    reflexivity. }
  split; [rewrite E1; reflexivity|].
  split; [rewrite E1; unfold Voice.onerror, Voice.set_readyState;
          rewrite W; reflexivity|].
  split.
  { intros es Hes.
    destruct (run_socketDown es _ Hes Hd) as [_ ->]. exact Hw. }
  destruct st as [p [rec con ms cs pa ds chs al] w fs c pb hst].
  cbn in W, Hrec. subst w rec. destruct s as [rs cl]. cbn in Hcl. subst cl.
  repeat split.
Qed.

Lemma transport_error_leaves_recording_witness :
  Voice.isRecording (Voice.ui Voice.recordingOnWeb) = true /\
  Voice.connectionStatus
    (Voice.ui (Voice.step Voice.WsError Voice.recordingOnWeb))
    = Voice.StatusError /\
  Voice.isConnected
    (Voice.ui (Voice.run [Voice.WsError; Voice.WsClose] Voice.recordingOnWeb))
    = false /\
  Voice.isRecording
    (Voice.ui (Voice.run [Voice.WsError; Voice.WsClose] Voice.recordingOnWeb))
    = true /\
  Voice.processorLive
    (Voice.capture
       (Voice.run [Voice.WsError; Voice.WsClose] Voice.recordingOnWeb))
    = true /\
  Voice.enabled (Voice.AudioProcess [1 # 2])
    (Voice.run [Voice.WsError; Voice.WsClose] Voice.recordingOnWeb) = true.
Proof.
  destruct (transport_error_leaves_recording Voice.recordingOnWeb
              (Voice.mkSocket Voice.OPEN false) eq_refl eq_refl eq_refl)
    as (H1 & _ & _ & H4 & _ & _ & H7 & H8 & H9 & _).
  split; [reflexivity|]. split; [exact H1|]. split; [exact H4|].
  split; [exact H7|]. split; [rewrite H8; reflexivity|].
  rewrite H9. reflexivity.
Defined.

(** The stale binding at work: the close handler stops the recording
    exactly when the socket was created in a render that was recording. *)
Lemma onclose_reads_stale_isRecording (st : Voice.State) (s : Voice.Socket) :
  Voice.wsRef st = Some s ->
  Voice.isRecording (Voice.ui (Voice.onclose st))
  = if Voice.closure_isRecording s then false
    else Voice.isRecording (Voice.ui st).
Proof.
  intros W. unfold Voice.onclose. rewrite W.
  destruct (Voice.closure_isRecording s); [|reflexivity].
  cbn [Voice.ui Voice.set_wsRef Voice.addMessage Voice.setConnectionStatus
       Voice.with_ui Voice.isRecording].
  apply stopRecording_flags.
Qed.

(** ** The playback scheduler *)

Section PlaybackFacts.
Import Voice.

Ltac scheduler_unfold :=
  cbv [step enabled sourceEnded onended playNextChunk deviceDo set_queue
       with_playback with_ui setIsPlayingAudio addMessage negb
       playback pending device audioQueueRef isPlayingRef audioSourceRef
       soundRef playbackAudioContextRef platform ui wsRef wire capture
       host].

(** The spread of a sample array that fits the engine's limit does not
    throw. *)
Lemma spread_fits xs (c : chunk) st :
  map Pcm.int16ToFloat32 xs = c ->
  (Z.of_nat (length c) <=? argumentLimit (host st)) = true ->
  spreadThrows (length xs) st = false.
Proof.
  intros Hc Hl. unfold spreadThrows. apply Z.ltb_ge. apply Z.leb_le in Hl.
  rewrite <- Hc, length_map in Hl. exact Hl.
Qed.

Lemma spreadThrows_host n st st' :
  host st' = host st -> spreadThrows n st' = spreadThrows n st.
Proof. intros E. unfold spreadThrows. now rewrite E. Qed.

(** A raw chunk arrives while nothing plays: it is started at once. *)
Lemma push_when_idle data accepted c x u w fs cp sr ctx src dev hst :
  chunkOf (WsBinary data accepted) = Some (x :: c) ->
  (Z.of_nat (length (x :: c)) <=? argumentLimit hst) = true ->
  socketOpen
    (mkState Web u w fs cp (mkPlayback sr ctx [] false src [] dev) hst)
    = true ->
  exists u' src',
    step (WsBinary data accepted)
      (mkState Web u w fs cp (mkPlayback sr ctx [] false src [] dev) hst)
    = mkState Web u' w fs cp
        (mkPlayback sr true [] true src' [x :: c] (dev ++ [Start (x :: c)]))
        hst.
Proof.
  intros Hc Hl Ho. unfold chunkOf in Hc.
  destruct (FrameCodec.isWavFile data) eqn:Ew; [discriminate|].
  unfold Pcm.decodePcm in Hc.
  destruct (Pcm.int16View data) as [xs|] eqn:Ev; [|discriminate].
  cbn [option_map] in Hc. injection Hc as Hc.
  unfold step, enabled. rewrite Ho. cbn [negb handleAudioResponse platform].
  unfold playAudioOnWeb. rewrite Ew, Ev.
  rewrite (spreadThrows_host (length xs)
             (mkState Web u w fs cp (mkPlayback sr ctx [] false src [] dev)
                      hst)) by reflexivity.
  rewrite (spread_fits xs (x :: c) _ Hc) by exact Hl.
  cbn. rewrite Hc. cbn.
  do 2 eexists. reflexivity.
Qed.

(** A raw chunk arrives while one plays: it is queued behind the rest. *)
Lemma push_when_playing data accepted c u w fs cp sr ctx q src pend dev hst :
  chunkOf (WsBinary data accepted) = Some c ->
  (Z.of_nat (length c) <=? argumentLimit hst) = true ->
  socketOpen
    (mkState Web u w fs cp (mkPlayback sr ctx q true src pend dev) hst)
    = true ->
  exists u',
    step (WsBinary data accepted)
      (mkState Web u w fs cp (mkPlayback sr ctx q true src pend dev) hst)
    = mkState Web u' w fs cp
        (mkPlayback sr true (q ++ [c]) true src pend dev) hst.
Proof.
  intros Hc Hl Ho. unfold chunkOf in Hc.
  destruct (FrameCodec.isWavFile data) eqn:Ew; [discriminate|].
  unfold Pcm.decodePcm in Hc.
  destruct (Pcm.int16View data) as [xs|] eqn:Ev; [|discriminate].
  cbn [option_map] in Hc. injection Hc as Hc.
  unfold step, enabled. rewrite Ho. cbn [negb handleAudioResponse platform].
  unfold playAudioOnWeb. rewrite Ew, Ev.
  rewrite (spreadThrows_host (length xs)
             (mkState Web u w fs cp (mkPlayback sr ctx q true src pend dev)
                      hst)) by reflexivity.
  rewrite (spread_fits xs c _ Hc) by exact Hl.
  cbn. rewrite Hc.
  eexists. reflexivity.
Qed.

(** The source being rendered ends while chunks wait: within the same
    step the head of the queue is taken and started. *)
Lemma ended_starts_next p u w fs cp sr ctx x c' q src c dev hst :
  step SourceEnded
    (mkState p u w fs cp
       (mkPlayback sr ctx ((x :: c') :: q) true src [c] dev) hst)
  = mkState p u w fs cp
      (mkPlayback sr ctx q true (Some (x :: c')) [x :: c']
                  (dev ++ [Ended c; Start (x :: c')])) hst.
Proof. scheduler_unfold. cbn [app]. rewrite <- app_assoc. reflexivity. Qed.

(** It ends with the queue empty: the scheduler becomes idle. *)
Lemma ended_goes_idle p u w fs cp sr ctx src c dev hst :
  exists u',
    step SourceEnded
      (mkState p u w fs cp (mkPlayback sr ctx [] true src [c] dev) hst)
    = mkState p u' w fs cp
        (mkPlayback sr ctx [] false src [] (dev ++ [Ended c])) hst.
Proof. eexists. scheduler_unfold. reflexivity. Qed.

Lemma renderedInOrder_app a b :
  renderedInOrder (a ++ b) = renderedInOrder a ++ renderedInOrder b.
Proof. unfold renderedInOrder. apply flat_map_app. Qed.

Lemma pushed_app a b : pushed (a ++ b) = pushed a ++ pushed b.
Proof. unfold pushed. apply flat_map_app. Qed.

(** One scheduler event keeps the invariant and adds what it pushed. *)
Lemma step_schedulerInv dev0 past e st :
  schedulerInv dev0 past st ->
  schedulerEvent (argumentLimit (host st)) e = true ->
  schedulerInv dev0 (past ++ pushed [e]) (step e st) /\
  host (step e st) = host st.
Proof.
  intros (Hp & Ho & Hq & (fin & Hpast & Hdev) & Hplay) He.
  destruct st as [p u w fs cp [sr ctx q playing src pend dev] hst].
  unfold idle in Hplay. cbn in Hp, Hq, Hpast, Hdev, Hplay, He. subst p.
  destruct e; try discriminate He.
  - (* a raw message *)
    unfold schedulerEvent in He. unfold pushed. cbn [flat_map].
    destruct (chunkOf (WsBinary data accepted)) as [[|x c]|] eqn:Hc;
      try discriminate He.
    rewrite app_nil_r.
    destruct Hplay as [(-> & c0 & ->) | (-> & -> & ->)].
    + destruct (push_when_playing data accepted (x :: c) u w fs cp sr ctx q
                  src [c0] dev hst Hc He Ho) as (u' & ->).
      split; [|reflexivity].
      unfold schedulerInv, idle. cbn.
      split; [reflexivity|]. split; [exact Ho|].
      split; [apply Forall_app; split; [exact Hq|]; repeat constructor;
              discriminate|].
      split; [|left; eauto].
      exists fin. split; [|exact Hdev].
      rewrite Hpast. cbn. rewrite <- app_assoc. reflexivity.
    + destruct (push_when_idle data accepted c x u w fs cp sr ctx src dev
                  hst Hc He Ho) as (u' & src' & ->).
      split; [|reflexivity].
      unfold schedulerInv, idle. cbn.
      split; [reflexivity|]. split; [exact Ho|]. split; [constructor|].
      split; [|left; eauto].
      exists fin. cbn in Hpast, Hdev. rewrite app_nil_r in Hpast, Hdev.
      split; [rewrite Hpast; reflexivity|].
      rewrite Hdev, <- app_assoc. reflexivity.
  - (* the source ends *)
    unfold pushed. cbn [flat_map chunkOf]. rewrite app_nil_r.
    destruct Hplay as [(-> & c0 & ->) | (-> & -> & ->)].
    + destruct q as [|[|x c'] q].
      * destruct (ended_goes_idle Web u w fs cp sr ctx src c0 dev hst)
          as (u' & ->).
        split; [|reflexivity].
        unfold schedulerInv, idle. cbn.
        split; [reflexivity|]. split; [exact Ho|]. split; [constructor|].
        split; [|right; auto].
        exists (fin ++ [c0]). cbn in Hpast, Hdev.
        split; [rewrite Hpast, app_nil_r; reflexivity|].
        rewrite Hdev, renderedInOrder_app, app_nil_r, <- !app_assoc.
        reflexivity.
      * inversion Hq as [|? ? Hne _]. congruence.
      * rewrite ended_starts_next.
        split; [|reflexivity].
        unfold schedulerInv, idle. cbn.
        split; [reflexivity|]. split; [exact Ho|].
        split; [inversion Hq; assumption|].
        split; [|left; eauto].
        exists (fin ++ [c0]). cbn in Hpast, Hdev.
        split; [rewrite Hpast, <- app_assoc; reflexivity|].
        rewrite Hdev, renderedInOrder_app, <- !app_assoc. reflexivity.
    + (* nothing pending: the event cannot occur *)
      split; [|reflexivity].
      unfold schedulerInv, idle. cbn.
      split; [reflexivity|]. split; [exact Ho|]. split; [constructor|].
      split; [|right; auto].
      exists fin. auto.
Qed.

Lemma run_schedulerInv dev0 es : forall past st,
  schedulerInv dev0 past st ->
  forallb (schedulerEvent (argumentLimit (host st))) es = true ->
  schedulerInv dev0 (past ++ pushed es) (run es st).
Proof.
  induction es as [|e es IH]; intros past st Hinv Hes.
  - cbn. rewrite app_nil_r. exact Hinv.
  - cbn [forallb] in Hes. apply andb_true_iff in Hes. destruct Hes as [He Hes].
    rewrite run_cons.
    change (e :: es) with ([e] ++ es). rewrite pushed_app, app_assoc.
    destruct (step_schedulerInv dev0 past e st Hinv He) as [Hinv' Hh].
    apply IH; [exact Hinv'|]. rewrite Hh. exact Hes.
Qed.

Lemma idle_schedulerInv st :
  platform st = Web -> socketOpen st = true -> idle st ->
  schedulerInv (device (playback st)) [] st.
Proof.
  intros Hp Ho Hi. pose proof Hi as (H1 & H2 & H3).
  unfold schedulerInv. rewrite H2, H3.
  split; [exact Hp|]. split; [exact Ho|]. split; [constructor|].
  split; [|right; exact Hi].
  exists []. cbn. rewrite app_nil_r. auto.
Qed.

(** Draining: with one source pending and [q] queued, as many completions
    as there are chunks left render them all, in order, and end idle. *)
Lemma drain q : forall p u w fs cp sr ctx src c dev hst,
  Forall (fun c : chunk => c <> []) q ->
  exists u' src',
    run (repeat SourceEnded (S (length q)))
      (mkState p u w fs cp (mkPlayback sr ctx q true src [c] dev) hst)
    = mkState p u' w fs cp
        (mkPlayback sr ctx [] false src' []
                    (dev ++ Ended c :: renderedInOrder q)) hst.
Proof.
  induction q as [|c' q IH]; intros p u w fs cp sr ctx src c dev hst Hq.
  - destruct (ended_goes_idle p u w fs cp sr ctx src c dev hst) as (u' & E).
    exists u', src.
    change (repeat SourceEnded (S (length (@nil chunk)))) with [SourceEnded].
    rewrite run_cons, E. reflexivity.
  - inversion Hq as [|? ? Hne Hq']; subst.
    destruct c' as [|x c']; [congruence|].
    change (repeat SourceEnded (S (length ((x :: c') :: q))))
      with (SourceEnded :: repeat SourceEnded (S (length q))).
    rewrite run_cons, ended_starts_next.
    destruct (IH p u w fs cp sr ctx (Some (x :: c')) (x :: c')
                (dev ++ [Ended c; Start (x :: c')]) hst Hq')
      as (u' & src' & E).
    exists u', src'. eapply eq_trans; [exact E|].
    rewrite <- app_assoc. reflexivity.
Qed.

End PlaybackFacts.

Section SchedulerRuns.
Import Voice.

(** Raw messages that arrive while a source is pending only extend the
    queue. *)
Lemma pushes_while_playing datas :
  forall u w fs cp sr ctx q src pend dev hst,
  socketOpen
    (mkState Web u w fs cp (mkPlayback sr ctx q true src pend dev) hst)
    = true ->
  forallb (schedulerEvent (argumentLimit hst)) (pushAll datas) = true ->
  exists u' ctx',
    run (pushAll datas)
      (mkState Web u w fs cp (mkPlayback sr ctx q true src pend dev) hst)
    = mkState Web u' w fs cp
        (mkPlayback sr ctx' (q ++ pushed (pushAll datas)) true src pend dev)
        hst.
Proof.
  induction datas as [|d datas IH];
    intros u w fs cp sr ctx q src pend dev hst Ho Hall.
  - exists u, ctx. cbn. now rewrite app_nil_r.
  - cbn [pushAll map forallb] in Hall. apply andb_true_iff in Hall.
    destruct Hall as [Hd Hall].
    unfold schedulerEvent in Hd.
    destruct (chunkOf (WsBinary d false)) as [[|x c]|] eqn:Hc;
      try discriminate Hd.
    destruct (push_when_playing d false (x :: c) u w fs cp sr ctx q src pend
                dev hst Hc Hd Ho) as (u1 & E1).
    destruct (IH u1 w fs cp sr true (q ++ [x :: c]) src pend dev hst Ho Hall)
      as (u' & ctx' & E).
    exists u', ctx'.
    change (pushAll (d :: datas)) with (WsBinary d false :: pushAll datas).
    rewrite run_cons, E1. eapply eq_trans; [exact E|].
    unfold pushed at 2. cbn [flat_map]. rewrite Hc.
    rewrite <- app_assoc. reflexivity.
Qed.

Lemma pushed_length limit datas :
  forallb (schedulerEvent limit) (pushAll datas) = true ->
  length (pushed (pushAll datas)) = length datas.
Proof.
  induction datas as [|d datas IH]; intros Hall; [reflexivity|].
  cbn [pushAll map forallb] in Hall. apply andb_true_iff in Hall.
  destruct Hall as [Hd Hall]. unfold schedulerEvent in Hd.
  change (pushAll (d :: datas)) with (WsBinary d false :: pushAll datas).
  unfold pushed. cbn [flat_map].
  destruct (chunkOf (WsBinary d false)) as [[|x c]|]; try discriminate Hd.
  cbn [app length]. f_equal. apply IH. exact Hall.
Qed.

Lemma pushed_nonempty limit datas :
  forallb (schedulerEvent limit) (pushAll datas) = true ->
  Forall (fun c : chunk => c <> []) (pushed (pushAll datas)).
Proof.
  induction datas as [|d datas IH]; intros Hall; [constructor|].
  cbn [pushAll map forallb] in Hall. apply andb_true_iff in Hall.
  destruct Hall as [Hd Hall]. unfold schedulerEvent in Hd.
  change (pushAll (d :: datas)) with (WsBinary d false :: pushAll datas).
  unfold pushed. cbn [flat_map].
  destruct (chunkOf (WsBinary d false)) as [[|x c]|]; try discriminate Hd.
  cbn [app]. constructor; [discriminate | apply IH; exact Hall].
Qed.

End SchedulerRuns.

(** The scheduler over any interleaving of raw messages and completions,
    started idle, each message carrying at least one sample and no more
    samples than the engine accepts as arguments of one call: what was
    pushed is, in push order, what has been rendered to the end, then the
    chunk being rendered, then the queue; the device history is exactly
    those renderings back to back; at most one source is pending; and
    when the scheduler is idle everything pushed has been rendered. *)
Theorem playback_scheduler_fifo (st0 : Voice.State) (es : list Voice.Event) :
  Voice.platform st0 = Voice.Web ->
  Voice.socketOpen st0 = true ->
  Voice.idle st0 ->
  forallb (Voice.schedulerEvent (Voice.argumentLimit (Voice.host st0))) es
    = true ->
  exists finished,
    Voice.pushed es
    = finished ++ Voice.pending (Voice.playback (Voice.run es st0))
      ++ Voice.audioQueueRef (Voice.playback (Voice.run es st0)) /\
    Voice.device (Voice.playback (Voice.run es st0))
    = Voice.device (Voice.playback st0) ++ Voice.renderedInOrder finished
      ++ map Voice.Start (Voice.pending (Voice.playback (Voice.run es st0))) /\
    ((Voice.isPlayingRef (Voice.playback (Voice.run es st0)) = true /\
      exists c, Voice.pending (Voice.playback (Voice.run es st0)) = [c]) \/
     (Voice.idle (Voice.run es st0) /\ finished = Voice.pushed es)).
Proof.
  intros Hp Ho Hi Hes.
  pose proof (run_schedulerInv _ es [] st0 (idle_schedulerInv st0 Hp Ho Hi) Hes)
    as (_ & _ & _ & (fin & Hpast & Hdev) & Hplay).
  cbn [app] in Hpast. exists fin.
  split; [exact Hpast|]. split; [exact Hdev|].
  destruct Hplay as [Hplay | Hidle]; [left; exact Hplay|].
  right. split; [exact Hidle|].
  destruct Hidle as (_ & Hq & Hpend). rewrite Hpast, Hq, Hpend.
  now rewrite !app_nil_r.
Qed.

Lemma playback_scheduler_fifo_witness :
  exists finished,
    Voice.pushed [Voice.WsBinary [1; 0] false; Voice.WsBinary [2; 0] false;
                  Voice.SourceEnded]
    = finished
      ++ Voice.pending
           (Voice.playback
              (Voice.run [Voice.WsBinary [1; 0] false;
                          Voice.WsBinary [2; 0] false; Voice.SourceEnded]
                 (Voice.connectedOn Voice.Web)))
      ++ Voice.audioQueueRef
           (Voice.playback
              (Voice.run [Voice.WsBinary [1; 0] false;
                          Voice.WsBinary [2; 0] false; Voice.SourceEnded]
                 (Voice.connectedOn Voice.Web))).
Proof.
  destruct (playback_scheduler_fifo (Voice.connectedOn Voice.Web)
              [Voice.WsBinary [1; 0] false; Voice.WsBinary [2; 0] false;
               Voice.SourceEnded])
    as (fin & H & _).
  - reflexivity.
  - reflexivity.
  - repeat split.
  - reflexivity.
  - exists fin. exact H.
Defined.

(** Pushed while idle and then left to play, chunks of at least one
    sample and of no more samples than the engine accepts as arguments of
    one call are all rendered, each to its end and in push order, and the
    scheduler ends idle. *)
Theorem playback_renders_all (st0 : Voice.State) (datas : list DataView.buffer) :
  Voice.platform st0 = Voice.Web ->
  Voice.socketOpen st0 = true ->
  Voice.idle st0 ->
  forallb (Voice.schedulerEvent (Voice.argumentLimit (Voice.host st0)))
          (Voice.pushAll datas) = true ->
  Voice.idle
    (Voice.run (Voice.pushAll datas
                ++ repeat Voice.SourceEnded (length datas)) st0) /\
  Voice.device
    (Voice.playback
       (Voice.run (Voice.pushAll datas
                   ++ repeat Voice.SourceEnded (length datas)) st0))
  = Voice.device (Voice.playback st0)
    ++ Voice.renderedInOrder (Voice.pushed (Voice.pushAll datas)).
Proof.
  intros Hp Ho Hi Hall.
  destruct datas as [|d datas].
  - cbn. rewrite app_nil_r. split; [exact Hi|reflexivity].
  - destruct st0 as [p u w fs cp [sr ctx q playing src pend dev] hst].
    destruct Hi as (H1 & H2 & H3). cbn in Hp, H1, H2, H3. subst.
    pose proof Hall as Hall0.
    cbn [Voice.pushAll map forallb] in Hall. apply andb_true_iff in Hall.
    destruct Hall as [Hd Hall]. unfold Voice.schedulerEvent in Hd.
    destruct (Voice.chunkOf (Voice.WsBinary d false)) as [[|x c]|] eqn:Hc;
      try discriminate Hd.
    cbn [Voice.host] in Hd, Hall.
    destruct (push_when_idle d false c x u w fs cp sr ctx src dev hst Hc Hd
                Ho)
      as (u1 & src1 & E1).
    assert (Ho1 : Voice.socketOpen
                    (Voice.mkState Voice.Web u1 w fs cp
                       (Voice.mkPlayback sr true [] true src1 [x :: c]
                          (dev ++ [Voice.Start (x :: c)])) hst) = true)
      by exact Ho.
    destruct (pushes_while_playing datas u1 w fs cp sr true [] src1
                [x :: c] (dev ++ [Voice.Start (x :: c)]) hst Ho1 Hall)
      as (u2 & ctx2 & E2).
    destruct (drain (Voice.pushed (Voice.pushAll datas)) Voice.Web u2 w fs cp
                sr ctx2 src1 (x :: c) (dev ++ [Voice.Start (x :: c)]) hst
                (pushed_nonempty _ datas Hall))
      as (u3 & src3 & E3).
    rewrite (pushed_length _ datas Hall) in E3.
    change (Voice.pushAll (d :: datas))
      with (Voice.WsBinary d false :: Voice.pushAll datas).
    rewrite <- app_comm_cons, run_cons, run_app, E1.
    change (length (d :: datas)) with (S (length datas)).
    cbn [app] in E2.
    assert (E : Voice.run (repeat Voice.SourceEnded (S (length datas)))
                  (Voice.run (Voice.pushAll datas)
                     (Voice.mkState Voice.Web u1 w fs cp
                        (Voice.mkPlayback sr true [] true src1 [x :: c]
                           (dev ++ [Voice.Start (x :: c)])) hst))
                = Voice.mkState Voice.Web u3 w fs cp
                    (Voice.mkPlayback sr ctx2 [] false src3 []
                       ((dev ++ [Voice.Start (x :: c)])
                        ++ Voice.Ended (x :: c)
                           :: Voice.renderedInOrder
                                (Voice.pushed (Voice.pushAll datas)))) hst).
    { eapply eq_trans; [|exact E3]. f_equal. exact E2. }
    split.
    + eapply eq_ind_r with (P := Voice.idle); [|exact E]. repeat split.
    + eapply eq_trans; [apply (f_equal (fun s => Voice.device (Voice.playback s)) E)|].
      cbn [Voice.playback Voice.device].
      unfold Voice.pushed at 2. cbn [flat_map]. rewrite Hc.
      rewrite <- app_assoc. reflexivity.
Qed.

Lemma playback_renders_all_witness :
  Voice.device
    (Voice.playback
       (Voice.run (Voice.pushAll [[1; 0]; [2; 0; 3; 0]; [255; 127]]
                   ++ repeat Voice.SourceEnded 3)
          (Voice.connectedOn Voice.Web)))
  = Voice.renderedInOrder
      (Voice.pushed (Voice.pushAll [[1; 0]; [2; 0; 3; 0]; [255; 127]])).
Proof.
  apply (playback_renders_all (Voice.connectedOn Voice.Web)
           [[1; 0]; [2; 0; 3; 0]; [255; 127]]).
  - reflexivity.
  - reflexivity.
  - repeat split.
  - reflexivity.
Defined.

(** C1 at the failing input.  An empty binary message is raw PCM of zero
    samples: [playNextChunk] sets the playing flag, takes the chunk and
    throws in [createBuffer]; the catch resets only the interface flag.
    The chunk that arrives next stays queued: nothing is ever started,
    the playing flag stays set, and no completion can occur. *)
Lemma empty_chunk_stalls_playback :
  Voice.idle (Voice.connectedOn Voice.Web) /\
  Voice.pushed [Voice.WsBinary [] false; Voice.WsBinary [1; 0; 2; 0] false]
    = [[]; map Pcm.int16ToFloat32 [1; 2]] /\
  Voice.device (Voice.playback Voice.afterEmptyMessage) = [] /\
  Voice.isPlayingRef (Voice.playback Voice.afterEmptyMessage) = true /\
  Voice.isPlayingAudio (Voice.ui Voice.afterEmptyMessage) = true /\
  Voice.pending (Voice.playback Voice.afterEmptyMessage) = [] /\
  Voice.audioQueueRef (Voice.playback Voice.afterEmptyMessage)
    = [map Pcm.int16ToFloat32 [1; 2]] /\
  (forall n : nat,
      Voice.run (repeat Voice.SourceEnded n) Voice.afterEmptyMessage
      = Voice.afterEmptyMessage).
Proof.
  repeat split.
  induction n as [|n IH]; [reflexivity|].
  cbn [repeat]. rewrite run_cons. exact IH.
Qed.

(** ** Native playback *)

Section NativeFacts.
Import Voice.

Lemma fromCharCode_octets data :
  FrameCodec.octets data -> JS.fromCharCode data = data.
Proof.
  unfold FrameCodec.octets, JS.fromCharCode. induction 1 as [|x l Hx _ IH].
  - reflexivity.
  - cbn [map]. rewrite IH. f_equal. apply Z.mod_small.
    change (2 ^ 16) with 65536. lia.
Qed.

Lemma playAudioOnMobile_device data accepted st base64 :
  spreadThrows (length data) st = false ->
  Base64.btoa (JS.fromCharCode data) = Some base64 ->
  device (playback (playAudioOnMobile data accepted st))
  = device (playback st) ++ [LoadSound (Base64.dataUri base64)] /\
  audioQueueRef (playback (playAudioOnMobile data accepted st))
  = audioQueueRef (playback st) /\
  pending (playback (playAudioOnMobile data accepted st))
  = pending (playback st) /\
  isPlayingRef (playback (playAudioOnMobile data accepted st))
  = isPlayingRef (playback st) /\
  soundRef (playback (playAudioOnMobile data accepted st))
  = (if accepted then Some (Base64.dataUri base64)
     else soundRef (playback st)).
Proof.
  intros Hs E. unfold playAudioOnMobile.
  rewrite (spreadThrows_host (length data) st) by reflexivity.
  rewrite Hs, E.
  destruct accepted; repeat split.
Qed.

(** A payload too long for the spread: nothing reaches the player. *)
Lemma playAudioOnMobile_too_long data accepted st :
  spreadThrows (length data) st = true ->
  playAudioOnMobile data accepted st
  = setIsPlayingAudio false
      (addMessage (Note "Error playing audio")
         (addMessage (Note "Playing audio response...")
            (setIsPlayingAudio true st))).
Proof.
  intros Hs. unfold playAudioOnMobile.
  rewrite (spreadThrows_host (length data) st) by reflexivity.
  rewrite Hs. reflexivity.
Qed.

End NativeFacts.




Example native_data_uri_example :
  Voice.device
    (Voice.playback
       (Voice.handleAudioResponse [1; 0; 255; 127] true
          (Voice.connectedOn Voice.Native)))
  = [Voice.LoadSound (JS.codeUnits "data:audio/wav;base64,AQD/fw==")].
Proof. reflexivity. Qed.

(** * Further properties of the codec and the sample conversions *)

Section QuantizationFacts.
Import JS Pcm.

(** Truncation towards zero stays within one of its argument, on the side
    of zero. *)
Lemma truncate_nonneg_bounds q :
  (0 <= q)%Q ->
  (q - 1 < inject_Z (truncate q))%Q /\ (inject_Z (truncate q) <= q)%Q.
Proof.
  destruct q as [a b]. unfold Qle, Qlt, Qminus, Qplus, Qopp, truncate.
  cbn [Qnum Qden inject_Z]. intros H.
  rewrite Z.mul_1_r in H. rewrite !Z.mul_1_r.
  assert (Hb : 0 < Zpos b) by lia.
  change (Z.pos (b * 1)) with (Z.pos b * 1). rewrite !Z.mul_1_r.
  revert H Hb. generalize (Zpos b). intros d H Hd.
  split; Z.to_euclidean_division_equations; nia.
Qed.

Lemma truncate_nonpos_bounds q :
  (q <= 0)%Q ->
  (q <= inject_Z (truncate q))%Q /\ (inject_Z (truncate q) < q + 1)%Q.
Proof.
  destruct q as [a b]. unfold Qle, Qlt, Qplus, truncate.
  cbn [Qnum Qden inject_Z]. intros H.
  rewrite Z.mul_1_r in H. rewrite !Z.mul_1_r.
  assert (Hb : 0 < Zpos b) by lia.
  change (Z.pos (b * 1)) with (Z.pos b * 1). rewrite !Z.mul_1_r.
  revert H Hb. generalize (Zpos b). intros d H Hd.
  split; Z.to_euclidean_division_equations; nia.
Qed.

(** Capture then playback of one sample: the value heard differs from
    the clamped input by less than two quantization steps. *)
Lemma quantization_error x :
  (clampSample x - (1 # 16384) < int16ToFloat32 (floatToPcm16 x))%Q /\
  (int16ToFloat32 (floatToPcm16 x) < clampSample x + (1 # 32768))%Q.
Proof.
  destruct (clampSample_range x) as [Hlo Hhi].
  unfold int16ToFloat32.
  destruct (Qlt_le_dec (clampSample x) 0) as [Hneg|Hpos].
  - destruct (floatToPcm16_negative x Hneg) as [-> _].
    destruct (truncate_nonpos_bounds (clampSample x * inject_Z 32768))
      as [B1 B2].
    { change (inject_Z 32768) with (32768 # 1). lra. }
    change (inject_Z 32768) with (32768 # 1) in *.
    set (t := inject_Z (truncate (clampSample x * (32768 # 1)))) in *.
    split; [|]; apply Qlt_shift_div_l || apply Qlt_shift_div_r;
      try reflexivity; lra.
  - destruct (floatToPcm16_nonnegative x Hpos) as [-> _].
    destruct (truncate_nonneg_bounds (clampSample x * inject_Z 32767))
      as [B1 B2].
    { change (inject_Z 32767) with (32767 # 1). lra. }
    change (inject_Z 32767) with (32767 # 1) in *.
    change (inject_Z 32768) with (32768 # 1).
    set (t := inject_Z (truncate (clampSample x * (32767 # 1)))) in *.
    split; [|]; apply Qlt_shift_div_l || apply Qlt_shift_div_r;
      try reflexivity; lra.
Qed.

End QuantizationFacts.

(** The header the client sends is itself a container for the test the
    client applies to what it receives, whatever the format numbers. *)
Theorem createWavHeader_is_container (sampleRate bitsPerSample : Z) :
  exists hdr,
    FrameCodec.createWavHeader sampleRate bitsPerSample = Some hdr /\
    FrameCodec.isWavFile hdr = true.
Proof.
  eexists. split; [apply createWavHeader_octets|]. reflexivity.
Qed.

(** When the format fits the header's fields (non-negative sample rate
    below 2^32, bits per sample below 2^16, byte rate below 2^32), the
    fields read back as the numbers themselves, the two quotients rounded
    down. *)
Theorem createWavHeader_fields_exact (sampleRate bitsPerSample : Z) :
  0 <= sampleRate < 2 ^ 32 -> 0 <= bitsPerSample < 2 ^ 16 ->
  sampleRate * bitsPerSample / 8 < 2 ^ 32 ->
  exists hdr,
    FrameCodec.createWavHeader sampleRate bitsPerSample = Some hdr /\
    DataView.getUint32 hdr 24 = Some sampleRate /\
    DataView.getUint32 hdr 28 = Some (sampleRate * bitsPerSample / 8) /\
    DataView.getUint16 hdr 32 = Some (bitsPerSample / 8) /\
    DataView.getUint16 hdr 34 = Some bitsPerSample.
Proof.
  intros Hsr Hbps Hbr.
  destruct (header_fields_in_range sampleRate bitsPerSample Hsr Hbps Hbr)
    as (F24 & F28 & F32 & F34).
  eexists. split; [apply createWavHeader_octets|]. cbv zeta.
  rewrite F24, F28, F32, F34.
  assert (R28 : 0 <= sampleRate * bitsPerSample / 8 < 2 ^ 32)
    by (split; [apply Z.div_pos; nia | exact Hbr]).
  assert (R32 : 0 <= bitsPerSample / 8 < 2 ^ 16).
  { change (2 ^ 16) with 65536 in *.
    Z.to_euclidean_division_equations. lia. }
  repeat split;
    unfold DataView.getUint32, DataView.getUint16; cbn [nth_error Nat.add];
    f_equal; first [apply octets32 | apply octets16]; assumption.
Qed.

Lemma createWavHeader_fields_exact_witness :
  exists hdr,
    FrameCodec.createWavHeader 44100 24 = Some hdr /\
    DataView.getUint32 hdr 24 = Some 44100 /\
    DataView.getUint32 hdr 28 = Some 132300 /\
    DataView.getUint16 hdr 32 = Some 3 /\
    DataView.getUint16 hdr 34 = Some 24.
Proof.
  apply (createWavHeader_fields_exact 44100 24); cbn; lia.
Defined.

(** What the capture path sends is what the playback path reads: the
    frame built from a block of samples decodes to one sample per input
    sample, each within two quantization steps of the clamped input. *)
Theorem capture_playback_round_trip (input : list Pcm.sample) :
  Pcm.decodePcm (Pcm.pcm16Buffer input)
  = Some (map (fun x => Pcm.int16ToFloat32 (Pcm.floatToPcm16 x)) input) /\
  length (Pcm.pcm16Buffer input) = (2 * length input)%nat /\
  forall x : Pcm.sample,
    (Pcm.clampSample x - (1 # 16384)
       < Pcm.int16ToFloat32 (Pcm.floatToPcm16 x))%Q /\
    (Pcm.int16ToFloat32 (Pcm.floatToPcm16 x)
       < Pcm.clampSample x + (1 # 32768))%Q.
Proof.
  split; [|split].
  - unfold Pcm.decodePcm. rewrite int16View_pcm16Buffer.
    cbn [option_map]. now rewrite map_map.
  - unfold Pcm.pcm16Buffer. induction input as [|x l IH]; [reflexivity|].
    cbn [flat_map]. rewrite length_app, IH. cbn [Pcm.int16Octets length].
    lia.
  - apply quantization_error.
Qed.

(** A numeric array from the native stream is sent as little-endian
    16-bit samples: reading the frame back gives each number reduced to
    16 bits, and the numbers themselves when they are 16-bit already. *)
Theorem convertAudioDataToBuffer_array (xs : list Z) :
  Pcm.int16View (Voice.convertAudioDataToBuffer (Voice.DataArray xs))
  = Some (map (fun x => JS.ToInt16 (inject_Z x)) xs) /\
  length (Voice.convertAudioDataToBuffer (Voice.DataArray xs))
  = (2 * length xs)%nat /\
  (Forall (fun x => - 2 ^ 15 <= x < 2 ^ 15) xs ->
   Pcm.int16View (Voice.convertAudioDataToBuffer (Voice.DataArray xs))
   = Some xs).
Proof.
  assert (E : Voice.convertAudioDataToBuffer (Voice.DataArray xs)
              = flat_map Pcm.int16Octets
                  (map (fun x => JS.ToInt16 (inject_Z x)) xs)).
  { cbn [Voice.convertAudioDataToBuffer].
    induction xs as [|x l IH]; [reflexivity|].
    cbn [map flat_map]. now rewrite IH. }
  assert (V : Pcm.int16View
                (Voice.convertAudioDataToBuffer (Voice.DataArray xs))
              = Some (map (fun x => JS.ToInt16 (inject_Z x)) xs)).
  { rewrite E. apply int16View_int16Octets.
    apply Forall_forall. intros y Hy. apply in_map_iff in Hy.
    destruct Hy as (x & <- & _). apply ToInt16_range. }
  split; [exact V|]. split.
  - rewrite E. clear. induction xs as [|x l IH]; [reflexivity|].
    cbn [map flat_map]. rewrite length_app, IH.
    cbn [Pcm.int16Octets length]. lia.
  - intros Hr. rewrite V. f_equal. clear E V.
    induction Hr as [|x l Hx _ IH]; [reflexivity|].
    cbn [map]. rewrite IH. f_equal.
    rewrite ToInt16_in_range by (rewrite truncate_inject_Z; lia).
    apply truncate_inject_Z.
Qed.

(** * Further properties of the session *)

Section SessionMore.
Import Voice.

(** What [stopRecording] leaves of the capture refs and of the platform
    objects behind them. *)
Lemma stopRecording_capture_eq st :
  capture (stopRecording st) =
  let c := capture st in
  match platform st with
  | Web =>
      mkCapture (isRecordingRef c) false (liveAudioStreamRef c)
        (recordingRef c) false false false
        (if scriptProcessorRef c || audioContextRef c then false
         else processorLive c)
        (if streamRef c then false else tracksLive c)
        (liveStreamRunning c)
  | Native =>
      mkCapture (isRecordingRef c) false false false (streamRef c)
        (audioContextRef c) (scriptProcessorRef c) (processorLive c)
        (tracksLive c)
        (if liveAudioStreamRef c then false else liveStreamRunning c)
  end.
Proof.
  destruct st as [p u w fs [r i l rr s a sp pl t lr] pb hst].
  destruct p, i, l, rr, s, a, sp, w as [[[] ?]|]; vm_compute; reflexivity.
Qed.

Lemma startRecording_wire granted st :
  exists header,
    FrameCodec.createWavHeader sampleRate bitsPerSample = Some header /\
    wire (startRecording granted st) =
    if isConnected (ui st) && socketOpen st
    then wire st ++ [Binary header] else wire st.
Proof.
  eexists. split; [reflexivity|].
  destruct st as [p [rec con ms cs pa ds chs al] w fs
                    [r i l rr sm a sp pl t lr] pb hst].
  destruct con, w as [[[] ?]|], p, granted, pl; vm_compute; reflexivity.
Qed.

Lemma startRecording_rest granted st :
  playback (startRecording granted st) = playback st /\
  wsRef (startRecording granted st) = wsRef st /\
  platform (startRecording granted st) = platform st /\
  isConnected (ui (startRecording granted st)) = isConnected (ui st) /\
  isRecording (ui (startRecording granted st)) =
    (if isConnected (ui st) && socketOpen st && granted then true
     else isRecording (ui st)) /\
  capture (startRecording granted st) =
    (if isConnected (ui st) && socketOpen st && granted then
       let c := capture st in
       match platform st with
       | Web =>
           mkCapture (isRecordingRef c) (audioChunkIntervalRef c)
             (liveAudioStreamRef c) (recordingRef c) true true true true true
             (liveStreamRunning c)
       | Native =>
           mkCapture (isRecordingRef c) (audioChunkIntervalRef c) true
             (recordingRef c) (streamRef c) (audioContextRef c)
             (scriptProcessorRef c) (processorLive c) (tracksLive c) true
       end
     else capture st).
Proof.
  destruct st as [p [rec con ms cs pa ds chs al] w fs
                    [r i l rr sm a sp pl t lr] pb hst].
  destruct con, w as [[[] ?]|], p, granted, pl; vm_compute; repeat split.
Qed.

(** The record button with the request left pending: the first half of
    [startRecording]. *)
Lemma requestRecording_rest st :
  playback (requestRecording st) = playback st /\
  wsRef (requestRecording st) = wsRef st /\
  platform (requestRecording st) = platform st /\
  isConnected (ui (requestRecording st)) = isConnected (ui st) /\
  isRecording (ui (requestRecording st)) = isRecording (ui st) /\
  capture (requestRecording st) = capture st /\
  argumentLimit (host (requestRecording st)) = argumentLimit (host st) /\
  orphanedProcessors (host (requestRecording st))
  = orphanedProcessors (host st) /\
  pendingStarts (host (requestRecording st))
  = (if isConnected (ui st) && socketOpen st
     then S (pendingStarts (host st)) else pendingStarts (host st)) /\
  exists header,
    FrameCodec.createWavHeader sampleRate bitsPerSample = Some header /\
    wire (requestRecording st) =
    if isConnected (ui st) && socketOpen st
    then wire st ++ [Binary header] else wire st.
Proof.
  destruct st as [p [rec con ms cs pa ds chs al] w fs c pb [lim pend orph]].
  destruct con, w as [[[] ?]|], p; repeat split; eexists; split; reflexivity.
Qed.

(** The settling of a request: the second half. *)
Lemma settleRecording_rest granted st :
  playback (settleRecording granted st) = playback st /\
  platform (settleRecording granted st) = platform st /\
  isConnected (ui (settleRecording granted st)) = isConnected (ui st) /\
  isRecording (ui (settleRecording granted st))
  = (if granted then true else isRecording (ui st)) /\
  capture (settleRecording granted st)
  = (if granted then
       let c := capture st in
       match platform st with
       | Web =>
           mkCapture (isRecordingRef c) (audioChunkIntervalRef c)
             (liveAudioStreamRef c) (recordingRef c) true true true true true
             (liveStreamRunning c)
       | Native =>
           mkCapture (isRecordingRef c) (audioChunkIntervalRef c) true
             (recordingRef c) (streamRef c) (audioContextRef c)
             (scriptProcessorRef c) (processorLive c) (tracksLive c) true
       end
     else capture st) /\
  argumentLimit (host (settleRecording granted st))
  = argumentLimit (host st) /\
  pendingStarts (host (settleRecording granted st))
  = Nat.pred (pendingStarts (host st)) /\
  orphanedProcessors (host (settleRecording granted st))
  = (if granted
     then match platform st with
          | Web => if processorLive (capture st)
                   then S (orphanedProcessors (host st))
                   else orphanedProcessors (host st)
          | Native => orphanedProcessors (host st)
          end
     else orphanedProcessors (host st)).
Proof.
  destruct st as [p u w fs [r i l rr sm a sp pl t lr] pb [lim pend orph]].
  destruct p, granted, pl; repeat split.
Qed.

Lemma playNextChunk_capture st :
  match playNextChunk st with
  | Returned st' | Threw st' =>
      capture st' = capture st /\ platform st' = platform st
  end.
Proof.
  unfold playNextChunk.
  destruct (audioQueueRef (playback st)) as [|[|x c] q]; cbn; auto.
Qed.

Lemma handleAudioResponse_capture data accepted st :
  capture (handleAudioResponse data accepted st) = capture st /\
  platform (handleAudioResponse data accepted st) = platform st.
Proof.
  unfold handleAudioResponse. destruct (platform st) eqn:Ep.
  - unfold playAudioOnWeb.
    destruct (FrameCodec.isWavFile data); [destruct accepted; cbn; auto|].
    destruct (Pcm.int16View data) as [xs|]; [|cbn; auto].
    destruct (spreadThrows (length xs) _); [cbn; auto|].
    match goal with
    | |- context [if ?b then _ else _] => destruct b
    end; [|cbn; auto].
    match goal with
    | |- context [playNextChunk ?s] =>
        pose proof (playNextChunk_capture s) as H;
        destruct (playNextChunk s)
    end; destruct H as [H1 H2]; cbn in *; rewrite ?H1, ?H2; auto.
  - unfold playAudioOnMobile.
    destruct (spreadThrows (length data) _); [cbn; auto|].
    destruct (Base64.btoa (JS.fromCharCode data)); [|cbn; auto].
    destruct accepted; cbn; auto.
Qed.

Lemma sourceEnded_capture st :
  capture (sourceEnded st) = capture st /\
  platform (sourceEnded st) = platform st.
Proof.
  unfold sourceEnded. destruct (pending (playback st)) as [|c others]; auto.
  unfold onended.
  match goal with
  | |- context [playNextChunk ?s] =>
      pose proof (playNextChunk_capture s) as H; destruct (playNextChunk s)
  end; destruct H as [H1 H2]; cbn in *; rewrite ?H1, ?H2; auto.
Qed.

Lemma onclose_capture st :
  capture (onclose st) =
  match wsRef st with
  | Some s =>
      if closure_isRecording s then capture (stopRecording st) else capture st
  | None => capture st
  end.
Proof.
  unfold onclose. destruct (wsRef st) as [[rs []]|]; try reflexivity.
  cbn [capture set_wsRef addMessage setConnectionStatus with_ui
       closure_isRecording].
  rewrite !stopRecording_capture_eq. reflexivity.
Qed.

Lemma onclose_wire st :
  socketOpen st = false -> wire (onclose st) = wire st.
Proof.
  intros Ho. unfold onclose. destruct (wsRef st) as [[rs []]|] eqn:W;
    try reflexivity.
  cbn [wire set_wsRef addMessage setConnectionStatus with_ui
       closure_isRecording].
  rewrite stopRecording_wire.
  replace (socketOpen (setIsConnected false st)) with (socketOpen st)
    by reflexivity.
  now rewrite Ho.
Qed.

(** One event other than a connect request appends at most one frame, and
    none unless the socket is OPEN. *)
Lemma step_wire e st :
  isPressConnect e = false ->
  exists suffix,
    wire (step e st) = wire st ++ suffix /\
    (length suffix <= 1)%nat /\
    (socketOpen st = false -> suffix = []).
Proof.
  intros He.
  assert (Same : forall s', wire s' = wire st ->
            exists suffix, wire s' = wire st ++ suffix /\
              (length suffix <= 1)%nat /\
              (socketOpen st = false -> suffix = [])).
  { intros s' E. exists []. rewrite app_nil_r. cbn. auto. }
  assert (Maybe : forall s' f,
            wire s' = (if socketOpen st then wire st ++ [f] else wire st) ->
            exists suffix, wire s' = wire st ++ suffix /\
              (length suffix <= 1)%nat /\
              (socketOpen st = false -> suffix = [])).
  { intros s' f E. destruct (socketOpen st).
    - exists [f]. repeat split; [exact E | cbn; lia | discriminate].
    - apply Same. exact E. }
  unfold step. destruct (enabled e st) eqn:En; cbn [negb];
    [|apply Same; reflexivity].
  destruct e; try discriminate He.
  - (* PressDisconnect *)
    apply Same. unfold disconnectWebSocket, set_readyState.
    destruct (wsRef st) as [[[] ?]|] eqn:W; cbn; rewrite ?W; reflexivity.
  - (* PressRecord *)
    destruct (isRecording (ui st)).
    + apply (Maybe _ (Text stopMessage)). apply stopRecording_wire.
    + destruct (startRecording_wire granted st) as (h & _ & E).
      destruct (isConnected (ui st)); cbn [andb] in E.
      * apply (Maybe _ (Binary h)). exact E.
      * apply Same. exact E.
  - (* PressRecordAwait *)
    destruct (isRecording (ui st)).
    + apply (Maybe _ (Text stopMessage)). apply stopRecording_wire.
    + destruct (requestRecording_rest st)
        as (_ & _ & _ & _ & _ & _ & _ & _ & _ & h & _ & E).
      destruct (isConnected (ui st)); cbn [andb] in E.
      * apply (Maybe _ (Binary h)). exact E.
      * apply Same. exact E.
  - (* CaptureSettled *)
    apply Same. apply settleRecording_socket.
  - (* WsOpen *)
    apply Same. unfold onopen, set_readyState.
    destruct (wsRef st) as [[? ?]|]; reflexivity.
  - (* WsBinary *) apply Same. apply handleAudioResponse_socket.
  - (* WsText *) apply Same. reflexivity.
  - (* WsError *)
    apply Same. unfold onerror, set_readyState.
    destruct (wsRef st) as [[? ?]|]; reflexivity.
  - (* WsClose *)
    unfold enabled in En.
    destruct (wsRef st) as [[rs cl]|] eqn:W; [|discriminate En].
    apply Same. rewrite onclose_wire.
    + unfold set_readyState. rewrite W. reflexivity.
    + unfold set_readyState, socketOpen. rewrite W. reflexivity.
  - (* AudioProcess *)
    destruct (socketOpen st) eqn:Ho.
    + rewrite onaudioprocess_open by exact Ho.
      exists [Binary (Pcm.pcm16Buffer input)].
      repeat split; [cbn; lia | discriminate].
    + rewrite onaudioprocess_not_open by exact Ho. apply Same. reflexivity.
  - (* LiveDataEvent *)
    pose proof (onLiveData_wire data st) as E.
    destruct (isRecordingRef (capture st)); cbn [andb] in E.
    + apply (Maybe _ (Binary (convertAudioDataToBuffer data))). exact E.
    + apply Same. exact E.
  - (* Effect *) apply Same. reflexivity.
  - (* SourceEnded *) apply Same. apply sourceEnded_socket.
  - (* PlaybackFinished *) apply Same. reflexivity.
Qed.

(** One event keeps the capture refs in step with the platform objects. *)
Lemma step_captureConsistent e st :
  captureConsistent st -> captureConsistent (step e st).
Proof.
  intros Hc.
  assert (Keep : forall s', capture s' = capture st -> captureConsistent s').
  { intros s' E. unfold captureConsistent. rewrite E. exact Hc. }
  assert (Stop : forall s, captureConsistent s ->
                           captureConsistent (stopRecording s)).
  { intros s [H1 H2]. unfold captureConsistent.
    rewrite stopRecording_capture_eq. cbv zeta.
    destruct (capture s) as [r i l rr sm a sp pl t lr].
    cbn in H1, H2.
    destruct (platform s); cbn; split; intros H;
      destruct sp, a, l, pl, lr; try discriminate H; auto. }
  unfold step. destruct (enabled e st) eqn:En; cbn [negb]; [|exact Hc].
  destruct e.
  - apply Keep. reflexivity.
  - apply Keep. unfold disconnectWebSocket, set_readyState.
    destruct (wsRef st) as [[[] ?]|]; reflexivity.
  - destruct (isRecording (ui st)); [apply Stop; exact Hc|].
    destruct (startRecording_rest granted st) as (_ & _ & _ & _ & _ & E).
    unfold captureConsistent. rewrite E. destruct Hc as [H1 H2].
    destruct (isConnected (ui st) && socketOpen st && granted);
      [|split; assumption].
    cbv zeta. destruct (platform st); cbn; split; auto.
  - destruct (isRecording (ui st)); [apply Stop; exact Hc|].
    apply Keep. apply requestRecording_rest.
  - destruct (settleRecording_rest granted st) as (_ & _ & _ & _ & E & _).
    unfold captureConsistent. rewrite E. destruct Hc as [H1 H2].
    destruct granted; [|split; assumption].
    cbv zeta. destruct (platform st); cbn; split; auto.
  - apply Keep. unfold set_readyState.
    destruct (wsRef st) as [[? ?]|]; reflexivity.
  - apply Keep. apply handleAudioResponse_capture.
  - apply Keep. reflexivity.
  - apply Keep. unfold set_readyState.
    destruct (wsRef st) as [[? ?]|]; reflexivity.
  - unfold captureConsistent. rewrite onclose_capture.
    assert (Hc' : captureConsistent (set_readyState CLOSED st)).
    { apply Keep. unfold set_readyState.
      destruct (wsRef st) as [[? ?]|]; reflexivity. }
    destruct (wsRef (set_readyState CLOSED st)) as [[rs []]|];
      try exact Hc'.
    apply (Stop _ Hc').
  - apply Keep. unfold onaudioprocess.
    destruct (negb truthyObject || negb (socketOpen st)); reflexivity.
  - apply Keep. unfold onLiveData.
    destruct (isRecordingRef (capture st) && socketOpen st); reflexivity.
  - destruct Hc as [H1 H2]. split; [exact H1 | exact H2].
  - apply Keep. apply sourceEnded_capture.
  - apply Keep. reflexivity.
Qed.

Lemma playNextChunk_noOverlap st :
  pending (playback st) = [] ->
  match playNextChunk st with
  | Returned st' | Threw st' => noOverlap st'
  end.
Proof.
  intros Hp. unfold playNextChunk, noOverlap.
  destruct st as [p u w fs cp [sr ctx q playing src pend dev] hst].
  cbn in Hp. subst pend.
  destruct q as [|[|x c] q]; cbn; eauto.
Qed.

Lemma noOverlap_playback s s' :
  playback s' = playback s -> noOverlap s -> noOverlap s'.
Proof. unfold noOverlap. intros ->. auto. Qed.

Lemma playAudioOnWeb_noOverlap data accepted st :
  noOverlap st -> noOverlap (playAudioOnWeb data accepted st).
Proof.
  intros Hn. unfold playAudioOnWeb.
  destruct st as [p u w fs cp [sr ctx q playing src pend dev] hst].
  unfold noOverlap in Hn. cbn in Hn.
  destruct (FrameCodec.isWavFile data).
  { destruct accepted; unfold noOverlap; cbn; exact Hn. }
  destruct (Pcm.int16View data) as [xs|];
    [|unfold noOverlap; cbn; exact Hn].
  destruct (spreadThrows (length xs) _);
    [unfold noOverlap; cbn; exact Hn|].
  destruct playing.
  - unfold noOverlap; cbn; exact Hn.
  - destruct Hn as [-> | [Hf _]]; [|discriminate Hf].
    cbn [negb isPlayingRef playback with_playback with_ui addMessage
         setIsPlayingAudio set_queue audioQueueRef].
    match goal with
    | |- context [playNextChunk ?s] =>
        pose proof (playNextChunk_noOverlap s eq_refl) as H;
        destruct (playNextChunk s)
    end.
    + exact H.
    + eapply noOverlap_playback; [|exact H]. reflexivity.
Qed.

Lemma sourceEnded_noOverlap st : noOverlap st -> noOverlap (sourceEnded st).
Proof.
  intros Hn. unfold sourceEnded.
  destruct st as [p u w fs cp [sr ctx q playing src pend dev] hst].
  cbn [playback pending]. destruct pend as [|c others]; [exact Hn|].
  unfold onended.
  match goal with
  | |- context [playNextChunk ?s] =>
      assert (Hp : pending (playback s) = []);
      [|pose proof (playNextChunk_noOverlap s Hp) as H;
        destruct (playNextChunk s); exact H]
  end.
  destruct Hn as [Hn | (_ & c' & Hn)]; cbn in Hn; [discriminate Hn|].
  injection Hn as _ ->. reflexivity.
Qed.

Lemma onclose_playback st : playback (onclose st) = playback st.
Proof.
  unfold onclose. destruct (wsRef st) as [[rs []]|]; try reflexivity.
  cbn [playback set_wsRef addMessage setConnectionStatus with_ui
       closure_isRecording].
  destruct (stopRecording_flags (setIsConnected false st))
    as (_ & _ & _ & _ & ->). reflexivity.
Qed.

Lemma step_noOverlap e st : noOverlap st -> noOverlap (step e st).
Proof.
  intros Hn.
  assert (Keep : forall s', playback s' = playback st -> noOverlap s')
    by (intros s' E; eapply noOverlap_playback; eauto).
  unfold step. destruct (enabled e st) eqn:En; cbn [negb]; [|exact Hn].
  destruct e.
  - apply Keep. reflexivity.
  - apply Keep. unfold disconnectWebSocket, set_readyState.
    destruct (wsRef st) as [[[] ?]|]; reflexivity.
  - apply Keep. destruct (isRecording (ui st)).
    + apply stopRecording_flags.
    + apply startRecording_rest.
  - apply Keep. destruct (isRecording (ui st)).
    + apply stopRecording_flags.
    + apply requestRecording_rest.
  - apply Keep. apply settleRecording_rest.
  - apply Keep. unfold set_readyState.
    destruct (wsRef st) as [[? ?]|]; reflexivity.
  - unfold handleAudioResponse. destruct (platform st).
    + apply playAudioOnWeb_noOverlap. exact Hn.
    + unfold noOverlap, playAudioOnMobile.
      destruct (spreadThrows (length data) _); [exact Hn|].
      destruct (Base64.btoa (JS.fromCharCode data));
        [destruct accepted|]; exact Hn.
  - apply Keep. reflexivity.
  - apply Keep. unfold set_readyState.
    destruct (wsRef st) as [[? ?]|]; reflexivity.
  - apply Keep. rewrite onclose_playback. unfold set_readyState.
    destruct (wsRef st) as [[? ?]|]; reflexivity.
  - apply Keep. unfold onaudioprocess.
    destruct (negb truthyObject || negb (socketOpen st)); reflexivity.
  - apply Keep. unfold onLiveData.
    destruct (isRecordingRef (capture st) && socketOpen st); reflexivity.
  - apply Keep. reflexivity.
  - apply sourceEnded_noOverlap. exact Hn.
  - apply Keep. reflexivity.
Qed.

(** *** What the handlers leave of the recording flag and of the host *)

Lemma playNextChunk_control st :
  match playNextChunk st with
  | Returned st' | Threw st' =>
      isRecording (ui st') = isRecording (ui st) /\ host st' = host st
  end.
Proof.
  unfold playNextChunk.
  destruct (audioQueueRef (playback st)) as [|[|x c] q]; cbn; auto.
Qed.

Lemma handleAudioResponse_control data accepted st :
  isRecording (ui (handleAudioResponse data accepted st))
  = isRecording (ui st) /\
  host (handleAudioResponse data accepted st) = host st.
Proof.
  unfold handleAudioResponse. destruct (platform st) eqn:Ep.
  - unfold playAudioOnWeb.
    destruct (FrameCodec.isWavFile data); [destruct accepted; cbn; auto|].
    destruct (Pcm.int16View data) as [xs|]; [|cbn; auto].
    destruct (spreadThrows (length xs) _); [cbn; auto|].
    match goal with
    | |- context [if ?b then _ else _] => destruct b
    end; [|cbn; auto].
    match goal with
    | |- context [playNextChunk ?s] =>
        pose proof (playNextChunk_control s) as H;
        destruct (playNextChunk s)
    end; destruct H as [H1 H2]; cbn in *; rewrite ?H1, ?H2; auto.
  - unfold playAudioOnMobile.
    destruct (spreadThrows (length data) _); [cbn; auto|].
    destruct (Base64.btoa (JS.fromCharCode data)); [|cbn; auto].
    destruct accepted; cbn; auto.
Qed.

Lemma sourceEnded_control st :
  isRecording (ui (sourceEnded st)) = isRecording (ui st) /\
  host (sourceEnded st) = host st.
Proof.
  unfold sourceEnded. destruct (pending (playback st)) as [|c others]; auto.
  unfold onended.
  match goal with
  | |- context [playNextChunk ?s] =>
      pose proof (playNextChunk_control s) as H; destruct (playNextChunk s)
  end; destruct H as [H1 H2]; cbn in *; rewrite ?H1, ?H2; auto.
Qed.

Lemma onclose_host st : host (onclose st) = host st.
Proof.
  unfold onclose. destruct (wsRef st) as [[rs []]|]; try reflexivity.
  cbn [host set_wsRef addMessage setConnectionStatus with_ui
       closure_isRecording].
  rewrite stopRecording_host. reflexivity.
Qed.

Lemma startRecording_host granted st :
  argumentLimit (host (startRecording granted st)) = argumentLimit (host st) /\
  pendingStarts (host (startRecording granted st)) = pendingStarts (host st) /\
  orphanedProcessors (host (startRecording granted st))
  = (if isConnected (ui st) && socketOpen st && granted
     then match platform st with
          | Web => if processorLive (capture st)
                   then S (orphanedProcessors (host st))
                   else orphanedProcessors (host st)
          | Native => orphanedProcessors (host st)
          end
     else orphanedProcessors (host st)).
Proof.
  destruct st as [p [rec con ms cs pa ds chs al] w fs
                    [r i l rr sm a sp pl t lr] pb [lim pend orph]].
  destruct con, w as [[[] ?]|], p, granted, pl; repeat split.
Qed.

(** [Platform.OS] does not change. *)
Lemma onclose_platform st : platform (onclose st) = platform st.
Proof.
  unfold onclose. destruct (wsRef st) as [[rs []]|]; try reflexivity.
  cbn [platform set_wsRef addMessage setConnectionStatus with_ui
       closure_isRecording].
  destruct (stopRecording_flags (setIsConnected false st))
    as (_ & _ & _ & -> & _). reflexivity.
Qed.

(** [Platform.OS] does not change. *)
Lemma step_platform e st : platform (step e st) = platform st.
Proof.
  unfold step. destruct (negb (enabled e st)); [reflexivity|].
  destruct e; try reflexivity.
  - unfold disconnectWebSocket, set_readyState.
    destruct (wsRef st) as [[[] ?]|]; reflexivity.
  - destruct (isRecording (ui st)).
    + apply stopRecording_flags.
    + apply startRecording_rest.
  - destruct (isRecording (ui st)).
    + apply stopRecording_flags.
    + apply requestRecording_rest.
  - apply settleRecording_rest.
  - unfold set_readyState. destruct (wsRef st) as [[? ?]|]; reflexivity.
  - apply handleAudioResponse_capture.
  - unfold set_readyState. destruct (wsRef st) as [[? ?]|]; reflexivity.
  - rewrite onclose_platform. unfold set_readyState.
    destruct (wsRef st) as [[? ?]|]; reflexivity.
  - unfold onaudioprocess.
    destruct (negb truthyObject || negb (socketOpen st)); reflexivity.
  - unfold onLiveData.
    destruct (isRecordingRef (capture st) && socketOpen st); reflexivity.
  - apply sourceEnded_capture.
Qed.

Lemma run_platform es : forall st, platform (run es st) = platform st.
Proof.
  induction es as [|e es IH]; intros st; [reflexivity|].
  rewrite run_cons, IH. apply step_platform.
Qed.


(** The engine's argument limit does not change either. *)
Lemma step_argumentLimit e st :
  argumentLimit (host (step e st)) = argumentLimit (host st).
Proof.
  unfold step. destruct (negb (enabled e st)); [reflexivity|].
  destruct e; try reflexivity.
  - unfold disconnectWebSocket, set_readyState.
    destruct (wsRef st) as [[[] ?]|]; reflexivity.
  - destruct (isRecording (ui st)).
    + now rewrite stopRecording_host.
    + apply startRecording_host.
  - destruct (isRecording (ui st)).
    + now rewrite stopRecording_host.
    + apply requestRecording_rest.
  - apply settleRecording_rest.
  - unfold set_readyState. destruct (wsRef st) as [[? ?]|]; reflexivity.
  - destruct (handleAudioResponse_control data accepted st) as [_ ->].
    reflexivity.
  - unfold set_readyState. destruct (wsRef st) as [[? ?]|]; reflexivity.
  - rewrite onclose_host. unfold set_readyState.
    destruct (wsRef st) as [[? ?]|]; reflexivity.
  - unfold onaudioprocess.
    destruct (negb truthyObject || negb (socketOpen st)); reflexivity.
  - unfold onLiveData.
    destruct (isRecordingRef (capture st) && socketOpen st); reflexivity.
  - destruct (sourceEnded_control st) as [_ ->]. reflexivity.
Qed.

(** *** The queue holds only chunks that passed the spread

    [playNextChunk] spreads the chunk it takes from the queue into
    [Math.max] once more.  A chunk enters the queue in [playAudioOnWeb]
    only, behind the same spread of as many elements, so that the spread
    in [playNextChunk] cannot throw. *)
Lemma playNextChunk_queue (L : Z) st :
  Forall (fun c : list Q => Z.of_nat (length c) <= L)
    (audioQueueRef (playback st)) ->
  match playNextChunk st with
  | Returned st' | Threw st' =>
      Forall (fun c : list Q => Z.of_nat (length c) <= L)
        (audioQueueRef (playback st'))
  end.
Proof.
  intros H. unfold playNextChunk.
  destruct st as [p u w fs cp [sr ctx q playing src pend dev] hst].
  cbn [playback audioQueueRef] in *.
  destruct q as [|[|x c] q]; cbn; [constructor| |];
    inversion H; assumption.
Qed.

Lemma step_queue_within_limit e st :
  Forall (fun c : list Q => Z.of_nat (length c) <= argumentLimit (host st))
    (audioQueueRef (playback st)) ->
  Forall (fun c : list Q =>
            Z.of_nat (length c) <= argumentLimit (host (step e st)))
    (audioQueueRef (playback (step e st))).
Proof.
  rewrite step_argumentLimit.
  remember (argumentLimit (host st)) as L eqn:EL. intros Hq.
  assert (Keep : forall s', playback s' = playback st ->
            Forall (fun c : list Q => Z.of_nat (length c) <= L)
              (audioQueueRef (playback s')))
    by (intros s' E; rewrite E; exact Hq).
  unfold step. destruct (enabled e st) eqn:En; cbn [negb]; [|exact Hq].
  destruct e.
  - apply Keep. reflexivity.
  - apply Keep. unfold disconnectWebSocket, set_readyState.
    destruct (wsRef st) as [[[] ?]|]; reflexivity.
  - apply Keep. destruct (isRecording (ui st)).
    + apply stopRecording_flags.
    + apply startRecording_rest.
  - apply Keep. destruct (isRecording (ui st)).
    + apply stopRecording_flags.
    + apply requestRecording_rest.
  - apply Keep. apply settleRecording_rest.
  - apply Keep. unfold set_readyState.
    destruct (wsRef st) as [[? ?]|]; reflexivity.
  - unfold handleAudioResponse. destruct (platform st).
    + unfold playAudioOnWeb.
      destruct st as [p u w fs cp [sr ctx q playing src pend dev] hst].
      cbn [playback audioQueueRef host argumentLimit] in *.
      destruct (FrameCodec.isWavFile data);
        [destruct accepted; cbn; exact Hq|].
      destruct (Pcm.int16View data) as [xs|]; [|cbn; exact Hq].
      unfold spreadThrows at 1. cbn [host with_playback with_ui addMessage
        setIsPlayingAudio].
      destruct (argumentLimit hst <? Z.of_nat (length xs)) eqn:El;
        [cbn; exact Hq|].
      apply Z.ltb_ge in El.
      assert (Hq' : Forall (fun c : list Q => Z.of_nat (length c) <= L)
                      (q ++ [map Pcm.int16ToFloat32 xs])).
      { apply Forall_app. split; [exact Hq|].
        constructor; [|constructor]. rewrite length_map. lia. }
      destruct playing; cbn [negb isPlayingRef playback with_playback
        with_ui addMessage setIsPlayingAudio set_queue audioQueueRef];
        [exact Hq'|].
      match goal with
      | |- context [playNextChunk ?s] =>
          pose proof (playNextChunk_queue L s Hq') as H;
          destruct (playNextChunk s)
      end; exact H.
    + unfold playAudioOnMobile.
      destruct (spreadThrows (length data) _); [exact Hq|].
      destruct (Base64.btoa (JS.fromCharCode data));
        [destruct accepted|]; exact Hq.
  - apply Keep. reflexivity.
  - apply Keep. unfold set_readyState.
    destruct (wsRef st) as [[? ?]|]; reflexivity.
  - apply Keep. rewrite onclose_playback. unfold set_readyState.
    destruct (wsRef st) as [[? ?]|]; reflexivity.
  - apply Keep. unfold onaudioprocess.
    destruct (negb truthyObject || negb (socketOpen st)); reflexivity.
  - apply Keep. unfold onLiveData.
    destruct (isRecordingRef (capture st) && socketOpen st); reflexivity.
  - apply Keep. reflexivity.
  - unfold sourceEnded.
    destruct st as [p u w fs cp [sr ctx q playing src pend dev] hst].
    cbn [playback pending audioQueueRef] in *.
    destruct pend as [|c others]; [exact Hq|]. unfold onended.
    match goal with
    | |- context [playNextChunk ?s] =>
        pose proof (playNextChunk_queue L s Hq) as H;
        destruct (playNextChunk s)
    end; exact H.
  - apply Keep. reflexivity.
Qed.

(** In every state the component reaches, no queued chunk is longer than
    the engine's argument limit. *)
Lemma run_queue_within_limit p limit es :
  Forall (fun c : list Q =>
            Z.of_nat (length c)
            <= argumentLimit (host (run es (initial p limit))))
    (audioQueueRef (playback (run es (initial p limit)))).
Proof.
  assert (G : forall st,
    Forall (fun c : list Q => Z.of_nat (length c) <= argumentLimit (host st))
      (audioQueueRef (playback st)) ->
    Forall (fun c : list Q =>
              Z.of_nat (length c) <= argumentLimit (host (run es st)))
      (audioQueueRef (playback (run es st)))).
  { induction es as [|e es IH]; intros st H; [exact H|].
    rewrite run_cons. apply IH. apply step_queue_within_limit. exact H. }
  apply G. destruct p; constructor.
Qed.

Lemma run_captureConsistent es : forall st,
  captureConsistent st -> captureConsistent (run es st).
Proof.
  induction es as [|e es IH]; intros st Hc; [exact Hc|].
  rewrite run_cons. apply IH. apply step_captureConsistent. exact Hc.
Qed.

(** *** Starts that do not overlap *)

Lemma startsInOrder_same st s' :
  host s' = host st -> isRecording (ui s') = isRecording (ui st) ->
  processorLive (capture s') = processorLive (capture st) ->
  platform s' = platform st ->
  startsInOrder st -> startsInOrder s'.
Proof.
  unfold startsInOrder. intros -> -> -> ->. auto.
Qed.

Lemma startsInOrder_stop st :
  captureConsistent st -> startsInOrder st -> startsInOrder (stopRecording st).
Proof.
  intros [Hc _] (H1 & H2 & H3 & H4 & H5). unfold startsInOrder.
  rewrite stopRecording_host, stopRecording_capture_eq.
  destruct (stopRecording_flags st) as (-> & _ & _ & -> & _).
  cbv zeta. repeat split; try assumption.
  - destruct (platform st); cbn [processorLive]; intros _.
    + destruct (scriptProcessorRef (capture st)) eqn:Es; [reflexivity|].
      cbn [orb].
      destruct (processorLive (capture st)); [|
        destruct (audioContextRef (capture st)); reflexivity].
      specialize (Hc eq_refl). congruence.
    + apply H5. reflexivity.
  - intros Hn. rewrite Hn in *. cbn [processorLive]. apply H5. reflexivity.
Qed.

(** An event keeps the starts in order, provided a press of the record
    button does not fall into the wait of an earlier one. *)
Lemma step_startsInOrder e st :
  captureConsistent st -> startsInOrder st ->
  match e with
  | PressRecord _ | PressRecordAwait => pendingStarts (host st) = 0%nat
  | _ => True
  end ->
  startsInOrder (step e st).
Proof.
  intros Hc Hs Hpress.
  assert (Same : forall s',
            host s' = host st -> isRecording (ui s') = isRecording (ui st) ->
            processorLive (capture s') = processorLive (capture st) ->
            platform s' = platform st -> startsInOrder s')
    by (intros s' A B C D; apply (startsInOrder_same st s' A B C D Hs)).
  unfold step. destruct (enabled e st) eqn:En; cbn [negb]; [|exact Hs].
  destruct e.
  - (* PressConnect *) apply Same; reflexivity.
  - (* PressDisconnect *)
    apply Same; unfold disconnectWebSocket, set_readyState;
      destruct (wsRef st) as [[[] ?]|]; reflexivity.
  - (* PressRecord *)
    destruct (isRecording (ui st)) eqn:Hr;
      [apply startsInOrder_stop; assumption|].
    destruct Hs as (H1 & H2 & H3 & H4 & H5). pose proof (H4 Hr) as Hl.
    destruct (startRecording_rest granted st) as (_ & _ & Ep & _ & Er & Ec).
    destruct (startRecording_host granted st) as (_ & Epd & Eo).
    unfold startsInOrder. rewrite Ep, Er, Ec, Epd, Eo, Hpress, ?Hr.
    destruct (isConnected (ui st) && socketOpen st && granted); cbv zeta.
    + destruct (platform st) eqn:Epl; cbn [processorLive]; rewrite ?Hl;
        repeat split; try assumption; try lia;
        try (intros HH; discriminate HH); auto.
    + repeat split; try assumption; try lia;
        try (intros HH; discriminate HH); auto.
  - (* PressRecordAwait *)
    destruct (isRecording (ui st)) eqn:Hr;
      [apply startsInOrder_stop; assumption|].
    destruct Hs as (H1 & H2 & H3 & H4 & H5). pose proof (H4 Hr) as Hl.
    destruct (requestRecording_rest st)
      as (_ & _ & Ep & _ & Er & Ec & _ & Eo & Epd & _).
    unfold startsInOrder. rewrite Ep, Er, Ec, Epd, Eo, Hpress, Hr.
    destruct (isConnected (ui st) && socketOpen st);
      repeat split; try assumption; try lia; auto.
  - (* CaptureSettled *)
    destruct Hs as (H1 & H2 & H3 & H4 & H5).
    cbn [enabled] in En. apply Nat.ltb_lt in En.
    assert (Hp1 : pendingStarts (host st) = 1%nat) by lia.
    pose proof (H3 Hp1) as Hr. pose proof (H4 Hr) as Hl.
    destruct (settleRecording_rest granted st)
      as (_ & Ep & _ & Er & Ec & _ & Epd & Eo).
    unfold startsInOrder. rewrite Ep, Er, Ec, Epd, Eo, Hp1, ?Hr.
    cbn [Nat.pred].
    destruct granted; cbv zeta.
    + destruct (platform st) eqn:Epl; cbn [processorLive]; rewrite ?Hl;
        repeat split; try assumption; try lia;
        try (intros HH; discriminate HH); auto.
    + repeat split; try assumption; try lia;
        try (intros HH; discriminate HH); auto.
  - (* WsOpen *)
    apply Same; unfold onopen, set_readyState;
      destruct (wsRef st) as [[? ?]|]; reflexivity.
  - (* WsBinary *)
    destruct (handleAudioResponse_control data accepted st) as [A B].
    destruct (handleAudioResponse_capture data accepted st) as [C D].
    apply Same; [exact B | exact A | now rewrite C | exact D].
  - (* WsText *) apply Same; reflexivity.
  - (* WsError *)
    apply Same; unfold onerror, set_readyState;
      destruct (wsRef st) as [[? ?]|]; reflexivity.
  - (* WsClose *)
    unfold enabled in En.
    destruct (wsRef st) as [[rs cl]|] eqn:W; [|discriminate En].
    unfold onclose, set_readyState. rewrite W.
    cbn [wsRef set_wsRef closure_isRecording].
    destruct cl.
    + apply (startsInOrder_same
               (stopRecording
                  (setIsConnected false
                     (set_wsRef (Some (mkSocket CLOSED true)) st))));
        try reflexivity.
      apply startsInOrder_stop.
      * exact Hc.
      * apply (startsInOrder_same st); try reflexivity. exact Hs.
    + apply Same; reflexivity.
  - (* AudioProcess *)
    apply Same; unfold onaudioprocess;
      destruct (negb truthyObject || negb (socketOpen st)); reflexivity.
  - (* LiveDataEvent *)
    apply Same; unfold onLiveData;
      destruct (isRecordingRef (capture st) && socketOpen st); reflexivity.
  - (* Effect *) apply Same; reflexivity.
  - (* SourceEnded *)
    destruct (sourceEnded_control st) as [A B].
    destruct (sourceEnded_capture st) as [C D].
    apply Same; [exact B | exact A | now rewrite C | exact D].
  - (* PlaybackFinished *) apply Same; reflexivity.
Qed.

Lemma run_startsInOrder es : forall st,
  captureConsistent st -> startsInOrder st ->
  pressesOutsideAwait es st = true ->
  startsInOrder (run es st).
Proof.
  induction es as [|e es IH]; intros st Hc Hs Hp; [exact Hs|].
  cbn [pressesOutsideAwait] in Hp. apply andb_true_iff in Hp.
  destruct Hp as [He Hp]. rewrite run_cons.
  apply IH; [apply step_captureConsistent; exact Hc| |exact Hp].
  apply step_startsInOrder; [exact Hc | exact Hs |].
  destruct e; try exact I; apply Nat.eqb_eq; exact He.
Qed.

Lemma initial_invariants p limit :
  captureConsistent (initial p limit) /\ startsInOrder (initial p limit).
Proof.
  split.
  - split; intros H; discriminate H.
  - unfold startsInOrder. cbn. repeat split; auto.
Qed.

(** After [stopRecording] the sources the refs held are silent; a web
    processor that no ref holds is not. *)
Lemma stopRecording_silences st :
  captureConsistent st ->
  (forall input,
      enabled (AudioProcess input) (stopRecording st)
      = match platform st with
        | Web => (0 <? orphanedProcessors (host st))%nat
        | Native => false
        end) /\
  (forall data, enabled (LiveDataEvent data) (stopRecording st) = false).
Proof.
  intros [H1 H2]. unfold enabled.
  destruct (stopRecording_flags st) as (_ & _ & _ & -> & _).
  rewrite stopRecording_host, stopRecording_capture_eq. cbv zeta.
  destruct (capture st) as [r i l rr sm a sp pl t lr].
  cbn in H1, H2.
  destruct (platform st); cbn; split; intros _; try reflexivity.
  - destruct sp, a, pl; cbn; auto. discriminate (H1 eq_refl).
  - destruct l, lr; auto. discriminate (H2 eq_refl).
Qed.


End SessionMore.

(** Within a session (no new connect request) the list of frames handed
    to [send] only grows, by at most one frame per event; and an event
    that finds the socket not OPEN sends nothing. *)
Theorem frames_appended_only_when_open
  (st : Voice.State) (es : list Voice.Event) :
  existsb Voice.isPressConnect es = false ->
  (exists suffix,
      Voice.wire (Voice.run es st) = Voice.wire st ++ suffix /\
      (length suffix <= length es)%nat) /\
  (forall e, In e es -> forall s,
      Voice.socketOpen s = false ->
      Voice.wire (Voice.step e s) = Voice.wire s).
Proof.
  intros Hes. split.
  - revert st. induction es as [|e es IH]; intros st.
    + exists []. cbn. now rewrite app_nil_r.
    + cbn [existsb] in Hes. apply orb_false_iff in Hes.
      destruct Hes as [He Hes].
      destruct (step_wire e st He) as (s1 & E1 & L1 & _).
      destruct (IH Hes (Voice.step e st)) as (s2 & E2 & L2).
      exists (s1 ++ s2). rewrite run_cons, E2, E1, <- app_assoc.
      split; [reflexivity|]. rewrite length_app. cbn [length]. lia.
  - intros e Hin s Ho.
    assert (He : Voice.isPressConnect e = false).
    { destruct (Voice.isPressConnect e) eqn:E; [|reflexivity].
      rewrite <- Hes. symmetry. apply existsb_exists. eauto. }
    destruct (step_wire e s He) as (suffix & E & _ & Hnil).
    rewrite E, (Hnil Ho). apply app_nil_r.
Qed.

Lemma frames_appended_only_when_open_witness :
  exists suffix,
    Voice.wire
      (Voice.run [Voice.AudioProcess [1 # 2]; Voice.WsError;
                  Voice.AudioProcess [1 # 2]; Voice.PressRecord true]
         Voice.recordingOnWeb)
    = Voice.wire Voice.recordingOnWeb ++ suffix /\
    (length suffix <= 4)%nat.
Proof.
  apply (frames_appended_only_when_open Voice.recordingOnWeb
           [Voice.AudioProcess [1 # 2]; Voice.WsError;
            Voice.AudioProcess [1 # 2]; Voice.PressRecord true]).
  reflexivity.
Defined.



(** In every state the component reaches, on any engine, at most one
    queued chunk is being rendered, and the playing flag is set whenever
    one is: two chunks of the queue never sound at once. *)
Theorem queued_sources_never_overlap
  (p : Voice.Platform) (limit : Z) (es : list Voice.Event) :
  Voice.noOverlap (Voice.run es (Voice.initial p limit)) /\
  (length
     (Voice.pending (Voice.playback (Voice.run es (Voice.initial p limit))))
   <= 1)%nat.
Proof.
  assert (G : forall st, Voice.noOverlap st ->
                Voice.noOverlap (Voice.run es st)).
  { induction es as [|e es IH]; intros st Hn; [exact Hn|].
    rewrite run_cons. apply IH. apply step_noOverlap. exact Hn. }
  assert (H0 : Voice.noOverlap (Voice.initial p limit))
    by (left; reflexivity).
  pose proof (G _ H0) as Hn. split; [exact Hn|].
  destruct Hn as [-> | (_ & c & ->)]; cbn; lia.
Qed.

(** The close handler tests the [isRecording] of the render in which the
    socket was created.  If that was [false], a recording in progress is
    not stopped: the recording flag and every capture resource stay as
    they are while the session becomes disconnected.  If it was [true],
    [stopRecording] runs (and sends nothing, the socket being closed). *)
Theorem close_handler_uses_captured_flag
  (st : Voice.State) (s : Voice.Socket) :
  Voice.wsRef st = Some s ->
  Voice.isConnected (Voice.ui (Voice.step Voice.WsClose st)) = false /\
  Voice.wire (Voice.step Voice.WsClose st) = Voice.wire st /\
  (Voice.closure_isRecording s = false ->
   Voice.isRecording (Voice.ui (Voice.step Voice.WsClose st))
   = Voice.isRecording (Voice.ui st) /\
   Voice.capture (Voice.step Voice.WsClose st) = Voice.capture st) /\
  (Voice.closure_isRecording s = true ->
   Voice.isRecording (Voice.ui (Voice.step Voice.WsClose st)) = false /\
   Voice.capture (Voice.step Voice.WsClose st)
   = Voice.capture (Voice.stopRecording st)).
Proof.
  intros W.
  assert (E : Voice.step Voice.WsClose st
              = Voice.onclose (Voice.set_readyState Voice.CLOSED st)).
  { unfold Voice.step, Voice.enabled. rewrite W. reflexivity. }
  assert (W1 : Voice.wsRef (Voice.set_readyState Voice.CLOSED st)
               = Some (Voice.mkSocket Voice.CLOSED
                         (Voice.closure_isRecording s))).
  { unfold Voice.set_readyState. rewrite W. reflexivity. }
  assert (C1 : Voice.capture (Voice.set_readyState Voice.CLOSED st)
               = Voice.capture st).
  { unfold Voice.set_readyState. rewrite W. reflexivity. }
  rewrite E.
  split; [apply (onclose_flags _ _ W1)|].
  split.
  { rewrite onclose_wire.
    - unfold Voice.set_readyState. rewrite W. reflexivity.
    - unfold Voice.socketOpen. rewrite W1. reflexivity. }
  pose proof (onclose_reads_stale_isRecording _ _ W1) as R.
  pose proof (onclose_capture (Voice.set_readyState Voice.CLOSED st)) as K.
  rewrite W1 in K. cbn [Voice.closure_isRecording] in R, K.
  split; intros Hcl; rewrite Hcl in R, K; rewrite R, K.
  - split; [|exact C1]. unfold Voice.set_readyState. rewrite W. reflexivity.
  - split; [reflexivity|].
    rewrite !stopRecording_capture_eq. rewrite C1.
    unfold Voice.set_readyState. rewrite W. reflexivity.
Qed.

Lemma close_handler_uses_captured_flag_witness :
  Voice.isConnected
    (Voice.ui (Voice.step Voice.WsClose Voice.recordingOnWeb)) = false /\
  Voice.isRecording
    (Voice.ui (Voice.step Voice.WsClose Voice.recordingOnWeb)) = true /\
  Voice.capture (Voice.step Voice.WsClose Voice.recordingOnWeb)
  = Voice.capture Voice.recordingOnWeb.
Proof.
  destruct (close_handler_uses_captured_flag Voice.recordingOnWeb
              (Voice.mkSocket Voice.OPEN false) eq_refl)
    as (H1 & _ & H3 & _).
  destruct (H3 eq_refl) as [H4 H5].
  split; [exact H1|]. split; [exact H4|exact H5].
Defined.




Section EdgeFacts.
Import Voice.

(** [new Int16Array(buffer)] accepts exactly the buffers of even
    length. *)
Lemma int16View_parity data :
  (Nat.odd (length data) = true -> Pcm.int16View data = None) /\
  (Nat.even (length data) = true ->
   exists xs, Pcm.int16View data = Some xs /\
              length data = (2 * length xs)%nat).
Proof.
  assert (G : forall l : list Z,
             ((Nat.odd (length l) = true -> Pcm.int16View l = None) /\
              (Nat.even (length l) = true ->
               exists xs, Pcm.int16View l = Some xs /\
                          length l = (2 * length xs)%nat)) /\
             (forall a,
                 (Nat.odd (length (a :: l)) = true ->
                  Pcm.int16View (a :: l) = None) /\
                 (Nat.even (length (a :: l)) = true ->
                  exists xs, Pcm.int16View (a :: l) = Some xs /\
                             length (a :: l) = (2 * length xs)%nat))).
  { induction l as [|b l [[IHo IHe] IH1]].
    - split; [split|intros a; split]; cbn; try discriminate; eauto.
    - split; [apply IH1|]. intros a. split.
      + intros Ho. cbn [Pcm.int16View].
        rewrite IHo; [reflexivity|].
        cbn [length] in Ho. rewrite Nat.odd_succ, Nat.even_succ in Ho.
        exact Ho.
      + intros He. cbn [length] in He.
        rewrite Nat.even_succ, Nat.odd_succ in He.
        destruct (IHe He) as (xs & E & L).
        cbn [Pcm.int16View]. rewrite E. eexists. split; [reflexivity|].
        cbn [length]. lia. }
  apply G.
Qed.

Lemma startRecording_alerts granted st :
  alerts (ui (startRecording granted st)) =
  if isConnected (ui st) && socketOpen st
  then if granted then alerts (ui st) else "Error"%string :: alerts (ui st)
  else "Not Connected"%string :: alerts (ui st).
Proof.
  destruct st as [p [rec con ms cs pa ds chs al] w fs
                    [r i l rr sm a sp pl t lr] pb hst].
  destruct con, w as [[[] ?]|], p, granted, pl; vm_compute; reflexivity.
Qed.

End EdgeFacts.

(** When the source being rendered ends: with a non-empty chunk at the
    head of the queue, the same step takes it off the queue and starts
    it, so the device sees the end of one chunk and the start of the next
    back to back; with the queue empty, the scheduler becomes idle; with
    an empty chunk at the head, the chunk is taken, nothing is started
    and the playing flag stays set. *)
Theorem completion_advances_queue (st : Voice.State) (c : Voice.chunk) :
  Voice.pending (Voice.playback st) = [c] ->
  (forall x next rest,
      Voice.audioQueueRef (Voice.playback st) = (x :: next) :: rest ->
      Voice.device (Voice.playback (Voice.step Voice.SourceEnded st))
      = Voice.device (Voice.playback st)
        ++ [Voice.Ended c; Voice.Start (x :: next)] /\
      Voice.pending (Voice.playback (Voice.step Voice.SourceEnded st))
      = [x :: next] /\
      Voice.audioQueueRef (Voice.playback (Voice.step Voice.SourceEnded st))
      = rest /\
      Voice.isPlayingRef (Voice.playback (Voice.step Voice.SourceEnded st))
      = true) /\
  (Voice.audioQueueRef (Voice.playback st) = [] ->
   Voice.device (Voice.playback (Voice.step Voice.SourceEnded st))
   = Voice.device (Voice.playback st) ++ [Voice.Ended c] /\
   Voice.idle (Voice.step Voice.SourceEnded st) /\
   Voice.isPlayingAudio (Voice.ui (Voice.step Voice.SourceEnded st)) = false) /\
  (forall rest,
      Voice.audioQueueRef (Voice.playback st) = [] :: rest ->
      Voice.device (Voice.playback (Voice.step Voice.SourceEnded st))
      = Voice.device (Voice.playback st) ++ [Voice.Ended c] /\
      Voice.pending (Voice.playback (Voice.step Voice.SourceEnded st)) = [] /\
      Voice.audioQueueRef (Voice.playback (Voice.step Voice.SourceEnded st))
      = rest /\
      Voice.isPlayingRef (Voice.playback (Voice.step Voice.SourceEnded st))
      = true).
Proof.
  intros Hp.
  destruct st as [p u w fs cp [sr ctx q playing src pend dev] hst].
  cbn in Hp. subst pend. cbn [Voice.playback Voice.audioQueueRef Voice.device].
  split; [|split].
  - intros x next rest ->.
    cbv [Voice.step Voice.enabled Voice.sourceEnded Voice.onended
         Voice.playNextChunk Voice.deviceDo Voice.set_queue
         Voice.with_playback negb Voice.playback Voice.pending Voice.device
         Voice.audioQueueRef Voice.isPlayingRef Voice.audioSourceRef
         Voice.soundRef Voice.playbackAudioContextRef Voice.platform Voice.ui
         Voice.wsRef Voice.wire Voice.capture Voice.host].
    cbn [app]. rewrite <- app_assoc. repeat split.
  - intros ->. repeat split.
  - intros rest ->. repeat split.
Qed.

Lemma completion_advances_queue_witness :
  Voice.device
    (Voice.playback
       (Voice.step Voice.SourceEnded
          (Voice.run (Voice.pushAll [[1; 0]; [2; 0]])
             (Voice.connectedOn Voice.Web))))
  = [Voice.Start [Pcm.int16ToFloat32 1];
     Voice.Ended [Pcm.int16ToFloat32 1];
     Voice.Start [Pcm.int16ToFloat32 2]].
Proof.
  destruct (completion_advances_queue
              (Voice.run (Voice.pushAll [[1; 0]; [2; 0]])
                 (Voice.connectedOn Voice.Web))
              [Pcm.int16ToFloat32 1] eq_refl) as (H & _).
  destruct (H (Pcm.int16ToFloat32 2) [] [] eq_refl) as (E & _).
  exact E.
Defined.

(** A binary message on the web platform that is no container.  With an
    odd number of octets, or with more samples than the engine accepts as
    arguments of one call, it is dropped: the queue, the pending source,
    the device and the playing ref are untouched, the interface flag is
    reset and an error is logged.  Otherwise its octets, read pairwise,
    make one chunk of half as many samples, which is put at the end of
    the queue while a source is playing, and started at once when the
    scheduler is idle and the chunk is not empty. *)
Theorem raw_payload_decoding
  (st : Voice.State) (data : DataView.buffer) (accepted : bool) :
  Voice.platform st = Voice.Web ->
  FrameCodec.isWavFile data = false ->
  (Nat.odd (length data) = true \/
   2 * Voice.argumentLimit (Voice.host st) < Z.of_nat (length data) ->
   Voice.audioQueueRef
     (Voice.playback (Voice.handleAudioResponse data accepted st))
   = Voice.audioQueueRef (Voice.playback st) /\
   Voice.pending (Voice.playback (Voice.handleAudioResponse data accepted st))
   = Voice.pending (Voice.playback st) /\
   Voice.device (Voice.playback (Voice.handleAudioResponse data accepted st))
   = Voice.device (Voice.playback st) /\
   Voice.isPlayingRef
     (Voice.playback (Voice.handleAudioResponse data accepted st))
   = Voice.isPlayingRef (Voice.playback st) /\
   Voice.isPlayingAudio (Voice.ui (Voice.handleAudioResponse data accepted st))
   = false /\
   Voice.messages (Voice.ui (Voice.handleAudioResponse data accepted st))
   = Voice.Note "Error processing audio"
     :: Voice.Note "Processing audio chunk..."
     :: Voice.messages (Voice.ui st)) /\
  (Nat.even (length data) = true ->
   Z.of_nat (length data) <= 2 * Voice.argumentLimit (Voice.host st) ->
   exists xs,
     Pcm.int16View data = Some xs /\
     (2 * length xs)%nat = length data /\
     (Voice.isPlayingRef (Voice.playback st) = true ->
      Voice.audioQueueRef
        (Voice.playback (Voice.handleAudioResponse data accepted st))
      = Voice.audioQueueRef (Voice.playback st)
        ++ [map Pcm.int16ToFloat32 xs] /\
      Voice.pending
        (Voice.playback (Voice.handleAudioResponse data accepted st))
      = Voice.pending (Voice.playback st) /\
      Voice.device
        (Voice.playback (Voice.handleAudioResponse data accepted st))
      = Voice.device (Voice.playback st)) /\
     (Voice.idle st -> xs <> [] ->
      Voice.audioQueueRef
        (Voice.playback (Voice.handleAudioResponse data accepted st)) = [] /\
      Voice.pending
        (Voice.playback (Voice.handleAudioResponse data accepted st))
      = [map Pcm.int16ToFloat32 xs] /\
      Voice.device
        (Voice.playback (Voice.handleAudioResponse data accepted st))
      = Voice.device (Voice.playback st)
        ++ [Voice.Start (map Pcm.int16ToFloat32 xs)] /\
      Voice.isPlayingRef
        (Voice.playback (Voice.handleAudioResponse data accepted st))
      = true)).
Proof.
  intros Hp Hw. destruct (int16View_parity data) as [Hodd Heven].
  unfold Voice.handleAudioResponse, Voice.playAudioOnWeb.
  rewrite Hp, Hw. split.
  - intros [Ho | Hlong].
    + rewrite (Hodd Ho). repeat split.
    + destruct (Pcm.int16View data) as [xs|] eqn:Ev; [|repeat split].
      assert (Hs : Voice.spreadThrows (length xs) st = true).
      { unfold Voice.spreadThrows. apply Z.ltb_lt.
        destruct (Nat.even (length data)) eqn:Ee.
        - destruct (Heven eq_refl) as (ys & Ey & L).
          assert (ys = xs) by congruence. subst ys. lia.
        - assert (Ho : Nat.odd (length data) = true)
            by (rewrite <- Nat.negb_even, Ee; reflexivity).
          pose proof (Hodd Ho) as En. congruence. }
      rewrite (spreadThrows_host (length xs) st) by reflexivity.
      rewrite Hs. repeat split.
  - intros He Hlen. destruct (Heven He) as (xs & E & L).
    exists xs. split; [exact E|]. split; [lia|].
    assert (Hs : Voice.spreadThrows (length xs) st = false)
      by (unfold Voice.spreadThrows; apply Z.ltb_ge; lia).
    rewrite E. rewrite (spreadThrows_host (length xs) st) by reflexivity.
    rewrite Hs.
    destruct st as [p u w fs cp [sr ctx q playing src pend dev] hst].
    cbn [Voice.playback Voice.isPlayingRef Voice.audioQueueRef Voice.pending
         Voice.device]. split.
    + intros ->. repeat split.
    + intros (Hi1 & Hi2 & Hi3) Hne. cbn in Hi1, Hi2, Hi3. subst.
      destruct xs as [|x xs]; [congruence|]. repeat split.
Qed.

Lemma raw_payload_decoding_witness :
  Voice.device
    (Voice.playback
       (Voice.handleAudioResponse [1; 0; 2] false
          (Voice.connectedOn Voice.Web)))
  = [] /\
  Voice.messages
    (Voice.ui
       (Voice.handleAudioResponse [1; 0; 2] false
          (Voice.connectedOn Voice.Web)))
  = [Voice.Note "Error processing audio";
     Voice.Note "Processing audio chunk...";
     Voice.Note "Connected to voice server";
     Voice.Note
       "Web platform detected. Mic permission will be requested on record."] /\
  Voice.pending
    (Voice.playback
       (Voice.handleAudioResponse [1; 0; 2; 0] false
          (Voice.connectedOn Voice.Web)))
  = [map Pcm.int16ToFloat32 [1; 2]].
Proof.
  destruct (raw_payload_decoding (Voice.connectedOn Voice.Web) [1; 0; 2]
              false eq_refl eq_refl) as (H & _).
  destruct (H (or_introl eq_refl)) as (_ & _ & H3 & _ & _ & H6).
  destruct (raw_payload_decoding (Voice.connectedOn Voice.Web) [1; 0; 2; 0]
              false eq_refl eq_refl) as (_ & G).
  destruct G as (xs & Ev & _ & _ & Gi);
    [reflexivity | vm_compute; discriminate |].
  injection Ev as <-.
  destruct Gi as (_ & G2 & _); [repeat split | discriminate |].
  split; [exact H3|]. split; [exact H6 | exact G2].
Defined.

(** [startRecording]: refused outright unless connected with the socket
    OPEN (an alert, no frame, no change of the recording flag or of the
    capture refs); otherwise the header is sent first, and if the capture
    source is then refused the recording flag and the capture refs stay
    as they were although the header has gone out. *)
Theorem startRecording_outcomes (st : Voice.State) (granted : bool) :
  exists header,
    FrameCodec.createWavHeader Voice.sampleRate Voice.bitsPerSample
      = Some header /\
    (Voice.isConnected (Voice.ui st) && Voice.socketOpen st = false ->
     Voice.wire (Voice.startRecording granted st) = Voice.wire st /\
     Voice.isRecording (Voice.ui (Voice.startRecording granted st))
     = Voice.isRecording (Voice.ui st) /\
     Voice.capture (Voice.startRecording granted st) = Voice.capture st /\
     Voice.alerts (Voice.ui (Voice.startRecording granted st))
     = "Not Connected"%string :: Voice.alerts (Voice.ui st)) /\
    (Voice.isConnected (Voice.ui st) && Voice.socketOpen st = true ->
     Voice.wire (Voice.startRecording granted st)
     = Voice.wire st ++ [Voice.Binary header] /\
     (granted = false ->
      Voice.isRecording (Voice.ui (Voice.startRecording granted st))
      = Voice.isRecording (Voice.ui st) /\
      Voice.capture (Voice.startRecording granted st) = Voice.capture st /\
      Voice.alerts (Voice.ui (Voice.startRecording granted st))
      = "Error"%string :: Voice.alerts (Voice.ui st)) /\
     (granted = true ->
      Voice.isRecording (Voice.ui (Voice.startRecording granted st)) = true /\
      Voice.alerts (Voice.ui (Voice.startRecording granted st))
      = Voice.alerts (Voice.ui st))).
Proof.
  destruct (startRecording_wire granted st) as (header & Hh & Hw).
  destruct (startRecording_rest granted st) as (_ & _ & _ & _ & Hr & Hc).
  pose proof (startRecording_alerts granted st) as Ha.
  exists header. split; [exact Hh|].
  destruct (Voice.isConnected (Voice.ui st) && Voice.socketOpen st).
  - split; [discriminate|]. intros _. split; [exact Hw|].
    cbn [andb] in Hr, Hc.
    split; intros ->; rewrite Hr, Ha; repeat split. exact Hc.
  - split; [|discriminate]. intros _. cbn [andb] in Hr, Hc.
    rewrite Hw, Hr, Hc, Ha. repeat split.
Qed.

(** On the native platform the buffers delivered between the start of a
    turn and the effect that copies the recording flag into its ref are
    not sent; those delivered after it are. *)
Theorem native_early_frames_dropped
  (st : Voice.State) (early late : list Voice.LiveData) :
  Voice.platform st = Voice.Native ->
  Voice.readyForTurn st ->
  Voice.isRecordingRef (Voice.capture st) = false ->
  exists header,
    FrameCodec.createWavHeader Voice.sampleRate Voice.bitsPerSample
      = Some header /\
    Voice.wire
      (Voice.run (Voice.PressRecord true
                  :: map Voice.LiveDataEvent early
                  ++ Voice.Effect :: map Voice.LiveDataEvent late) st)
    = Voice.wire st
      ++ Voice.Binary header
         :: map (fun d => Voice.Binary (Voice.convertAudioDataToBuffer d))
                late.
Proof.
  intros Hp Hready Hr.
  destruct (readyForTurn_shape st Hready)
    as (ms & cs & pa & ds & chs & al & cl & r & E).
  remember (Voice.wire st) as fs eqn:Efs.
  remember (Voice.playback st) as pb eqn:Epb.
  remember (Voice.host st) as hst eqn:Eh.
  rewrite Hp in E. rewrite E in Hr. cbn in Hr. subst r.
  destruct (press_record_native ms cs pa ds chs al cl fs false pb hst)
    as (header & ms' & Hh & _ & Es).
  exists header. split; [exact Hh|].
  clear Efs Epb Eh Hready Hp. subst st.
  rewrite run_cons, run_app, run_cons, Es.
  rewrite (native_frames_dropped early) by reflexivity.
  destruct (native_frames late ms' cs pa 0 0 al cl
              (fs ++ [Voice.Binary header]) pb hst)
    as (ds' & chs' & Ef).
  change (Voice.step Voice.Effect
            (Voice.mkState Voice.Native
               (Voice.mkUi true true ms' cs pa 0 0 al)
               (Some (Voice.mkSocket Voice.OPEN cl))
               (fs ++ [Voice.Binary header])
               (Voice.mkCapture false false true false false false false
                                false false true) pb hst))
    with (Voice.mkState Voice.Native
            (Voice.mkUi true true ms' cs pa 0 0 al)
            (Some (Voice.mkSocket Voice.OPEN cl))
            (fs ++ [Voice.Binary header])
            (Voice.mkCapture true false true false false false false
                             false false true) pb hst).
  rewrite Ef. cbn [Voice.wire]. rewrite <- app_assoc. reflexivity.
Qed.

Lemma native_early_frames_dropped_witness :
  exists header,
    FrameCodec.createWavHeader Voice.sampleRate Voice.bitsPerSample
      = Some header /\
    Voice.wire
      (Voice.run [Voice.PressRecord true;
                  Voice.LiveDataEvent (Voice.DataArray [5]);
                  Voice.Effect;
                  Voice.LiveDataEvent (Voice.DataArray [6])]
         (Voice.connectedOn Voice.Native))
    = [Voice.Binary header; Voice.Binary [6; 0]].
Proof.
  apply (native_early_frames_dropped (Voice.connectedOn Voice.Native)
           [Voice.DataArray [5]] [Voice.DataArray [6]]).
  - reflexivity.
  - repeat split.
  - reflexivity.
Defined.

(** * Further properties: identifiers, unmounting, the recipe list *)

Section IdentMore.
Import JS Ident.

(** The first eight code units of a canonical UUID are its first eight
    digits. *)
Lemma isUuid_leading_digits id :
  isUuid id = true ->
  substring 0 8 (removeHyphens id) = firstn 8 id.
Proof.
  intros H.
  destruct (isUuid_digits id H) as (hi & lo & E & Lhi & Llo & Hhi & _).
  assert (Esub : substring 0 8 (removeHyphens id) = hi).
  { rewrite E. unfold substring.
    rewrite length_app, Lhi, Llo. cbn [Nat.min Nat.max Nat.add Nat.sub skipn].
    rewrite <- Lhi, firstn_app, Nat.sub_diag, firstn_all. cbn [firstn].
    apply app_nil_r. }
  rewrite Esub.
  assert (Ehi : hi = firstn 8 (removeHyphens id)).
  { rewrite E, <- Lhi, firstn_app, Nat.sub_diag, firstn_all. cbn [firstn].
    now rewrite app_nil_r. }
  rewrite Ehi. clear - H.
  unfold isUuid in H.
  do 36 (destruct id as [|? id]; [discriminate|]).
  destruct id; [|discriminate].
  apply andb_true_iff in H. destruct H as [_ Hx].
  cbn [forallb] in Hx.
  repeat (apply andb_true_iff in Hx; let X := fresh "X" in
          destruct Hx as [X Hx]).
  assert (Rhex : forall c l, isHex c = true ->
                   removeHyphens (c :: l) = c :: removeHyphens l).
  { intros c l Hc. unfold removeHyphens. cbn [filter].
    now rewrite (isHex_not_hyphen c Hc). }
  do 8 (rewrite Rhex by assumption).
  reflexivity.
Qed.

End IdentMore.

(** The integer sent for an identifier depends on its first eight
    characters only: two canonical UUIDs that agree there are sent as the
    same number, whatever the other 96 bits. *)
Theorem uuidToInt_depends_on_first_eight (a b : JS.jsstring) :
  Ident.isUuid a = true -> Ident.isUuid b = true ->
  firstn 8 a = firstn 8 b ->
  Ident.uuidToInt a = Ident.uuidToInt b.
Proof.
  intros Ha Hb E. unfold Ident.uuidToInt.
  rewrite (isUuid_leading_digits a Ha), (isUuid_leading_digits b Hb), E.
  reflexivity.
Qed.

Lemma uuidToInt_depends_on_first_eight_witness :
  Ident.uuidToInt (JS.codeUnits "3f2504e0-4f89-11d3-9a0c-0305e82c3301")
  = Ident.uuidToInt (JS.codeUnits "3f2504e0-0000-4000-8000-00000000beef").
Proof.
  apply (uuidToInt_depends_on_first_eight
           (JS.codeUnits "3f2504e0-4f89-11d3-9a0c-0305e82c3301")
           (JS.codeUnits "3f2504e0-0000-4000-8000-00000000beef"));
    reflexivity.
Defined.

(** Unmounting.  The cleanup never runs [stopRecording] (the recording
    flag it tests is the first render's): it sends nothing, leaves the
    recording flag and, on the web, the whole capture graph as they are,
    so a recording in progress keeps the processor and the microphone
    tracks alive.  It does start closing the socket, stops the native
    stream when its ref is set, empties the playback queue and clears the
    playing flag. *)
Theorem unmountCleanup_effects (st : Voice.State) :
  Voice.wire (Voice.unmountCleanup st) = Voice.wire st /\
  Voice.isRecording (Voice.ui (Voice.unmountCleanup st))
  = Voice.isRecording (Voice.ui st) /\
  Voice.socketOpen (Voice.unmountCleanup st) = false /\
  Voice.processorLive (Voice.capture (Voice.unmountCleanup st))
  = Voice.processorLive (Voice.capture st) /\
  Voice.tracksLive (Voice.capture (Voice.unmountCleanup st))
  = Voice.tracksLive (Voice.capture st) /\
  Voice.scriptProcessorRef (Voice.capture (Voice.unmountCleanup st))
  = Voice.scriptProcessorRef (Voice.capture st) /\
  Voice.liveStreamRunning (Voice.capture (Voice.unmountCleanup st))
  = (if Voice.liveAudioStreamRef (Voice.capture st) then false
     else Voice.liveStreamRunning (Voice.capture st)) /\
  Voice.audioQueueRef (Voice.playback (Voice.unmountCleanup st)) = [] /\
  Voice.isPlayingRef (Voice.playback (Voice.unmountCleanup st)) = false /\
  Voice.device (Voice.playback (Voice.unmountCleanup st))
  = Voice.device (Voice.playback st).
Proof.
  destruct st as [p u w fs [r i l rr s a sp pl t lr] pb hst].
  destruct l, w as [[[] ?]|]; vm_compute; repeat split.
Qed.

Example unmount_while_recording_on_web :
  Voice.processorLive
    (Voice.capture (Voice.unmountCleanup Voice.recordingOnWeb)) = true /\
  Voice.tracksLive
    (Voice.capture (Voice.unmountCleanup Voice.recordingOnWeb)) = true.
Proof. split; reflexivity. Qed.

Section RecipesFacts.
Import JS Recipes.

Lemma deleteLocal_fresh rid prev :
  Forall (fun r => id r <> rid) prev -> deleteLocal rid prev = prev.
Proof.
  induction 1 as [|r l Hr _ IH]; [reflexivity|].
  cbn [deleteLocal filter]. fold (deleteLocal rid l). rewrite IH.
  destruct (str_eqb (id r) rid) eqn:E; [|reflexivity].
  apply str_eqb_eq in E. contradiction.
Qed.

Lemma updateLocal_fresh rid data prev :
  Forall (fun r => id r <> rid) prev -> updateLocal rid data prev = prev.
Proof.
  induction 1 as [|r l Hr _ IH]; [reflexivity|].
  cbn [updateLocal map]. fold (updateLocal rid data l). rewrite IH.
  destruct (str_eqb (id r) rid) eqn:E; [|reflexivity].
  apply str_eqb_eq in E. contradiction.
Qed.

Lemma str_eqb_refl s : str_eqb s s = true.
Proof. apply str_eqb_eq. reflexivity. Qed.

(** The pieces of a split never contain the separator. *)
Lemma splitOn_no_separator sep s : forall cur,
  Forall (fun c => c <> sep) cur ->
  Forall (Forall (fun c => c <> sep)) (splitOn sep s cur).
Proof.
  induction s as [|c s IH]; intros cur Hcur.
  - cbn. constructor; [|constructor]. apply Forall_rev. exact Hcur.
  - cbn [splitOn]. destruct (c =? sep) eqn:E.
    + constructor; [apply Forall_rev; exact Hcur|]. apply IH. constructor.
    + apply IH. constructor; [|exact Hcur]. apply Z.eqb_neq. exact E.
Qed.

Lemma splitOn_nonempty sep s cur : splitOn sep s cur <> [].
Proof.
  revert cur. induction s as [|c s IH]; intros cur; cbn [splitOn].
  - discriminate.
  - destruct (c =? sep); [discriminate | apply IH].
Qed.

(** After a separator at the very end, the last piece is empty. *)
Lemma splitOn_trailing sep s : forall cur,
  last (splitOn sep (s ++ [sep]) cur) [] = [].
Proof.
  induction s as [|c s IH]; intros cur.
  - cbn. rewrite Z.eqb_refl. reflexivity.
  - cbn [app splitOn]. destruct (c =? sep).
    + specialize (IH []).
      destruct (splitOn sep (s ++ [sep]) []) eqn:E;
        [exfalso; eapply splitOn_nonempty; eauto|].
      exact IH.
    + apply IH.
Qed.

Lemma last_in_list (A : Type) (l : list A) (d : A) :
  l <> [] -> In (last l d) l.
Proof.
  induction l as [|x l IH]; [congruence|]. intros _.
  destruct l as [|y l]; [left; reflexivity|].
  right. apply IH. discriminate.
Qed.

End RecipesFacts.

(** The local recipe list.  Deleting removes every recipe with the given
    identifier and nothing else; updating keeps the length; and for a
    recipe whose identifier is new to the list, adding it and then
    deleting it gives the list back, while adding it and then updating it
    replaces just the added one. *)
Theorem local_recipe_list
  (prev : list Recipes.Recipe) (rid : JS.jsstring) (data : Recipes.Recipe) :
  Forall (fun r => Recipes.id r <> rid)
    (Recipes.deleteLocal rid prev) /\
  (forall r, In r prev -> Recipes.id r <> rid ->
             In r (Recipes.deleteLocal rid prev)) /\
  (forall r, In r (Recipes.deleteLocal rid prev) -> In r prev) /\
  length (Recipes.updateLocal rid data prev) = length prev /\
  (Forall (fun r => Recipes.id r <> Recipes.id data) prev ->
   Recipes.deleteLocal (Recipes.id data) (Recipes.addLocal data prev) = prev /\
   forall data',
     Recipes.updateLocal (Recipes.id data) data' (Recipes.addLocal data prev)
     = Recipes.addLocal data' prev).
Proof.
  split; [|split; [|split; [|split]]].
  - unfold Recipes.deleteLocal. apply Forall_forall. intros r Hr.
    apply filter_In in Hr. destruct Hr as [_ Hr].
    apply negb_true_iff in Hr. intros E.
    apply str_eqb_eq in E. congruence.
  - intros r Hin Hne. unfold Recipes.deleteLocal. apply filter_In.
    split; [exact Hin|]. apply negb_true_iff.
    destruct (JS.str_eqb (Recipes.id r) rid) eqn:E; [|reflexivity].
    apply str_eqb_eq in E. contradiction.
  - intros r Hr. unfold Recipes.deleteLocal in Hr.
    apply filter_In in Hr. apply Hr.
  - unfold Recipes.updateLocal. apply length_map.
  - intros Hfresh. split.
    + unfold Recipes.addLocal. cbn [Recipes.deleteLocal filter].
      rewrite str_eqb_refl. cbn [negb].
      apply deleteLocal_fresh. exact Hfresh.
    + intros data'. unfold Recipes.addLocal.
      cbn [Recipes.updateLocal map]. rewrite str_eqb_refl.
      f_equal. apply updateLocal_fresh. exact Hfresh.
Qed.

(** The name given to a recipe parsed from a URL is never empty and
    contains no slash, hyphen or underscore; when the URL ends in a slash
    (or is empty) it is the default name. *)
Theorem recipeNameFromUrl_shape (url : JS.jsstring) :
  Recipes.recipeNameFromUrl url <> [] /\
  Forall (fun c => c <> 47 /\ c <> 45 /\ c <> 95)
    (Recipes.recipeNameFromUrl url) /\
  Recipes.recipeNameFromUrl (url ++ [47]) = JS.codeUnits "Recipe from URL" /\
  Recipes.recipeNameFromUrl [] = JS.codeUnits "Recipe from URL".
Proof.
  assert (Hlast : Forall (fun c => c <> 47)
                    (last (Recipes.split 47 url) [])).
  { unfold Recipes.split.
    pose proof (splitOn_no_separator 47 url [] (Forall_nil _)) as H.
    rewrite Forall_forall in H. apply H.
    apply last_in_list. apply splitOn_nonempty. }
  assert (Hmap : Forall (fun c => c <> 47 /\ c <> 45 /\ c <> 95)
                   (Recipes.dashesToSpaces
                      (last (Recipes.split 47 url) []))).
  { unfold Recipes.dashesToSpaces. apply Forall_map.
    eapply Forall_impl; [|exact Hlast]. intros c Hc. cbv beta.
    destruct ((c =? 45) || (c =? 95)) eqn:E; [lia|].
    apply orb_false_iff in E. destruct E as [E1 E2].
    apply Z.eqb_neq in E1. apply Z.eqb_neq in E2. auto. }
  unfold Recipes.recipeNameFromUrl. cbv zeta.
  split; [|split; [|split]].
  - destruct (Recipes.dashesToSpaces (last (Recipes.split 47 url) []));
      discriminate.
  - destruct (Recipes.dashesToSpaces (last (Recipes.split 47 url) []))
      eqn:E; [|exact Hmap].
    let v := eval vm_compute in (JS.codeUnits "Recipe from URL") in
    change (JS.codeUnits "Recipe from URL") with v.
    repeat constructor; discriminate.
  - unfold Recipes.split. rewrite splitOn_trailing. reflexivity.
  - reflexivity.
Qed.

(** * Sessions of several recording turns *)

(** One recording turn from a ready state, on either platform. *)
Lemma one_turn (st : Voice.State) :
  Voice.readyForTurn st ->
  exists header,
    FrameCodec.createWavHeader Voice.sampleRate Voice.bitsPerSample
      = Some header /\
    length header = 44%nat /\
    (Voice.platform st = Voice.Web ->
     forall inputs : list (list Pcm.sample),
       Voice.wire (Voice.run (Voice.webTurn inputs) st)
       = Voice.wire st
         ++ Voice.Binary header
            :: map (fun i => Voice.Binary (Pcm.pcm16Buffer i)) inputs
         ++ [Voice.Text Voice.stopMessage] /\
       Voice.readyForTurn (Voice.run (Voice.webTurn inputs) st) /\
       Voice.wsRef (Voice.run (Voice.webTurn inputs) st) = Voice.wsRef st /\
       Voice.host (Voice.run (Voice.webTurn inputs) st) = Voice.host st) /\
    (Voice.platform st = Voice.Native ->
     forall datas : list Voice.LiveData,
       Voice.wire (Voice.run (Voice.nativeTurn datas) st)
       = Voice.wire st
         ++ Voice.Binary header
            :: map (fun d => Voice.Binary (Voice.convertAudioDataToBuffer d))
                   datas
         ++ [Voice.Text Voice.stopMessage] /\
       Voice.readyForTurn (Voice.run (Voice.nativeTurn datas) st) /\
       Voice.wsRef (Voice.run (Voice.nativeTurn datas) st) = Voice.wsRef st /\
       Voice.host (Voice.run (Voice.nativeTurn datas) st) = Voice.host st).
Proof.
  intros Hready.
  destruct (readyForTurn_shape st Hready)
    as (ms & cs & pa & ds & chs & al & cl & r & E).
  remember (Voice.wire st) as fs eqn:Efs.
  remember (Voice.playback st) as pb eqn:Epb.
  remember (Voice.platform st) as p eqn:Ep.
  remember (Voice.host st) as hst eqn:Eh.
  destruct (start_turn_web ms cs pa ds chs al cl fs r pb hst)
    as (header & msw & Hh & Hlen & Ew).
  destruct (start_turn_native ms cs pa ds chs al cl fs r pb hst)
    as (header' & msn & Hh' & _ & En).
  assert (header' = header) by congruence. subst header'.
  exists header. split; [exact Hh|]. split; [exact Hlen|].
  assert (Ews : Voice.wsRef st = Some (Voice.mkSocket Voice.OPEN cl))
    by (rewrite E; reflexivity).
  split.
  - intros Hweb inputs. subst p. rewrite Hweb in E. subst st.
    unfold Voice.webTurn.
    change (Voice.PressRecord true :: Voice.Effect
            :: map Voice.AudioProcess inputs ++ [Voice.PressRecord true])
      with ([Voice.PressRecord true; Voice.Effect]
            ++ map Voice.AudioProcess inputs ++ [Voice.PressRecord true]).
    rewrite !run_app, Ew.
    destruct (web_frames inputs msw cs pa 0 0 al cl
                (fs ++ [Voice.Binary header]) true pb hst)
      as (ds' & chs' & Ef).
    rewrite Ef. clear Ef Ew En.
    cbn [Voice.run fold_left].
    rewrite press_record_stops by reflexivity.
    split; [|split; [|split]].
    + rewrite stopRecording_wire. cbn [Voice.socketOpen Voice.wsRef
        Voice.readyState Voice.wire].
      rewrite <- !app_assoc. reflexivity.
    + unfold Voice.readyForTurn.
      destruct (stopRecording_flags
                  (Voice.mkState Voice.Web
                     (Voice.mkUi true true msw cs pa ds' chs' al)
                     (Some (Voice.mkSocket Voice.OPEN cl))
                     ((fs ++ [Voice.Binary header])
                      ++ map (fun i => Voice.Binary (Pcm.pcm16Buffer i))
                             inputs)
                     (Voice.mkCapture true false false false true true true
                                      true true false) pb hst))
        as (F1 & F2 & _).
      split; [rewrite F2; reflexivity|]. split; [exact F1|].
      split; [rewrite socketOpen_stopRecording; reflexivity|].
      unfold Voice.captureIdle. vm_compute. reflexivity.
    + rewrite stopRecording_wsRef. reflexivity.
    + rewrite stopRecording_host. reflexivity.
  - intros Hnat datas. subst p. rewrite Hnat in E. subst st.
    unfold Voice.nativeTurn.
    change (Voice.PressRecord true :: Voice.Effect
            :: map Voice.LiveDataEvent datas ++ [Voice.PressRecord true])
      with ([Voice.PressRecord true; Voice.Effect]
            ++ map Voice.LiveDataEvent datas ++ [Voice.PressRecord true]).
    rewrite !run_app, En.
    destruct (native_frames datas msn cs pa 0 0 al cl
                (fs ++ [Voice.Binary header]) pb hst)
      as (ds' & chs' & Ef).
    rewrite Ef. clear Ef Ew En.
    cbn [Voice.run fold_left].
    rewrite press_record_stops by reflexivity.
    split; [|split; [|split]].
    + rewrite stopRecording_wire. cbn [Voice.socketOpen Voice.wsRef
        Voice.readyState Voice.wire].
      rewrite <- !app_assoc. reflexivity.
    + unfold Voice.readyForTurn.
      destruct (stopRecording_flags
                  (Voice.mkState Voice.Native
                     (Voice.mkUi true true msn cs pa ds' chs' al)
                     (Some (Voice.mkSocket Voice.OPEN cl))
                     ((fs ++ [Voice.Binary header])
                      ++ map (fun d => Voice.Binary
                                         (Voice.convertAudioDataToBuffer d))
                             datas)
                     (Voice.mkCapture true false true false false false false
                                      false false true) pb hst))
        as (F1 & F2 & _).
      split; [rewrite F2; reflexivity|]. split; [exact F1|].
      split; [rewrite socketOpen_stopRecording; reflexivity|].
      unfold Voice.captureIdle. vm_compute. reflexivity.
    + rewrite stopRecording_wsRef. reflexivity.
    + rewrite stopRecording_host. reflexivity.
Qed.



(** A session of any number of recording turns on the web: the frames
    sent are the turns' blocks one after the other, each block the header,
    then one frame per delivered buffer, then the stop message; so the
    session carries one header per turn, and the client is ready for a
    further turn at the end. *)
Theorem session_of_web_turns
  (st : Voice.State) (turns : list (list (list Pcm.sample))) :
  Voice.platform st = Voice.Web ->
  Voice.readyForTurn st ->
  exists header,
    FrameCodec.createWavHeader Voice.sampleRate Voice.bitsPerSample
      = Some header /\
    Voice.wire (Voice.run (concat (map Voice.webTurn turns)) st)
    = Voice.wire st
      ++ concat
           (map (fun inputs =>
                   Voice.Binary header
                   :: map (fun i => Voice.Binary (Pcm.pcm16Buffer i)) inputs
                   ++ [Voice.Text Voice.stopMessage]) turns) /\
    Voice.readyForTurn (Voice.run (concat (map Voice.webTurn turns)) st).
Proof.
  intros Hp Hr.
  destruct streamHeader_length as (header & Hh & _).
  exists header. split; [exact Hh|].
  revert st Hp Hr. induction turns as [|inputs turns IH]; intros st Hp Hr.
  - cbn. rewrite app_nil_r. split; [reflexivity | exact Hr].
  - destruct (one_turn st Hr) as (h & Hh' & _ & Hweb & _).
    assert (h = header) by congruence. subst h.
    destruct (Hweb Hp inputs) as (Ew & Hr1 & _ & _).
    assert (Hp1 : Voice.platform (Voice.run (Voice.webTurn inputs) st)
                  = Voice.Web) by (rewrite run_platform; exact Hp).
    destruct (IH _ Hp1 Hr1) as (E & Hr2).
    cbn [map concat]. rewrite run_app, E, Ew, <- !app_assoc.
    split; [reflexivity | exact Hr2].
Qed.

Lemma session_of_web_turns_witness :
  exists header,
    FrameCodec.createWavHeader Voice.sampleRate Voice.bitsPerSample
      = Some header /\
    Voice.wire
      (Voice.run (concat (map Voice.webTurn [[[1 # 2]]; []; [[- 3 # 2]]]))
         (Voice.connectedOn Voice.Web))
    = [Voice.Binary header; Voice.Binary [255; 63];
       Voice.Text Voice.stopMessage;
       Voice.Binary header; Voice.Text Voice.stopMessage;
       Voice.Binary header; Voice.Binary [0; 128];
       Voice.Text Voice.stopMessage].
Proof.
  destruct (session_of_web_turns (Voice.connectedOn Voice.Web)
              [[[1 # 2]]; []; [[- 3 # 2]]] eq_refl)
    as (h & H1 & H2 & _).
  - repeat split.
  - exists h. split; [exact H1 | exact H2].
Defined.

(** ** Instances of the conditional parts *)

(** [convertAudioDataToBuffer_array] at four numbers that are 16-bit
    already: the frame reads back as the numbers themselves. *)
Lemma convertAudioDataToBuffer_array_witness :
  Pcm.int16View
    (Voice.convertAudioDataToBuffer (Voice.DataArray [0; 1; -1; 32767]))
  = Some [0; 1; -1; 32767].
Proof.
  refine (proj2 (proj2 (convertAudioDataToBuffer_array [0; 1; -1; 32767])) _).
  repeat (apply Forall_cons; [lia|]). apply Forall_nil.
Defined.

(** [startRecording_outcomes] at the initial state, which has no socket:
    the request is refused with the alert. *)
Lemma startRecording_outcomes_witness :
  Voice.alerts
    (Voice.ui
       (Voice.startRecording true
          (Voice.initial Voice.Web Voice.sampleArgumentLimit)))
  = ["Not Connected"%string].
Proof.
  destruct (startRecording_outcomes
              (Voice.initial Voice.Web Voice.sampleArgumentLimit) true)
    as [header [_ [H _]]].
  exact (proj2 (proj2 (proj2 (H eq_refl)))).
Defined.

(** [local_recipe_list] at a list of one recipe and a second recipe with
    another identifier: added and then deleted, the list is as before. *)
Lemma local_recipe_list_witness :
  Recipes.deleteLocal (JS.codeUnits "b")
    (Recipes.addLocal (Recipes.mkRecipe (JS.codeUnits "b") [] [])
       [Recipes.mkRecipe (JS.codeUnits "a") [] []])
  = [Recipes.mkRecipe (JS.codeUnits "a") [] []].
Proof.
  refine
    (proj1
       (proj2 (proj2 (proj2 (proj2
          (local_recipe_list [Recipes.mkRecipe (JS.codeUnits "a") [] []]
             [] (Recipes.mkRecipe (JS.codeUnits "b") [] []))))) _)).
  apply Forall_cons; [vm_compute; discriminate | apply Forall_nil].
Defined.
